(** * Pied Piper financial forensic engine: detectors and aggregator

    A shallow embedding of [backend/circular_fund_detector.py],
    [backend/smurfing_detector.py], [backend/shell_detector.py] and the
    merging part of [backend/server.py].

    Conventions.  Account ids are strings, compared as Python compares
    [str] values (code point by code point).  Python floats are read as
    exact rationals ([Q]).  A [datetime] is the number of seconds on a
    fixed time line ([Z]).  A Python [dict] that is iterated is an
    association list in insertion order; a Python [set] that is only
    tested for membership or counted is a duplicate-free list. *)

From Stdlib Require Import String Ascii List Bool Arith ZArith QArith Qminmax
  Qround Lia Lqa Permutation Sorted OrderedTypeEx Morphisms.
Import ListNotations.

Local Open Scope string_scope.
Local Open Scope list_scope.

(* ------------------------------------------------------------------ *)
(** ** Account ids and their order *)

Definition account := string.

Definition account_eq_dec : forall a b : account, {a = b} + {a <> b} :=
  string_dec.

(** [a < b] on Python strings. *)
Definition acc_ltb (a b : account) : bool := String.ltb a b.

(** [a <= b], that is [not (b < a)]. *)
Definition acc_le (a b : account) : Prop := acc_ltb b a = false.

(* ------------------------------------------------------------------ *)
(** ** Utilities of circular_fund_detector.py *)

(** [min(cycle)]: the scan keeps the first least element. *)
Fixpoint py_min_from (best : account) (l : list account) : account :=
  match l with
  | [] => best
  | x :: t => py_min_from (if acc_ltb x best then x else best) t
  end.

(** [min] raises [ValueError] on an empty sequence: [None]. *)
Definition py_min (l : list account) : option account :=
  match l with
  | [] => None
  | x :: t => Some (py_min_from x t)
  end.

(** [list.index(x)]: position of the first element equal to [x];
    [ValueError] ([None]) when there is none. *)
Fixpoint py_index (x : account) (l : list account) : option nat :=
  match l with
  | [] => None
  | y :: t =>
      if account_eq_dec y x then Some 0%nat
      else match py_index x t with
           | Some i => Some (S i)
           | None => None
           end
  end.

(** [normalize_cycle]:
<<
    idx = cycle.index(min(cycle))
    return tuple(cycle[idx:] + cycle[:idx])
>> *)
Definition normalize_cycle (cycle : list account) : option (list account) :=
  match py_min cycle with
  | None => None
  | Some m =>
      match py_index m cycle with
      | None => None
      | Some idx => Some (skipn idx cycle ++ firstn idx cycle)
      end
  end.

(** Two lists are rotations of one another. *)
Definition rotation (c c' : list account) : Prop :=
  exists k : nat, c' = skipn k c ++ firstn k c.

(* ------------------------------------------------------------------ *)
(** ** Python values used by the detectors *)

(** [min(a, b)] and [max(a, b)] on numbers: the first argument is kept
    unless the second is strictly smaller (larger). *)
Definition Qltb (a b : Q) : bool := negb (Qle_bool b a).

Definition py_minQ (a b : Q) : Q := if Qltb b a then b else a.
Definition py_maxQ (a b : Q) : Q := if Qltb a b then b else a.

(** [clamp01]: [max(0.0, min(1.0, x))]. *)
Definition clamp01 (x : Q) : Q := py_maxQ 0 (py_minQ 1 x).

(** Nearest integer, ties to the even one, as [round] does. *)
Definition round_half_even (x : Q) : Z :=
  let n := Qfloor x in
  let r := x - inject_Z n in
  if Qltb r (1 # 2) then n
  else if Qltb (1 # 2) r then (n + 1)%Z
  else if Z.even n then n else (n + 1)%Z.

(** [round(x, 2)]. *)
Definition round2 (x : Q) : Q := inject_Z (round_half_even (x * 100)) / 100.

(** An exception of the Python run time, as far as the detectors can
    meet one. *)
Inductive exn : Type :=
| ValueError
| TypeError
| KeyError
| IndexError
| AttributeError
| OverflowError.

(** The outcome of code that may raise. *)
Inductive outcome (A : Type) : Type :=
| Ok (a : A)
| Raise (e : exn).
Arguments Ok {A} a.
Arguments Raise {A} e.

Definition bind {A B : Type} (m : outcome A) (k : A -> outcome B) : outcome B :=
  match m with
  | Ok a => k a
  | Raise e => Raise e
  end.

Notation "x <- m ;; k" := (bind m (fun x => k))
  (at level 61, m at next level, right associativity).

(** [for x in l: st = body(st, x)], stopping at the first exception. *)
Fixpoint for_each {A S : Type} (body : S -> A -> outcome S) (l : list A) (st : S)
  : outcome S :=
  match l with
  | [] => Ok st
  | x :: t => st' <- body st x ;; for_each body t st'
  end.

(** The value under the key ["amount"] of a transaction record. *)
Inductive amount_field : Type :=
| AmountAbsent                 (* the key is missing *)
| AmountNone                   (* None *)
| AmountNum (q : Q)            (* an int or a float *)
| AmountStr (s : string).      (* text *)

(** A transaction record: a dict with the four keys the detectors read.
    [None] stands for a missing key or the value [None]; the detectors do
    not tell them apart for the ids and the timestamp. *)
Record transaction : Type := {
  sender_id : option string;
  receiver_id : option string;
  amount : amount_field;
  timestamp : option string
}.

(** [datetime]: seconds on a fixed time line. *)
Definition datetime := Z.

(** The parts of the Python standard library the detectors call:
    [float] on text, [datetime.strptime], [statistics.stdev] and
    [datetime.now]. *)
Class PyLib : Type := {
  float_of_str : string -> option Q;
  strptime : string -> string -> option datetime;
  stdev : list Q -> Q;
  now : datetime           (* [datetime.now()]; the value is never read *)
}.

(** Truth value of an id: [None] and the empty string are false. *)
Definition truthy (s : option string) : bool :=
  match s with
  | None => false
  | Some s => negb (String.eqb s "")
  end.

(** The id behind a true value; the empty string otherwise. *)
Definition id_of (s : option string) : account :=
  match s with
  | None => ""
  | Some s => s
  end.

(** [str.strip()] for the white space of ASCII. *)
Definition is_space (c : ascii) : bool :=
  let n := nat_of_ascii c in
  ((9 <=? n) && (n <=? 13) || (28 <=? n) && (n <=? 32))%nat.

Fixpoint lstrip (s : string) : string :=
  match s with
  | String c t => if is_space c then lstrip t else s
  | EmptyString => s
  end.

Fixpoint rstrip (s : string) : string :=
  match s with
  | String c t =>
      match rstrip t with
      | EmptyString => if is_space c then EmptyString else String c EmptyString
      | t' => String c t'
      end
  | EmptyString => EmptyString
  end.

Definition strip (s : string) : string := rstrip (lstrip s).

Section Parsing.
Context {py : PyLib}.

(** [float(x)]: a missing key reads as the default [0]. *)
Definition py_float (x : amount_field) : outcome Q :=
  match x with
  | AmountAbsent => Ok 0
  | AmountNone => Raise TypeError
  | AmountNum q => Ok q
  | AmountStr s =>
      match float_of_str s with
      | Some q => Ok q
      | None => Raise ValueError
      end
  end.

(** [safe_float]:
<<
  try: return float(x)
  except: return 0.0
>> *)
Definition safe_float (x : amount_field) : Q :=
  match py_float x with
  | Ok q => q
  | Raise _ => 0
  end.

Definition TS_FORMATS : list string :=
  ["%Y-%m-%d %H:%M:%S"; "%d-%m-%Y %H:%M:%S"; "%d-%m-%Y %H:%M"; "%Y-%m-%d"].

Fixpoint first_format (fmts : list string) (text : string) : option datetime :=
  match fmts with
  | [] => None
  | fmt :: rest =>
      match strptime text fmt with
      | Some t => Some t
      | None => first_format rest text
      end
  end.

(** [parse_ts], the same in circular_fund_detector.py and in
    smurfing_detector.py. *)
Definition parse_ts (ts : option string) : option datetime :=
  match ts with
  | None => None
  | Some s =>
      if String.eqb s "" then None
      else first_format TS_FORMATS (strip s)
  end.
End Parsing.

(* ------------------------------------------------------------------ *)
(** ** Dictionaries in insertion order *)

Section AList.
Context {K V : Type} (eq_dec : forall a b : K, {a = b} + {a <> b}).

Fixpoint alist_get (k : K) (l : list (K * V)) : option V :=
  match l with
  | [] => None
  | (k', v) :: t => if eq_dec k' k then Some v else alist_get k t
  end.

(** [d[k] = f(d.get(k))]: an existing key keeps its place, a new key
    goes last. *)
Fixpoint alist_upsert (k : K) (f : option V -> V) (l : list (K * V))
  : list (K * V) :=
  match l with
  | [] => [(k, f None)]
  | (k', v) :: t =>
      if eq_dec k' k then (k', f (Some v)) :: t
      else (k', v) :: alist_upsert k f t
  end.
End AList.

(** [d[k].append(x)] on a [defaultdict(list)]. *)
Definition alist_append {K V : Type} (eq_dec : forall a b : K, {a = b} + {a <> b})
  (k : K) (x : V) (l : list (K * list V)) : list (K * list V) :=
  alist_upsert eq_dec k
    (fun o => match o with Some vs => vs ++ [x] | None => [x] end) l.

Definition pair_eq_dec : forall a b : account * account, {a = b} + {a <> b}.
Proof. decide equality; apply account_eq_dec. Defined.

Definition cycle_eq_dec : forall a b : list account, {a = b} + {a <> b} :=
  list_eq_dec account_eq_dec.

(** Membership in a list of ids, as [x in s]. *)
Definition mem (x : account) (l : list account) : bool :=
  if in_dec account_eq_dec x l then true else false.

(** The distinct elements of a list, each at its first place: the
    content of [set(l)]. *)
Fixpoint distinct (l : list account) : list account :=
  match l with
  | [] => []
  | x :: t => x :: filter (fun y => negb (String.eqb y x)) (distinct t)
  end.

(* ------------------------------------------------------------------ *)
(** ** Directed graphs, as the detectors use [networkx.DiGraph] *)

Record DiGraph (A : Type) : Type := {
  nodes : list account;                      (* in insertion order *)
  edges : list ((account * account) * A)     (* in insertion order *)
}.
Arguments nodes {A} _.
Arguments edges {A} _.

Section Graph.
Context {A : Type}.

Definition empty_graph : DiGraph A := {| nodes := []; edges := [] |}.

Definition add_node (n : account) (g : DiGraph A) : DiGraph A :=
  if mem n (nodes g) then g
  else {| nodes := nodes g ++ [n]; edges := edges g |}.

Definition get_edge (g : DiGraph A) (u v : account) : option A :=
  alist_get pair_eq_dec (u, v) (edges g).

Definition has_edge (g : DiGraph A) (u v : account) : bool :=
  match get_edge g u v with Some _ => true | None => false end.

(** [G.add_edge(u, v, **attr)] on a new edge, or the update of the
    attributes of an edge that is there. *)
Definition put_edge (u v : account) (f : option A -> A) (g : DiGraph A)
  : DiGraph A :=
  let g' := add_node v (add_node u g) in
  {| nodes := nodes g'; edges := alist_upsert pair_eq_dec (u, v) f (edges g') |}.

Definition in_degree (g : DiGraph A) (n : account) : nat :=
  List.length (filter (fun e => mem (snd (fst e)) [n]) (edges g)).

Definition out_degree (g : DiGraph A) (n : account) : nat :=
  List.length (filter (fun e => mem (fst (fst e)) [n]) (edges g)).

Definition degree (g : DiGraph A) (n : account) : nat :=
  (in_degree g n + out_degree g n)%nat.

(** [G.out_edges(u)]. *)
Definition out_edges (g : DiGraph A) (u : account)
  : list ((account * account) * A) :=
  filter (fun e => mem (fst (fst e)) [u]) (edges g).

Definition number_of_nodes (g : DiGraph A) : nat := List.length (nodes g).

Definition remove_nodes_from (ns : list account) (g : DiGraph A) : DiGraph A :=
  {| nodes := filter (fun n => negb (mem n ns)) (nodes g);
     edges := filter (fun e => negb (mem (fst (fst e)) ns)
                               && negb (mem (snd (fst e)) ns)) (edges g) |}.

(** [G.subgraph(ns).copy()]: the graph induced on [ns]. *)
Definition subgraph (g : DiGraph A) (ns : list account) : DiGraph A :=
  {| nodes := filter (fun n => mem n ns) (nodes g);
     edges := filter (fun e => mem (fst (fst e)) ns
                               && mem (snd (fst e)) ns) (edges g) |}.
End Graph.

(** The graph algorithms taken from networkx.  Components are sets of
    nodes, cycles and paths are lists of nodes. *)
Class GraphLib : Type := {
  strongly_connected_components : forall A, DiGraph A -> list (list account);
  simple_cycles : forall A, DiGraph A -> nat -> list (list account);
  weakly_connected_components : forall A, DiGraph A -> list (list account);
  all_simple_paths :
    forall A, DiGraph A -> account -> list account -> list (list account)
}.
Arguments strongly_connected_components {_ A} _.
Arguments simple_cycles {_ A} _ _.
Arguments weakly_connected_components {_ A} _.
Arguments all_simple_paths {_ A} _ _ _.

(* ------------------------------------------------------------------ *)
(** ** The report *)

Record suspicious_account : Type := {
  account_id : account;
  suspicion_score : Q;
  detected_patterns : list string;
  sa_ring_id : string
}.

(** [detected_at] is kept as the instant that [strftime] prints. *)
Record fraud_ring : Type := {
  ring_id : string;
  member_accounts : list account;
  pattern_type : string;
  risk_score : Q;
  detected_at : option datetime
}.

(** What every detector returns (the summary counts are left out). *)
Record result : Type := {
  suspicious_accounts : list suspicious_account;
  fraud_rings : list fraud_ring
}.

(** [sorted(l)] on strings: insertion keeps equal elements in order. *)
Fixpoint insert_str (x : string) (l : list string) : list string :=
  match l with
  | [] => [x]
  | y :: t => if acc_ltb y x then y :: insert_str x t else x :: l
  end.

Definition sorted_str (l : list string) : list string :=
  fold_right insert_str [] l.

(* ------------------------------------------------------------------ *)
(** ** circular_fund_detector.py *)

Module Circular.

Definition MIN_CYCLE_LEN : nat := 3.
Definition MAX_CYCLE_LEN : nat := 5.
Definition MAX_ALLOWED_DURATION : Z := 7 * 24 * 3600.
Definition HIGH_RISK_THRESHOLD : Q := 0.
Definition HIGH_RISK_CYCLE_COUNT : nat := 3.
Definition HUB_DEGREE_LIMIT : nat := 20.

Definition W_LENGTH : Q := 25 # 100.
Definition W_AMOUNT : Q := 20 # 100.
Definition W_TIME : Q := 20 # 100.
Definition W_FREQUENCY : Q := 20 # 100.
Definition W_VOLUME : Q := 15 # 100.

(** The attributes of an aggregate edge. *)
Record edge_data : Type := {
  weight : Z;
  total_amount : Q
}.

(** An entry of [edge_meta]. *)
Record meta : Type := {
  meta_amount : Q;
  meta_timestamp : option datetime
}.

Definition edge_meta_t := list ((account * account) * list meta).

(** [cycle_occurrences]: canonical cycle to the instants at which it
    was recorded. *)
Definition occurrences_t := list (list account * list datetime).

(** An entry of [account_data]. *)
Record entry : Type := {
  score : Q;
  entry_ring_id : string;
  cycle_length : nat
}.

Definition sumQ (l : list Q) : Q := fold_left Qplus l 0.

(** [max] and [min] of a sequence of instants. *)
Definition max_ts (t : datetime) (l : list datetime) : datetime :=
  fold_left Z.max l t.
Definition min_ts (t : datetime) (l : list datetime) : datetime :=
  fold_left Z.min l t.

(** [max] of a sequence of scores: the first greatest one. *)
Definition max_score_of (x : Q) (l : list Q) : Q := fold_left py_maxQ l x.

(** [list(zip(cycle, cycle[1:] + [cycle[0]]))]. *)
Definition cycle_edges (cycle : list account)
  : outcome (list (account * account)) :=
  match cycle with
  | [] => Raise IndexError
  | x :: t => Ok (combine cycle (t ++ [x]))
  end.

(** [f"RING_{idx:03d}"]. *)
Definition digit_of (n : nat) : ascii := ascii_of_nat (48 + n mod 10).

Fixpoint digits_of (fuel n : nat) (acc : string) : string :=
  match fuel with
  | O => acc
  | S f =>
      let acc' := String (digit_of n) acc in
      if (n <? 10)%nat then acc' else digits_of f (n / 10) acc'
  end.

Definition str_of_nat (n : nat) : string := digits_of (S n) n "".

Fixpoint zeros (n : nat) (s : string) : string :=
  match n with
  | O => s
  | S k => String "0" (zeros k s)
  end.

Definition zero_pad (width : nat) (s : string) : string :=
  zeros (width - String.length s) s.

Definition ring_id_of (idx : nat) : string :=
  ("RING_" ++ zero_pad 3 (str_of_nat idx))%string.

Section Scorer.
Context {py : PyLib}.
Variable graph : DiGraph edge_data.
Variable edge_meta : edge_meta_t.

(** [self.graph[u][v]]. *)
Definition edge_at (u v : account) : outcome edge_data :=
  match get_edge graph u v with
  | Some d => Ok d
  | None => Raise KeyError
  end.

Definition length_score (cycle : list account) : Q :=
  let L := Z.of_nat (List.length cycle) in
  clamp01 (inject_Z (Z.of_nat MAX_CYCLE_LEN - L + 1)
           / inject_Z (Z.of_nat MAX_CYCLE_LEN - Z.of_nat MIN_CYCLE_LEN + 1)).

Definition amount_similarity_score (edges : list (account * account))
  : outcome Q :=
  amounts <- for_each
    (fun amounts e =>
       data <- edge_at (fst e) (snd e) ;;
       Ok (amounts ++ [total_amount data / inject_Z (weight data)]))
    edges [] ;;
  match amounts with
  | [] => Ok 0
  | _ =>
      let mean := sumQ amounts / inject_Z (Z.of_nat (List.length amounts)) in
      if Qeq_bool mean 0 then Ok 0
      else if (List.length amounts =? 1)%nat then Ok 1
      else Ok (clamp01 (1 - stdev amounts / mean))
  end.

(** The timestamps that are set, over the edges, in order.
    [self.edge_meta[(u, v)]] reads a [defaultdict]. *)
Definition edge_timestamps (edges : list (account * account))
  : list datetime :=
  flat_map
    (fun e =>
       flat_map
         (fun m => match meta_timestamp m with Some t => [t] | None => [] end)
         (match alist_get pair_eq_dec e edge_meta with
          | Some ms => ms
          | None => []
          end))
    edges.

Definition time_score (edges : list (account * account)) : Q :=
  match edge_timestamps edges with
  | [] => 1 # 2
  | [_] => 1 # 2
  | t :: rest =>
      let duration := (max_ts t rest - min_ts t rest)%Z in
      clamp01 (1 - inject_Z duration / inject_Z MAX_ALLOWED_DURATION)
  end.

Definition frequency_score (cycle : list account)
  (cycle_occurrences : occurrences_t) : outcome Q :=
  match normalize_cycle cycle with
  | None => Raise ValueError
  | Some norm =>
      let count :=
        List.length (match alist_get cycle_eq_dec norm cycle_occurrences with
                     | Some l => l
                     | None => []
                     end) in
      Ok (clamp01 (py_minQ (inject_Z (Z.of_nat count) / 3) 1))
  end.

Definition volume_score (cycle : list account)
  (edges : list (account * account)) : outcome Q :=
  cycle_volume <- for_each
    (fun s e => data <- edge_at (fst e) (snd e) ;; Ok (s + total_amount data))
    edges 0 ;;
  let total_outgoing :=
    fold_left
      (fun s u =>
         fold_left (fun s' e => s' + total_amount (snd e)) (out_edges graph u) s)
      cycle 0 in
  if Qeq_bool total_outgoing 0 then Ok 0
  else Ok (clamp01 (cycle_volume / total_outgoing)).

Definition compute (cycle : list account) (cycle_occurrences : occurrences_t)
  : outcome Q :=
  edges <- cycle_edges cycle ;;
  let ls := length_score cycle in
  as_ <- amount_similarity_score edges ;;
  let ts := time_score edges in
  fs <- frequency_score cycle cycle_occurrences ;;
  vs <- volume_score cycle edges ;;
  let raw := W_LENGTH * ls + W_AMOUNT * as_ + W_TIME * ts
             + W_FREQUENCY * fs + W_VOLUME * vs in
  Ok (round2 (clamp01 raw * 100)).
End Scorer.

Section Detector.
Context {py : PyLib} {nx : GraphLib}.

(** The fields of a detector object. *)
Record state : Type := {
  graph : DiGraph edge_data;
  edge_meta : edge_meta_t
}.

(** [__init__]. *)
Definition init : state := {| graph := empty_graph; edge_meta := [] |}.

(** One turn of the loop of [build_graph]. *)
Definition build_graph_step (st : state) (txn : transaction) : state :=
  let s := id_of (sender_id txn) in
  let r := id_of (receiver_id txn) in
  if negb (truthy (sender_id txn)) || negb (truthy (receiver_id txn))
     || String.eqb s r
  then st
  else
    let amt := safe_float (amount txn) in
    let ts := parse_ts (timestamp txn) in
    {| graph :=
         put_edge s r
           (fun o =>
              match o with
              | Some d => {| weight := weight d + 1;
                             total_amount := total_amount d + amt |}
              | None => {| weight := 1; total_amount := amt |}
              end)
           (graph st);
       edge_meta :=
         alist_append pair_eq_dec (s, r)
           {| meta_amount := amt; meta_timestamp := ts |} (edge_meta st) |}.

Definition build_graph (transactions : list transaction) (st : state)
  : state :=
  fold_left build_graph_step transactions st.

(** [int(0.1 * n)] is [n / 10] for every count of nodes that fits a
    float. *)
Definition prune (g : DiGraph edge_data) : DiGraph edge_data :=
  let threshold := Nat.max HUB_DEGREE_LIMIT (number_of_nodes g / 10) in
  let hubs := filter (fun n => (threshold <? degree g n)%nat) (nodes g) in
  let g1 := remove_nodes_from hubs g in
  let leaves :=
    filter (fun n => (in_degree g1 n =? 0)%nat || (out_degree g1 n =? 0)%nat)
           (nodes g1) in
  remove_nodes_from leaves g1.

(** The body of the inner loop of [detect_cycles]; the state is
    [(cycles, seen)]. *)
Definition detect_cycles_body
  (st : list (list account) * list (list account)) (cycle : list account)
  : outcome (list (list account) * list (list account)) :=
  let '(cycles, seen) := st in
  if ((MIN_CYCLE_LEN <=? List.length cycle)
      && (List.length cycle <=? MAX_CYCLE_LEN))%nat
  then
    match normalize_cycle cycle with
    | None => Raise ValueError
    | Some norm =>
        if in_dec cycle_eq_dec norm seen then Ok (cycles, seen)
        else Ok (cycles ++ [norm], norm :: seen)
    end
  else Ok st.

Definition detect_cycles_scc (G : DiGraph edge_data)
  (st : list (list account) * list (list account)) (scc : list account)
  : outcome (list (list account) * list (list account)) :=
  if (List.length scc <? MIN_CYCLE_LEN)%nat then Ok st
  else
    let sub := subgraph G scc in
    for_each detect_cycles_body (simple_cycles sub MAX_CYCLE_LEN) st.

Definition detect_cycles (st : state) : outcome (list (list account)) :=
  let G := prune (graph st) in
  r <- for_each (detect_cycles_scc G) (strongly_connected_components G)
         ([], []) ;;
  Ok (fst r).

Definition get_cycle_completion_time (st : state) (cycle : list account)
  : outcome (option datetime) :=
  edges <- cycle_edges cycle ;;
  match edge_timestamps (edge_meta st) edges with
  | [] => Ok None
  | t :: rest => Ok (Some (max_ts t rest))
  end.

(** The first loop of [run]: every cycle found is recorded under its
    canonical form. *)
Definition record_occurrence (occ : occurrences_t) (cycle : list account)
  : outcome occurrences_t :=
  match normalize_cycle cycle with
  | None => Raise ValueError
  | Some norm => Ok (alist_append cycle_eq_dec norm now occ)
  end.

Definition account_data_t := list (account * list entry).

(** The second loop of [run]; the state is [(idx, rings, account_data)]. *)
Definition score_cycle (st : state) (occ : occurrences_t)
  (acc : nat * list fraud_ring * account_data_t) (cycle : list account)
  : outcome (nat * list fraud_ring * account_data_t) :=
  let '(idx, rings, account_data) := acc in
  sc <- compute (graph st) (edge_meta st) cycle occ ;;
  let rid := ring_id_of idx in
  completion_time <- get_cycle_completion_time st cycle ;;
  let ring := {| ring_id := rid;
                 member_accounts := cycle;
                 pattern_type := "cycle";
                 risk_score := sc;
                 detected_at := completion_time |} in
  let e := {| score := sc; entry_ring_id := rid;
              cycle_length := List.length cycle |} in
  Ok (S idx, rings ++ [ring],
      fold_left (fun d a => alist_append account_eq_dec a e d)
                cycle account_data).

Definition patterns_of (entries : list entry) : list string :=
  flat_map
    (fun e =>
       (if (cycle_length e =? 3)%nat then ["cycle_length_3"] else [])
       ++ (if Qltb 85 (score e) then ["high_velocity"] else []))
    entries.

(** The third loop of [run]. *)
Definition flag_account (out : list suspicious_account)
  (item : account * list entry) : outcome (list suspicious_account) :=
  let '(acc, entries) := item in
  match entries with
  | [] => Raise ValueError
  | e0 :: rest =>
      let max_score := max_score_of (score e0) (map score rest) in
      let high_risk_cycles :=
        List.length
          (filter (fun e => Qltb HIGH_RISK_THRESHOLD (score e)) entries) in
      let flagged :=
        Qltb HIGH_RISK_THRESHOLD max_score
        || (HIGH_RISK_CYCLE_COUNT <? high_risk_cycles)%nat in
      if flagged then
        Ok (out ++ [{| account_id := acc;
                       suspicion_score := round2 max_score;
                       detected_patterns :=
                         sorted_str (distinct (patterns_of entries));
                       sa_ring_id := entry_ring_id e0 |}])
      else Ok out
  end.

(** [run] on a fresh detector. *)
Definition run (transactions : list transaction) : outcome result :=
  let st := build_graph transactions init in
  cycles <- detect_cycles st ;;
  cycle_occurrences <- for_each record_occurrence cycles [] ;;
  scored <- for_each (score_cycle st cycle_occurrences) cycles
              (1%nat, [], []) ;;
  let '(_, rings, account_data) := scored in
  suspicious <- for_each flag_account account_data [] ;;
  Ok {| suspicious_accounts := suspicious; fraud_rings := rings |}.
End Detector.

End Circular.

(* ------------------------------------------------------------------ *)
(** ** smurfing_detector.py *)

Module Smurfing.

(** The field [amount] of a transaction record. *)
Definition txn_amount (txn : transaction) : amount_field := amount txn.

Definition FAN_IN_THRESHOLD : nat := 10.
Definition FAN_OUT_THRESHOLD : nat := 10.
Definition TIME_WINDOW_HOURS : Z := 72.

(** An entry of [fan_in] (the party is the sender) or of [fan_out] (the
    party is the receiver). *)
Record entry : Type := {
  party : account;
  ts : datetime;
  amount : Q
}.

Definition fan_t := list (account * list entry).

(** [txns.sort(key=lambda x: x["ts"])]: a stable sort. *)
Fixpoint insert_ts (x : entry) (l : list entry) : list entry :=
  match l with
  | [] => [x]
  | y :: t => if (ts y <? ts x)%Z then y :: insert_ts x t else x :: l
  end.

Definition sort_ts (l : list entry) : list entry := fold_right insert_ts [] l.

(** [txns[i]["ts"]] for an index in range. *)
Definition ts_at (txns : list entry) (i : nat) : datetime :=
  match nth_error txns i with
  | Some e => ts e
  | None => 0%Z
  end.

(** [txns[start_idx : i+1]]. *)
Definition window (txns : list entry) (start_idx i : nat) : list entry :=
  firstn (i + 1 - start_idx) (skipn start_idx txns).

(** The [while] loop that moves [start_idx]; it makes at most
    [i - start_idx] turns. *)
Fixpoint advance (txns : list entry) (current_ts : datetime) (i : nat)
  (turns : nat) (start_idx : nat) : nat :=
  match turns with
  | O => start_idx
  | S k =>
      if (start_idx <? i)%nat
         && (TIME_WINDOW_HOURS * 3600 <? current_ts - ts_at txns start_idx)%Z
      then advance txns current_ts i k (S start_idx)
      else start_idx
  end.

(** The [for i in range(len(txns))] loop from index [i] on, [todo]
    indices being left: the parties and the instant of the first
    window that reaches the threshold. *)
Fixpoint scan (threshold : nat) (txns : list entry) (todo i start_idx : nat)
  : option (list account * datetime) :=
  match todo with
  | O => None
  | S k =>
      let current_ts := ts_at txns i in
      let start_idx' := advance txns current_ts i (i - start_idx) start_idx in
      let parties := distinct (map party (window txns start_idx' i)) in
      if (threshold <=? List.length parties)%nat
      then Some (parties, current_ts)
      else scan threshold txns k (S i) start_idx'
  end.

Definition detect (threshold : nat) (txns : list entry)
  : option (list account * datetime) :=
  let sorted := sort_ts txns in
  scan threshold sorted (List.length sorted) 0 0.

Definition fan_in_step (out : list suspicious_account * list fraud_ring)
  (item : account * list entry) : list suspicious_account * list fraud_ring :=
  let '(acc, txns) := item in
  match detect FAN_IN_THRESHOLD txns with
  | Some (senders, current_ts) =>
      (fst out ++ [{| account_id := acc;
                      suspicion_score := 80;
                      detected_patterns := ["fan_in"];
                      sa_ring_id := ("SMURF_IN_" ++ acc)%string |}],
       snd out ++ [{| ring_id := ("SMURF_IN_" ++ acc)%string;
                      member_accounts := senders ++ [acc];
                      pattern_type := "fan_in";
                      risk_score := 85;
                      detected_at := Some current_ts |}])
  | None => out
  end.

Definition fan_out_step (out : list suspicious_account * list fraud_ring)
  (item : account * list entry) : list suspicious_account * list fraud_ring :=
  let '(acc, txns) := item in
  match detect FAN_OUT_THRESHOLD txns with
  | Some (receivers, current_ts) =>
      (fst out ++ [{| account_id := acc;
                      suspicion_score := 80;
                      detected_patterns := ["fan_out"];
                      sa_ring_id := ("SMURF_OUT_" ++ acc)%string |}],
       snd out ++ [{| ring_id := ("SMURF_OUT_" ++ acc)%string;
                      member_accounts := [acc] ++ receivers;
                      pattern_type := "fan_out";
                      risk_score := 85;
                      detected_at := Some current_ts |}])
  | None => out
  end.

Section Detector.
Context {py : PyLib}.

(** One turn of the grouping loop; the state is [(fan_in, fan_out)]. *)
Definition group_step (st : fan_t * fan_t) (txn : transaction)
  : outcome (fan_t * fan_t) :=
  let s := sender_id txn in
  let r := receiver_id txn in
  let ts := parse_ts (timestamp txn) in
  amount <- py_float (txn_amount txn) ;;
  match ts with
  | Some t =>
      if truthy s && truthy r then
        Ok (alist_append account_eq_dec (id_of r)
              {| party := id_of s; ts := t; amount := amount |} (fst st),
            alist_append account_eq_dec (id_of s)
              {| party := id_of r; ts := t; amount := amount |} (snd st))
      else Ok st
  | None => Ok st
  end.

Definition group (transactions : list transaction) : outcome (fan_t * fan_t) :=
  for_each group_step transactions ([], []).

Definition run (transactions : list transaction) : outcome result :=
  g <- group transactions ;;
  let out := fold_left fan_in_step (fst g) ([], []) in
  let out := fold_left fan_out_step (snd g) out in
  Ok {| suspicious_accounts := fst out; fraud_rings := snd out |}.
End Detector.

End Smurfing.

(* ------------------------------------------------------------------ *)
(** ** shell_detector.py *)

Module Shell.

Definition counts_t := list (account * nat).

(** [node_txn_counts[n] = node_txn_counts.get(n, 0) + 1]. *)
Definition bump (n : account) (counts : counts_t) : counts_t :=
  alist_upsert account_eq_dec n
    (fun o => match o with Some c => S c | None => 1%nat end) counts.

Definition build_step (st : DiGraph unit * counts_t) (txn : transaction)
  : DiGraph unit * counts_t :=
  if truthy (sender_id txn) && truthy (receiver_id txn) then
    let s := id_of (sender_id txn) in
    let r := id_of (receiver_id txn) in
    (put_edge s r (fun _ => tt) (fst st), bump r (bump s (snd st)))
  else st.

Definition build (transactions : list transaction) : DiGraph unit * counts_t :=
  fold_left build_step transactions (empty_graph, []).

Definition shells_of (counts : counts_t) : list account :=
  map fst (filter (fun nc => (2 <=? snd nc)%nat && (snd nc <=? 3)%nat) counts).

Section Detector.
Context {nx : GraphLib}.

(** The test on a path of the component. *)
Definition valid_path (graph : DiGraph unit) (path : list account) : bool :=
  (2 <=? List.length path)%nat
  && (0 <? in_degree graph (hd "" path))%nat
  && (0 <? out_degree graph (last path ""))%nat.

(** The two nested loops over the start nodes and their paths: the
    first path that passes the test. *)
Fixpoint find_chain (graph comp_sub : DiGraph unit)
  (component start_nodes : list account) : option (list account) :=
  match start_nodes with
  | [] => None
  | start :: rest =>
      match find (valid_path graph)
                 (all_simple_paths comp_sub start component) with
      | Some path => Some path
      | None => find_chain graph comp_sub component rest
      end
  end.

(** The loop over the members of a chain; the state is
    [(suspicious_accounts, detected_shells)]. *)
Definition mark_member (rid : string)
  (st : list suspicious_account * list account) (member : account)
  : list suspicious_account * list account :=
  if mem member (snd st) then st
  else (fst st ++ [{| account_id := member;
                      suspicion_score := 75;
                      detected_patterns := ["shell_account"];
                      sa_ring_id := rid |}],
        member :: snd st).

(** The loop over the components; the state is
    [(suspicious_accounts, rings, detected_shells)]. *)
Definition component_step (graph shell_subgraph : DiGraph unit)
  (st : list suspicious_account * list fraud_ring * list account)
  (component : list account)
  : list suspicious_account * list fraud_ring * list account :=
  let '(suspicious, rings, detected) := st in
  if (2 <=? List.length component)%nat then
    let comp_sub := subgraph shell_subgraph component in
    let start_nodes :=
      filter (fun n => (0 <? in_degree graph n)%nat) component in
    match find_chain graph comp_sub component start_nodes with
    | Some chain_members =>
        let rid := ("SHELL_" ++ hd "" chain_members)%string in
        let ring := {| ring_id := rid;
                       member_accounts := chain_members;
                       pattern_type := "shell_network";
                       risk_score := 75;
                       detected_at := None |} in
        let marked :=
          fold_left (mark_member rid) chain_members (suspicious, detected) in
        (fst marked, rings ++ [ring], snd marked)
    | None => st
    end
  else st.

Definition run (transactions : list transaction) : result :=
  let '(graph, node_txn_counts) := build transactions in
  let shells := shells_of node_txn_counts in
  match shells with
  | [] => {| suspicious_accounts := []; fraud_rings := [] |}
  | _ =>
      let shell_subgraph := subgraph graph shells in
      let '(suspicious, rings, _) :=
        fold_left (component_step graph shell_subgraph)
                  (weakly_connected_components shell_subgraph)
                  ([], [], []) in
      {| suspicious_accounts := suspicious; fraud_rings := rings |}
  end.
End Detector.

End Shell.

(* ------------------------------------------------------------------ *)
(** ** server.py: the merge of the three results *)

Module Server.

(** [s.update(l)] on a set of tags. *)
Definition set_update (s l : list string) : list string :=
  fold_left (fun s p => if mem p s then s else s ++ [p]) l s.

(** The body of the loop over [all_suspicious] on the record of the
    account, [None] standing for an account that is not in [acc_map] yet:
    the record is created with score [0.0], no tag and the ring id of the
    item, then the score and the tags are updated. *)
Definition merge_record (item : suspicious_account)
  (o : option suspicious_account) : suspicious_account :=
  let cur :=
    match o with
    | Some rec => rec
    | None => {| account_id := account_id item;
                 suspicion_score := 0;
                 detected_patterns := [];
                 sa_ring_id := sa_ring_id item |}
    end in
  {| account_id := account_id cur;
     suspicion_score := py_maxQ (suspicion_score cur) (suspicion_score item);
     detected_patterns :=
       set_update (detected_patterns cur) (detected_patterns item);
     sa_ring_id := sa_ring_id cur |}.

(** One turn of the loop; [acc_map] maps an account id to its merged
    record, whose tags are a set. *)
Definition merge_step (acc_map : list (account * suspicious_account))
  (item : suspicious_account) : list (account * suspicious_account) :=
  alist_upsert account_eq_dec (account_id item) (merge_record item) acc_map.

Definition merge (all_suspicious : list suspicious_account)
  : list (account * suspicious_account) :=
  fold_left merge_step all_suspicious [].

(** [acc["detected_patterns"] = sorted(list(acc["detected_patterns"]))]. *)
Definition finish (rec : suspicious_account) : suspicious_account :=
  {| account_id := account_id rec;
     suspicion_score := suspicion_score rec;
     detected_patterns := sorted_str (detected_patterns rec);
     sa_ring_id := sa_ring_id rec |}.

(** [sort(key=lambda x: x["suspicion_score"], reverse=True)]: stable,
    greatest score first. *)
Fixpoint insert_desc (x : suspicious_account) (l : list suspicious_account)
  : list suspicious_account :=
  match l with
  | [] => [x]
  | y :: t =>
      if Qltb (suspicion_score x) (suspicion_score y)
      then y :: insert_desc x t else x :: l
  end.

Definition sort_desc (l : list suspicious_account) : list suspicious_account :=
  fold_right insert_desc [] l.

(** The part of [analyze] between the three runs and the response. *)
Definition aggregate (circular_results smurfing_results shell_results : result)
  : result :=
  let all_suspicious :=
    suspicious_accounts circular_results
    ++ suspicious_accounts smurfing_results
    ++ suspicious_accounts shell_results in
  let acc_map := merge all_suspicious in
  {| suspicious_accounts := sort_desc (map (fun kv => finish (snd kv)) acc_map);
     fraud_rings :=
       fraud_rings circular_results
       ++ fraud_rings smurfing_results
       ++ fraud_rings shell_results |}.

Section Analyze.
Context {py : PyLib} {nx : GraphLib}.

(** [analyze] from the list of records on; an exception of a
    detector ends the request with an error response. *)
Definition analyze (transactions : list transaction) : outcome result :=
  circular_results <- Circular.run transactions ;;
  smurfing_results <- Smurfing.run transactions ;;
  let shell_results := Shell.run transactions in
  Ok (aggregate circular_results smurfing_results shell_results).
End Analyze.

End Server.

(* ------------------------------------------------------------------ *)
(** ** Reference instances of the libraries

    Executable stand-ins for the library calls, used to run the
    detectors on concrete batches.  The properties below are proved for
    every instance; these ones show them at work. *)

Module Ref.

Definition digit_val (c : ascii) : option Z :=
  let n := nat_of_ascii c in
  if ((48 <=? n) && (n <=? 57))%nat then Some (Z.of_nat (n - 48)) else None.

(** The longest prefix of digits: its value, its length, the rest. *)
Fixpoint read_digits (s : string) (acc : Z) (n : nat) : Z * nat * string :=
  match s with
  | String c t =>
      match digit_val c with
      | Some d => read_digits t (10 * acc + d) (S n)
      | None => (acc, n, s)
      end
  | EmptyString => (acc, n, s)
  end.

(** Decimal literals [[+-]digits[.digits]]. *)
Definition float_of_str (s : string) : option Q :=
  let s := strip s in
  let '(neg, s) :=
    match s with
    | String "-" t => (true, t)
    | String "+" t => (false, t)
    | _ => (false, s)
    end in
  let '(ip, n1, rest) := read_digits s 0 0 in
  let '(fp, n2, rest) :=
    match rest with
    | String "." t => read_digits t 0 0
    | _ => (0%Z, 0%nat, rest)
    end in
  match rest with
  | EmptyString =>
      if ((n1 + n2) =? 0)%nat then None
      else
        let v := inject_Z ip + inject_Z fp / inject_Z (10 ^ Z.of_nat n2) in
        Some (if neg then - v else v)
  | _ => None
  end.

(** Exactly [w] digits. *)
Fixpoint read_fixed (w : nat) (s : string) (acc : Z) : option (Z * string) :=
  match w with
  | O => Some (acc, s)
  | S k =>
      match s with
      | String c t =>
          match digit_val c with
          | Some d => read_fixed k t (10 * acc + d)
          | None => None
          end
      | EmptyString => None
      end
  end.

Record fields : Type := {
  f_year : Z; f_month : Z; f_day : Z; f_hour : Z; f_minute : Z; f_second : Z
}.

Definition set_field (c : ascii) (v : Z) (f : fields) : fields :=
  if Ascii.eqb c "Y" then
    {| f_year := v; f_month := f_month f; f_day := f_day f;
       f_hour := f_hour f; f_minute := f_minute f; f_second := f_second f |}
  else if Ascii.eqb c "m" then
    {| f_year := f_year f; f_month := v; f_day := f_day f;
       f_hour := f_hour f; f_minute := f_minute f; f_second := f_second f |}
  else if Ascii.eqb c "d" then
    {| f_year := f_year f; f_month := f_month f; f_day := v;
       f_hour := f_hour f; f_minute := f_minute f; f_second := f_second f |}
  else if Ascii.eqb c "H" then
    {| f_year := f_year f; f_month := f_month f; f_day := f_day f;
       f_hour := v; f_minute := f_minute f; f_second := f_second f |}
  else if Ascii.eqb c "M" then
    {| f_year := f_year f; f_month := f_month f; f_day := f_day f;
       f_hour := f_hour f; f_minute := v; f_second := f_second f |}
  else
    {| f_year := f_year f; f_month := f_month f; f_day := f_day f;
       f_hour := f_hour f; f_minute := f_minute f; f_second := v |}.

(** The text against the format: a directive reads zero-padded digits
    (four for [%Y], two for the others), any other character reads
    itself. *)
Fixpoint match_format (fmt text : string) (f : fields) : option fields :=
  match fmt with
  | EmptyString =>
      match text with EmptyString => Some f | _ => None end
  | String "%" (String c fmt') =>
      match read_fixed (if Ascii.eqb c "Y" then 4 else 2) text 0 with
      | Some (v, text') => match_format fmt' text' (set_field c v f)
      | None => None
      end
  | String c fmt' =>
      match text with
      | String c' text' =>
          if Ascii.eqb c c' then match_format fmt' text' f else None
      | EmptyString => None
      end
  end.

Definition is_leap (y : Z) : bool :=
  ((y mod 4 =? 0) && negb (y mod 100 =? 0) || (y mod 400 =? 0))%Z.

Definition days_in_month (y m : Z) : Z :=
  if (m =? 2)%Z then (if is_leap y then 29 else 28)%Z
  else if ((m =? 4) || (m =? 6) || (m =? 9) || (m =? 11))%Z then 30%Z
  else 31%Z.

(** Days from 1970-01-01 to the given civil date. *)
Definition days_from_civil (y m d : Z) : Z :=
  let y' := (if m <=? 2 then y - 1 else y)%Z in
  let era := (y' / 400)%Z in
  let yoe := (y' - era * 400)%Z in
  let mp := ((m + 9) mod 12)%Z in
  let doy := ((153 * mp + 2) / 5 + d - 1)%Z in
  let doe := (yoe * 365 + yoe / 4 - yoe / 100 + doy)%Z in
  (era * 146097 + doe - 719468)%Z.

Definition strptime (text fmt : string) : option datetime :=
  match match_format fmt text
          {| f_year := 1900; f_month := 1; f_day := 1;
             f_hour := 0; f_minute := 0; f_second := 0 |} with
  | None => None
  | Some f =>
      if ((1 <=? f_month f) && (f_month f <=? 12)
          && (1 <=? f_day f) && (f_day f <=? days_in_month (f_year f) (f_month f))
          && (f_hour f <? 24) && (f_minute f <? 60) && (f_second f <? 62))%Z
      then Some (days_from_civil (f_year f) (f_month f) (f_day f) * 86400
                 + f_hour f * 3600 + f_minute f * 60 + f_second f)%Z
      else None
  end.

(** The sample standard deviation, the square root cut at six
    decimals. *)
Definition stdev (l : list Q) : Q :=
  let n := inject_Z (Z.of_nat (List.length l)) in
  let mean := Circular.sumQ l / n in
  let var := Circular.sumQ (map (fun x => (x - mean) * (x - mean)) l) / (n - 1) in
  inject_Z (Z.sqrt (Qfloor (var * 1000000000000))) / 1000000.

Definition py : PyLib := Build_PyLib float_of_str strptime stdev 0%Z.

Section RefGraph.
Context {A : Type}.

(** The successors of [u] that are nodes of the graph. *)
Definition successors (g : DiGraph A) (u : account) : list account :=
  filter (fun v => mem v (nodes g)) (map (fun e => snd (fst e)) (out_edges g u)).

(** [u] and [v] are joined by an edge, in one direction or the other. *)
Definition adjacent (g : DiGraph A) (u v : account) : bool :=
  has_edge g u v || has_edge g v u.

(** The nodes reached from [comp] in at most [fuel] steps along [step]. *)
Fixpoint grow (step : account -> account -> bool) (g : DiGraph A)
  (fuel : nat) (comp : list account) : list account :=
  match fuel with
  | O => comp
  | S f =>
      grow step g f
        (comp ++ filter (fun n => negb (mem n comp)
                                  && existsb (fun c => step c n) comp)
                        (nodes g))
  end.

Definition reach (g : DiGraph A) (u : account) : list account :=
  grow (has_edge g) g (number_of_nodes g) [u].

Fixpoint components (comp_of : account -> list account)
  (todo seen : list account) : list (list account) :=
  match todo with
  | [] => []
  | n :: rest =>
      if mem n seen then components comp_of rest seen
      else let c := comp_of n in c :: components comp_of rest (c ++ seen)
  end.

Definition weakly_connected_components (g : DiGraph A) : list (list account) :=
  components (fun n => grow (adjacent g) g (number_of_nodes g) [n])
             (nodes g) [].

Definition strongly_connected_components (g : DiGraph A)
  : list (list account) :=
  components
    (fun n => filter (fun v => mem v (reach g n) && mem n (reach g v))
                     (nodes g))
    (nodes g) [].

(** The simple paths from the end [u] of [path_rev] (the path so far,
    reversed) to a target, in depth-first order. *)
Fixpoint paths_from (g : DiGraph A) (targets : list account) (fuel : nat)
  (path_rev : list account) (u : account) : list (list account) :=
  (if mem u targets then [rev path_rev] else [])
  ++ match fuel with
     | O => []
     | S f =>
         flat_map
           (fun v =>
              if mem v path_rev then []
              else paths_from g targets f (v :: path_rev) v)
           (successors g u)
     end.

Definition all_simple_paths (g : DiGraph A) (source : account)
  (target : list account) : list (list account) :=
  if mem source (nodes g)
  then paths_from g target (number_of_nodes g) [source] source
  else [].

(** The simple cycles through [s] whose other nodes are in [allowed],
    of at most [fuel] more nodes than [path_rev] holds. *)
Fixpoint cycles_from (g : DiGraph A) (allowed : list account) (s : account)
  (fuel : nat) (path_rev : list account) (u : account)
  : list (list account) :=
  match fuel with
  | O => []
  | S f =>
      flat_map
        (fun v =>
           if mem v [s] then [rev path_rev]
           else if mem v allowed && negb (mem v path_rev)
                then cycles_from g allowed s f (v :: path_rev) v
                else [])
        (successors g u)
  end.

(** Every simple cycle of at most [length_bound] nodes, once: it is
    found from the first of its nodes in the order of the graph. *)
Fixpoint cycles_over (g : DiGraph A) (length_bound : nat)
  (todo : list account) : list (list account) :=
  match todo with
  | [] => []
  | s :: rest =>
      cycles_from g rest s length_bound [s] s
      ++ cycles_over g length_bound rest
  end.

Definition simple_cycles (g : DiGraph A) (length_bound : nat)
  : list (list account) :=
  cycles_over g length_bound (nodes g).
End RefGraph.

Definition nx : GraphLib :=
  Build_GraphLib (@strongly_connected_components)
                 (@simple_cycles)
                 (@weakly_connected_components)
                 (@all_simple_paths).

End Ref.

(* ------------------------------------------------------------------ *)
(** ** Notions used to state the properties *)

(** Two cycles are the same ring: they have the same canonical form. *)
Definition same_ring (c c' : list account) : bool :=
  match normalize_cycle c, normalize_cycle c' with
  | Some n, Some n' => if cycle_eq_dec n n' then true else false
  | _, _ => false
  end.

(** The number of cycles of a list that are the ring of [c]. *)
Definition ring_count (cycles : list (list account)) (c : list account) : nat :=
  List.length (filter (same_ring c) cycles).

(** The length test of [detect_cycles]. *)
Definition in_bounds (c : list account) : bool :=
  ((Circular.MIN_CYCLE_LEN <=? List.length c)
   && (List.length c <=? Circular.MAX_CYCLE_LEN))%nat.

(** The cycles that networkx hands to [detect_cycles], in the order of
    the two nested loops. *)
Definition raw_cycles {nx : GraphLib} (G : DiGraph Circular.edge_data)
  : list (list account) :=
  flat_map
    (fun scc =>
       if (List.length scc <? Circular.MIN_CYCLE_LEN)%nat then []
       else simple_cycles (subgraph G scc) Circular.MAX_CYCLE_LEN)
    (strongly_connected_components G).

(** The elements of [l] that are not in [seen], each once, in the order
    of their first occurrence. *)
Fixpoint first_discovery (seen l : list (list account)) : list (list account) :=
  match l with
  | [] => []
  | x :: t =>
      if in_dec cycle_eq_dec x seen then first_discovery seen t
      else x :: first_discovery (x :: seen) t
  end.

(* ------------------------------------------------------------------ *)
(** ** Batches *)

Module Batch.

(** A record with all four fields set and a numeric amount. *)
Definition txn (s r : string) (a : Z) (t : string) : transaction :=
  {| sender_id := Some s; receiver_id := Some r;
     amount := AmountNum (inject_Z a); timestamp := Some t |}.

(** A -> B -> C -> A, as in verify_backend.py. *)
Definition cycle : list transaction :=
  [txn "A" "B" 100 "2023-01-01 10:00:00";
   txn "B" "C" 100 "2023-01-01 11:00:00";
   txn "C" "A" 100 "2023-01-01 12:00:00"].

(** [n] senders [User_0] ... to one receiver at the same instant, as in
    verify_backend.py. *)
Definition fan_in (n : nat) (receiver : string) : list transaction :=
  map (fun i => txn ("User_" ++ Circular.str_of_nat i)%string receiver 10
                    "2023-01-01 10:00:00")
      (seq 0 n).

(** Source -> Shell1 -> Shell2 -> Shell3 -> Dest, as in
    verify_backend.py: the records have no timestamp. *)
Definition chain : list transaction :=
  map (fun sr => {| sender_id := Some (fst sr); receiver_id := Some (snd sr);
                    amount := AmountNum 100; timestamp := None |})
      [("Source", "Shell1"); ("Shell1", "Shell2");
       ("Shell2", "Shell3"); ("Shell3", "Dest")].

(** [n] senders to one receiver, the timestamps being no dates. *)
Definition untimed_fan_in (n : nat) (receiver : string) : list transaction :=
  map (fun i => txn ("User_" ++ Circular.str_of_nat i)%string receiver 10
                    "yesterday")
      (seq 0 n).

(** A record from an account to itself. *)
Definition self_txn (a : string) : transaction :=
  txn a a 50 "2023-01-01 10:00:00".

(** Nine senders to one receiver, and a transfer of the receiver to
    itself, all at the same instant. *)
Definition nine_and_self (receiver : string) : list transaction :=
  fan_in 9 receiver ++ [self_txn receiver].

(** A -> A, A -> B, B -> B. *)
Definition self_loops : list transaction :=
  [self_txn "A"; txn "A" "B" 50 "2023-01-01 10:00:00"; self_txn "B"].

(** A record whose amount is text that is no number. *)
Definition bad_amount : transaction :=
  {| sender_id := Some "A"; receiver_id := Some "B";
     amount := AmountStr "abc"; timestamp := Some "2023-01-01 10:00:00" |}.

(** An account that two engines report, with scores 70 and 85. *)
Definition flagged_70 : result :=
  {| suspicious_accounts :=
       [{| account_id := "X"; suspicion_score := 70;
           detected_patterns := ["shell_account"; "cycle_length_3"];
           sa_ring_id := "RING_001" |}];
     fraud_rings := [] |}.

Definition flagged_85 : result :=
  {| suspicious_accounts :=
       [{| account_id := "X"; suspicion_score := 85;
           detected_patterns := ["fan_in"; "cycle_length_3"];
           sa_ring_id := "SMURF_IN_X" |}];
     fraud_rings := [] |}.

Definition nothing : result :=
  {| suspicious_accounts := []; fraud_rings := [] |}.

End Batch.

(** A score of the report is in range. *)
Definition score_in_range (q : Q) : Prop := 0 <= q <= 100.

Definition scores_ok (res : result) : Prop :=
  Forall (fun a => score_in_range (suspicion_score a)) (suspicious_accounts res)
  /\ Forall (fun r => score_in_range (risk_score r)) (fraud_rings res).

(** The entries are in the order of their instants. *)
Definition sorted_by_ts (txns : list Smurfing.entry) : Prop :=
  forall j k ej ek,
    (j <= k)%nat -> nth_error txns j = Some ej -> nth_error txns k = Some ek ->
    (Smurfing.ts ej <= Smurfing.ts ek)%Z.

(** The entries at the positions up to [i] that are at most 72 hours
    older than the entry at position [i]. *)
Definition within_window (txns : list Smurfing.entry) (i : nat)
  : list Smurfing.entry :=
  filter
    (fun e => (Smurfing.ts_at txns i - Smurfing.ts e
               <=? Smurfing.TIME_WINDOW_HOURS * 3600)%Z)
    (firstn (S i) txns).

(** The distinct parties of that window. *)
Definition parties_within (txns : list Smurfing.entry) (i : nat) : list account :=
  distinct (map Smurfing.party (within_window txns i)).

(** The first of the [todo] positions from [i] on that passes [p]. *)
Fixpoint first_from (p : nat -> bool) (todo i : nat) : option nat :=
  match todo with
  | O => None
  | S k => if p i then Some i else first_from p k (S i)
  end.

(** The first position whose window holds at least [threshold] distinct
    parties. *)
Definition first_reaching (threshold : nat) (txns : list Smurfing.entry)
  : option nat :=
  first_from (fun i => (threshold <=? List.length (parties_within txns i))%nat)
             (List.length txns) 0.

(** The rings with a given id, and the account records that point to it. *)
Definition rings_with_id (rid : string) (res : result) : list fraud_ring :=
  filter (fun r => String.eqb (ring_id r) rid) (fraud_rings res).

Definition records_with_ring (rid : string) (res : result)
  : list suspicious_account :=
  filter (fun a => String.eqb (sa_ring_id a) rid) (suspicious_accounts res).

(** The ring and the account record of a flagged fan-in account, and of
    a flagged fan-out account. *)
Definition fan_in_ring (acc : account) (senders : list account) (t : datetime)
  : fraud_ring :=
  {| ring_id := ("SMURF_IN_" ++ acc)%string;
     member_accounts := senders ++ [acc];
     pattern_type := "fan_in";
     risk_score := 85;
     detected_at := Some t |}.

Definition fan_in_record (acc : account) : suspicious_account :=
  {| account_id := acc;
     suspicion_score := 80;
     detected_patterns := ["fan_in"];
     sa_ring_id := ("SMURF_IN_" ++ acc)%string |}.

Definition fan_out_ring (acc : account) (receivers : list account) (t : datetime)
  : fraud_ring :=
  {| ring_id := ("SMURF_OUT_" ++ acc)%string;
     member_accounts := [acc] ++ receivers;
     pattern_type := "fan_out";
     risk_score := 85;
     detected_at := Some t |}.

Definition fan_out_record (acc : account) : suspicious_account :=
  {| account_id := acc;
     suspicion_score := 80;
     detected_patterns := ["fan_out"];
     sa_ring_id := ("SMURF_OUT_" ++ acc)%string |}.

(** What one account of a grouping adds to the output. *)
Definition fan_in_rings_of (item : account * list Smurfing.entry)
  : list fraud_ring :=
  match Smurfing.detect Smurfing.FAN_IN_THRESHOLD (snd item) with
  | Some (senders, t) => [fan_in_ring (fst item) senders t]
  | None => []
  end.

Definition fan_in_records_of (item : account * list Smurfing.entry)
  : list suspicious_account :=
  match Smurfing.detect Smurfing.FAN_IN_THRESHOLD (snd item) with
  | Some _ => [fan_in_record (fst item)]
  | None => []
  end.

Definition fan_out_rings_of (item : account * list Smurfing.entry)
  : list fraud_ring :=
  match Smurfing.detect Smurfing.FAN_OUT_THRESHOLD (snd item) with
  | Some (receivers, t) => [fan_out_ring (fst item) receivers t]
  | None => []
  end.

Definition fan_out_records_of (item : account * list Smurfing.entry)
  : list suspicious_account :=
  match Smurfing.detect Smurfing.FAN_OUT_THRESHOLD (snd item) with
  | Some _ => [fan_out_record (fst item)]
  | None => []
  end.

(** The timestamp of the record parses. *)
Definition has_ts {py : PyLib} (txn : transaction) : bool :=
  match parse_ts (timestamp txn) with
  | Some _ => true
  | None => false
  end.

(** Some record of the batch with a timestamp that parses names [a] as
    its sender or as its receiver. *)
Definition timed_party {py : PyLib} (txns : list transaction) (a : account)
  : Prop :=
  exists txn,
    In txn txns /\ has_ts txn = true /\
    (sender_id txn = Some a \/ receiver_id txn = Some a).

(** The items of a list that are about account [a]. *)
Definition items_of (a : account) (items : list suspicious_account)
  : list suspicious_account :=
  filter (fun it => String.eqb (account_id it) a) items.

(** The record of an account after the items [its], from the record [o]
    it had before. *)
Definition merged_record (o : option suspicious_account)
  (its : list suspicious_account) : option suspicious_account :=
  fold_left (fun o it => Some (Server.merge_record it o)) its o.

(** Greatest score first. *)
Definition score_ge (x y : suspicious_account) : Prop :=
  suspicion_score y <= suspicion_score x.

(** What a record adds to the transaction count (in + out) of account
    [a]: a record from [a] to [a] counts twice. *)
Definition txn_weight (a : account) (txn : transaction) : nat :=
  if truthy (sender_id txn) && truthy (receiver_id txn) then
    ((if String.eqb (id_of (sender_id txn)) a then 1 else 0)
     + (if String.eqb (id_of (receiver_id txn)) a then 1 else 0))%nat
  else 0%nat.

(** The total transaction count of an account over the batch. *)
Definition txn_count (txns : list transaction) (a : account) : nat :=
  list_sum (map (txn_weight a) txns).

(** The count stored for an account, 0 when there is none. *)
Definition count_of (counts : Shell.counts_t) (a : account) : nat :=
  match alist_get account_eq_dec a counts with
  | Some c => c
  | None => 0%nat
  end.

(** The account records of a result that are about account [a]. *)
Definition records_of (a : account) (res : result) : list suspicious_account :=
  items_of a (suspicious_accounts res).

(** A ring as the shell detector builds it, over the set of shell
    candidates. *)
Definition shell_ring_ok (shells : list account) (r : fraud_ring) : Prop :=
  pattern_type r = "shell_network" /\
  risk_score r = 75 /\
  detected_at r = None /\
  (2 <= List.length (member_accounts r))%nat /\
  incl (member_accounts r) shells.

Definition shell_record_ok (a : suspicious_account) : Prop :=
  suspicion_score a = 75 /\ detected_patterns a = ["shell_account"].

(** The invariant of the loop over the components. *)
Definition shell_state_ok (shells : list account)
  (st : list suspicious_account * list fraud_ring * list account) : Prop :=
  Forall (shell_ring_ok shells) (snd (fst st)) /\
  Forall shell_record_ok (fst (fst st)) /\
  map account_id (fst (fst st)) = rev (snd st) /\
  NoDup (snd st) /\
  forall r, In r (snd (fst st)) -> incl (member_accounts r) (snd st).

(** [m] is a least element of [l]. *)
Definition is_min (m : account) (l : list account) : Prop :=
  In m l /\ forall x, In x l -> acc_le m x.

(** The number of occurrences recorded under a canonical form. *)
Definition occ_len (occ : Circular.occurrences_t) (norm : list account) : nat :=
  List.length (match alist_get cycle_eq_dec norm occ with
               | Some l => l
               | None => []
               end).

(** The canonical form of [c'] is [norm]. *)
Definition has_norm (norm c' : list account) : bool :=
  match normalize_cycle c' with
  | Some n' => if cycle_eq_dec norm n' then true else false
  | None => false
  end.

(** The score of an account record, of a ring and of an entry of
    [account_data] is in range. *)
Definition sa_ok (a : suspicious_account) : Prop :=
  score_in_range (suspicion_score a).
Definition ring_ok (r : fraud_ring) : Prop := score_in_range (risk_score r).
Definition entry_ok (e : Circular.entry) : Prop :=
  score_in_range (Circular.score e).

(** The order of the instants of two entries. *)
Definition ts_le (a b : Smurfing.entry) : Prop :=
  (Smurfing.ts a <= Smurfing.ts b)%Z.

(** Every key and every party of a grouping comes from a record of the
    batch whose timestamp parses. *)
Definition group_ok {py : PyLib} (txns : list transaction) (m : Smurfing.fan_t)
  : Prop :=
  forall k l, In (k, l) m ->
    timed_party txns k /\ Forall (fun e => timed_party txns (Smurfing.party e)) l.

(* ------------------------------------------------------------------ *)
(** ** Notions used to state the further properties *)

(** The record passes the test of [build_graph]: both ids are set and
    they differ. *)
Definition valid_txn (txn : transaction) : bool :=
  truthy (sender_id txn) && truthy (receiver_id txn)
  && negb (String.eqb (id_of (sender_id txn)) (id_of (receiver_id txn))).

(** The valid records of the batch from [u] to [v], in order. *)
Definition records_between (u v : account) (txns : list transaction)
  : list transaction :=
  filter (fun txn => valid_txn txn
                     && String.eqb (id_of (sender_id txn)) u
                     && String.eqb (id_of (receiver_id txn)) v) txns.

(** The entry of [edge_meta] that a record leaves. *)
Definition meta_of {py : PyLib} (txn : transaction) : Circular.meta :=
  {| Circular.meta_amount := safe_float (amount txn);
     Circular.meta_timestamp := parse_ts (timestamp txn) |}.

(** The aggregate edge and the metadata of the pair [(u, v)] are those
    of the records [rs]. *)
Definition edge_matches {py : PyLib} (st : Circular.state) (u v : account)
  (rs : list transaction) : Prop :=
  match rs with
  | [] =>
      get_edge (Circular.graph st) u v = None /\
      alist_get pair_eq_dec (u, v) (Circular.edge_meta st) = None
  | _ =>
      alist_get pair_eq_dec (u, v) (Circular.edge_meta st)
      = Some (map meta_of rs) /\
      exists d,
        get_edge (Circular.graph st) u v = Some d /\
        Circular.weight d = Z.of_nat (List.length rs) /\
        Circular.total_amount d
        == Circular.sumQ (map (fun txn => safe_float (amount txn)) rs)
  end.

(** The degree above which [prune] removes a node, and the nodes it
    removes as hubs. *)
Definition hub_threshold (g : DiGraph Circular.edge_data) : nat :=
  Nat.max Circular.HUB_DEGREE_LIMIT (number_of_nodes g / 10).

Definition hubs_of (g : DiGraph Circular.edge_data) : list account :=
  filter (fun n => (hub_threshold g <? degree g n)%nat) (nodes g).

(** A ring of the shell detector is named after its first member, which
    has an incoming edge in the full graph, and its last member has an
    outgoing edge. *)
Definition ring_ends (graph : DiGraph unit) (r : fraud_ring) : Prop :=
  ring_id r = ("SHELL_" ++ hd "" (member_accounts r))%string /\
  (0 < in_degree graph (hd "" (member_accounts r)))%nat /\
  (0 < out_degree graph (last (member_accounts r) ""))%nat.

(** How the account records, the rings and [detected_shells] of the
    shell detector hang together. *)
Definition shell_links_ok (graph : DiGraph unit)
  (st : list suspicious_account * list fraud_ring * list account) : Prop :=
  Forall shell_record_ok (fst (fst st)) /\
  map account_id (fst (fst st)) = rev (snd st) /\
  NoDup (snd st) /\
  (forall r, In r (snd (fst st)) -> incl (member_accounts r) (snd st)) /\
  (forall rec, In rec (fst (fst st)) ->
     exists r, In r (snd (fst st)) /\ ring_id r = sa_ring_id rec /\
               In (account_id rec) (member_accounts r)) /\
  Forall (ring_ends graph) (snd (fst st)).

Definition no_result : result :=
  {| suspicious_accounts := []; fraud_rings := [] |}.

(** Every entry of a fan-in grouping comes from a record of the batch to
    the account of the group, and every entry of a fan-out grouping from
    a record of that account. *)
Definition fan_in_from {py : PyLib} (txns : list transaction)
  (fi : Smurfing.fan_t) : Prop :=
  forall acc l e, In (acc, l) fi -> In e l ->
    exists txn,
      In txn txns /\ sender_id txn = Some (Smurfing.party e) /\
      receiver_id txn = Some acc /\
      parse_ts (timestamp txn) = Some (Smurfing.ts e).

Definition fan_out_from {py : PyLib} (txns : list transaction)
  (fo : Smurfing.fan_t) : Prop :=
  forall acc l e, In (acc, l) fo -> In e l ->
    exists txn,
      In txn txns /\ sender_id txn = Some acc /\
      receiver_id txn = Some (Smurfing.party e) /\
      parse_ts (timestamp txn) = Some (Smurfing.ts e).

(** The entry that [Circular.run] files under every member of a ring. *)
Definition entry_of (r : fraud_ring) : Circular.entry :=
  {| Circular.score := risk_score r;
     Circular.entry_ring_id := ring_id r;
     Circular.cycle_length := List.length (member_accounts r) |}.

(** The entries that the rings file under the account [a], in order: one
    for each place of [a] among the members of a ring. *)
Definition entries_of (a : account) (rings : list fraud_ring)
  : list Circular.entry :=
  flat_map
    (fun r => map (fun _ => entry_of r)
                  (filter (String.eqb a) (member_accounts r)))
    rings.

(** [account_data.get(a, [])]. *)
Definition lookup_entries (a : account) (ad : Circular.account_data_t)
  : list Circular.entry :=
  match alist_get account_eq_dec a ad with
  | Some es => es
  | None => []
  end.

(** A ring as the scoring loop of [Circular.run] fills it from its
    members. *)
Definition ring_scored {py : PyLib} (st : Circular.state)
  (occ : Circular.occurrences_t) (r : fraud_ring) : Prop :=
  pattern_type r = "cycle" /\
  Circular.compute (Circular.graph st) (Circular.edge_meta st)
    (member_accounts r) occ = Ok (risk_score r) /\
  Circular.get_cycle_completion_time st (member_accounts r)
  = Ok (detected_at r).

(** Reading a decimal numeral from the left, as [int] does. *)
Definition digit_value (c : ascii) : nat := nat_of_ascii c - 48.

Fixpoint read_nat (v : nat) (s : string) : nat :=
  match s with
  | EmptyString => v
  | String c t => read_nat (10 * v + digit_value c) t
  end.

(** The greatest score that a ring can get in a run: the frequency part
    is a third there. *)
Definition RUN_SCORE_CAP : Q := 8667 # 100.

(** An entry of positive score. *)
Definition positive (e : Circular.entry) : bool :=
  Qltb Circular.HIGH_RISK_THRESHOLD (Circular.score e).

(** The first of the rings that the account [a] is a member of. *)
Definition first_ring_of (a : account) (rings : list fraud_ring)
  : option fraud_ring :=
  find (fun r => mem a (member_accounts r)) rings.

(** The record that [Circular.run] makes of the entries of an account. *)
Definition flagged_as (s : suspicious_account)
  (entries : list Circular.entry) : Prop :=
  exists e0 rest,
    entries = e0 :: rest /\
    suspicion_score s
    = round2 (Circular.max_score_of (Circular.score e0)
                (map Circular.score rest)) /\
    sa_ring_id s = Circular.entry_ring_id e0 /\
    detected_patterns s
    = sorted_str (distinct (Circular.patterns_of entries)).

(** The pairs of neighbours of a list, in order. *)
Fixpoint steps (l : list account) : list (account * account) :=
  match l with
  | [] => []
  | x :: t =>
      match t with
      | [] => []
      | y :: _ => (x, y) :: steps t
      end
  end.

(** The edges that a cycle runs along, the closing one last:
    [zip(cycle, cycle[1:] + [cycle[0]])]. *)
Definition cycle_pairs (c : list account) : list (account * account) :=
  match c with
  | [] => []
  | x :: t => combine c (t ++ [x])
  end.

(** The cycle [c] runs along edges of the graph [g]. *)
Definition follows_edges {A : Type} (g : DiGraph A) (c : list account)
  : Prop :=
  forall u v, In (u, v) (cycle_pairs c) -> has_edge g u v = true.

(** What the detector relies on from [networkx.simple_cycles]: a cycle
    that it yields runs along edges of the graph it was given. *)
Definition cycles_follow_edges (nx : GraphLib) : Prop :=
  forall (G : DiGraph Circular.edge_data) (k : nat) (c : list account),
    In c (simple_cycles G k) -> follows_edges G c.

(** [float] accepts the amount of the record. *)
Definition amount_parses {py : PyLib} (txn : transaction) : Prop :=
  exists q, py_float (amount txn) = Ok q.

(** The grouping [m] holds, under [key], an entry of the party [p] at
    the instant [t]. *)
Definition has_entry (m : Smurfing.fan_t) (key p : account) (t : datetime)
  : Prop :=
  exists l e,
    alist_get account_eq_dec key m = Some l /\ In e l /\
    Smurfing.party e = p /\ Smurfing.ts e = t.

(** The batch holds a record from [s] to [r], both ids set, whose
    timestamp parses to [t]. *)
Definition dated_record {py : PyLib} (txns : list transaction)
  (s r : account) (t : datetime) : Prop :=
  exists txn,
    In txn txns /\ sender_id txn = Some s /\ receiver_id txn = Some r /\
    s <> ""%string /\ r <> ""%string /\ parse_ts (timestamp txn) = Some t.

(** The instant [t'] lies in the 72 hours that start at [t]. *)
Definition in_span (t t' : datetime) : Prop :=
  (t <= t' <= t + Smurfing.TIME_WINDOW_HOURS * 3600)%Z.

Definition in_spanb (t : datetime) (e : Smurfing.entry) : bool :=
  ((t <=? Smurfing.ts e)
   && (Smurfing.ts e <=? t + Smurfing.TIME_WINDOW_HOURS * 3600))%Z.

(** The path [p] runs along edges of the graph [g]. *)
Definition path_follows_edges {A : Type} (g : DiGraph A) (p : list account)
  : Prop :=
  forall u v, In (u, v) (steps p) -> has_edge g u v = true.

(** What the shell detector relies on from [networkx.all_simple_paths]:
    a path that it yields runs along edges of the graph it was given. *)
Definition paths_follow_edges (nx : GraphLib) : Prop :=
  forall (G : DiGraph unit) (s : account) (ts p : list account),
    In p (all_simple_paths G s ts) -> path_follows_edges G p.

(* ------------------------------------------------------------------ *)
(** ** smurfing_detector.py on records with fields of any type *)

(** [analyze] hands the detectors the rows of the file as the CSV reader
    leaves them: the value under ["timestamp"] need not be a string (an
    empty cell is the float NaN) and the value under ["amount"] need not
    be finite.  The grouping loop of [SmurfingDetector.run] on such
    records. *)
Module Wire.

(** The value under ["timestamp"]. *)
Inductive timestamp_field : Type :=
| TsText (ts : option string)   (* a string, [None], or no key *)
| TsOther (truth : bool).       (* a value of a type without [strip], as
                                   a number; [truth] is [bool(ts)], true
                                   for the float NaN *)

(** The value under ["amount"]. *)
Inductive amount_cell : Type :=
| AmPlain (a : amount_field)    (* no key, [None], a finite number, or
                                   text that [float] reads as a finite
                                   number or rejects *)
| AmNonFinite                   (* the float nan or inf, or text that
                                   [float] reads as one of them *)
| AmHuge.                       (* an int beyond the range of [float] *)

(** What [float] returns. *)
Inductive reading : Type :=
| Finite (q : Q)
| NonFinite.

Record record : Type := {
  sender_id : option string;
  receiver_id : option string;
  amount : amount_cell;
  timestamp : timestamp_field
}.

(** An entry of [fan_in] or [fan_out]. *)
Record entry : Type := {
  party : account;
  ts : datetime;
  read_amount : reading
}.

Definition fan_t := list (account * list entry).

Section Detector.
Context {py : PyLib}.

(** [parse_ts]:
<<
  if not ts: return None
  for fmt in (...):
      try: return datetime.strptime(ts.strip(), fmt)
      except ValueError: continue
  return None
>>
    A value that is true and has no [strip] raises [AttributeError]. *)
Definition parse_ts (ts : timestamp_field) : outcome (option datetime) :=
  match ts with
  | TsText o => Ok (parse_ts o)
  | TsOther false => Ok None
  | TsOther true => Raise AttributeError
  end.

(** [float(txn.get("amount", 0))]. *)
Definition float_of (x : amount_cell) : outcome reading :=
  match x with
  | AmPlain a => q <- py_float a ;; Ok (Finite q)
  | AmNonFinite => Ok NonFinite
  | AmHuge => Raise OverflowError
  end.

(** The body of the grouping loop: the timestamp is parsed before the
    amount is read. *)
Definition group_step (st : fan_t * fan_t) (txn : record)
  : outcome (fan_t * fan_t) :=
  let s := sender_id txn in
  let r := receiver_id txn in
  ts <- parse_ts (timestamp txn) ;;
  amount <- float_of (amount txn) ;;
  match ts with
  | Some t =>
      if truthy s && truthy r then
        Ok (alist_append account_eq_dec (id_of r)
              {| party := id_of s; ts := t; read_amount := amount |} (fst st),
            alist_append account_eq_dec (id_of s)
              {| party := id_of r; ts := t; read_amount := amount |} (snd st))
      else Ok st
  | None => Ok st
  end.

Definition group (transactions : list record) : outcome (fan_t * fan_t) :=
  for_each group_step transactions ([], []).

(** The two detection loops read the party and the instant of an entry,
    never its amount: they are those of [Smurfing], on the entries
    without regard to the amount. *)
Definition plain_entry (e : entry) : Smurfing.entry :=
  {| Smurfing.party := party e;
     Smurfing.ts := ts e;
     Smurfing.amount := match read_amount e with
                        | Finite q => q
                        | NonFinite => 0
                        end |}.

Definition plain_groups (g : fan_t) : Smurfing.fan_t :=
  map (fun kv => (fst kv, map plain_entry (snd kv))) g.

Definition run (transactions : list record) : outcome result :=
  g <- group transactions ;;
  let out :=
    fold_left Smurfing.fan_in_step (plain_groups (fst g)) ([], []) in
  let out := fold_left Smurfing.fan_out_step (plain_groups (snd g)) out in
  Ok {| suspicious_accounts := fst out; fraud_rings := snd out |}.
End Detector.

End Wire.

(** A record whose timestamp is a string or [None] and whose amount is
    finite or rejected, as a record with fields of any type. *)
Definition as_record (txn : transaction) : Wire.record :=
  {| Wire.sender_id := sender_id txn;
     Wire.receiver_id := receiver_id txn;
     Wire.amount := Wire.AmPlain (amount txn);
     Wire.timestamp := Wire.TsText (timestamp txn) |}.

(** The timestamp of the record does not stop [parse_ts] and [float]
    accepts its amount. *)
Definition readable {py : PyLib} (w : Wire.record) : Prop :=
  Wire.timestamp w <> Wire.TsOther true /\
  exists x, Wire.float_of (Wire.amount w) = Ok x.

(** A row whose timestamp cell is empty: the CSV reader leaves the float
    NaN there, a true value that is no string. *)
Definition untimed_row : Wire.record :=
  {| Wire.sender_id := Some "A";
     Wire.receiver_id := Some "B";
     Wire.amount := Wire.AmPlain (AmountNum 10);
     Wire.timestamp := Wire.TsOther true |}.

(* ================================================================== *)
(** * Properties *)

(** ** The order on account ids is a total order *)

Lemma acc_ltb_lt (a b : account) :
  acc_ltb a b = true <-> String_as_OT.lt a b.
Proof.
  unfold acc_ltb, String.ltb. rewrite <- String_as_OT.cmp_lt.
  unfold String_as_OT.cmp. destruct (String.compare a b); split; congruence.
Qed.

Lemma acc_ltb_irrefl (a : account) : acc_ltb a a = false.
Proof.
  destruct (acc_ltb a a) eqn:E; [|reflexivity].
  apply acc_ltb_lt in E. exfalso.
  exact (String_as_OT.lt_not_eq _ _ E Logic.eq_refl).
Qed.

Lemma acc_le_refl (a : account) : acc_le a a.
Proof. apply acc_ltb_irrefl. Qed.

Lemma acc_ltb_trans (a b c : account) :
  acc_ltb a b = true -> acc_ltb b c = true -> acc_ltb a c = true.
Proof.
  rewrite !acc_ltb_lt. apply String_as_OT.lt_trans.
Qed.

Lemma acc_ltb_asym (a b : account) :
  acc_ltb a b = true -> acc_ltb b a = false.
Proof.
  intros H. destruct (acc_ltb b a) eqn:E; [|reflexivity].
  pose proof (acc_ltb_trans _ _ _ H E) as K.
  rewrite acc_ltb_irrefl in K. discriminate.
Qed.

Lemma acc_ltb_total (a b : account) :
  acc_ltb a b = false -> acc_ltb b a = false -> a = b.
Proof.
  unfold acc_ltb, String.ltb. intros H1 H2.
  destruct (String.compare a b) eqn:E.
  - now apply String.compare_eq_iff.
  - discriminate.
  - rewrite String.compare_antisym, E in H2. discriminate.
Qed.

Lemma acc_le_antisym (a b : account) : acc_le a b -> acc_le b a -> a = b.
Proof. unfold acc_le. intros H1 H2. now apply acc_ltb_total. Qed.

Lemma acc_le_trans (a b c : account) : acc_le a b -> acc_le b c -> acc_le a c.
Proof.
  unfold acc_le. intros H1 H2.
  destruct (acc_ltb c a) eqn:E; [|reflexivity].
  destruct (acc_ltb b c) eqn:F.
  - rewrite (acc_ltb_trans _ _ _ F E) in H1. discriminate.
  - assert (b = c) by now apply acc_ltb_total. subst. congruence.
Qed.

Lemma acc_lt_le (a b : account) : acc_ltb a b = true -> acc_le a b.
Proof. apply acc_ltb_asym. Qed.

(** ** Facts on [min] and [index] *)

Lemma is_min_unique (m m' : account) (l : list account) :
  is_min m l -> is_min m' l -> m = m'.
Proof.
  intros [I1 L1] [I2 L2]. apply acc_le_antisym; auto.
Qed.

Lemma py_min_from_spec (l : list account) : forall best,
  is_min (py_min_from best l) (best :: l).
Proof.
  induction l as [|x t IH]; intros best; simpl.
  - split; [now left|]. intros y [<-|[]]. apply acc_le_refl.
  - destruct (IH (if acc_ltb x best then x else best)) as [I L].
    destruct (acc_ltb x best) eqn:E.
    + split.
      * destruct I as [<-|I]; [right; now left | right; now right].
      * intros y [<-|[<-|Hy]].
        -- eapply acc_le_trans; [apply L; now left|now apply acc_lt_le].
        -- apply L; now left.
        -- apply L; now right.
    + split.
      * destruct I as [<-|I]; [now left | right; now right].
      * intros y [<-|[<-|Hy]].
        -- apply L; now left.
        -- eapply acc_le_trans; [apply L; now left|exact E].
        -- apply L; now right.
Qed.

Lemma py_min_spec (l : list account) (m : account) :
  py_min l = Some m -> is_min m l.
Proof.
  destruct l as [|x t]; simpl; [discriminate|].
  intros [= <-]. apply py_min_from_spec.
Qed.

Lemma py_min_some (l : list account) :
  l <> [] -> exists m, py_min l = Some m.
Proof. destruct l; [congruence|]. simpl. eauto. Qed.

Lemma is_min_py_min (l : list account) (m : account) :
  is_min m l -> py_min l = Some m.
Proof.
  intros H. destruct (py_min_some l) as [m' E].
  - destruct H as [I _]. intros ->. destruct I.
  - rewrite E. f_equal. eapply is_min_unique; eauto. now apply py_min_spec.
Qed.

Lemma py_index_app (m : account) (a b : list account) :
  ~ In m a -> py_index m (a ++ m :: b) = Some (length a).
Proof.
  induction a as [|y a IH]; simpl; intros N.
  - destruct (account_eq_dec m m); congruence.
  - destruct (account_eq_dec y m) as [->|D]; [exfalso; auto|].
    rewrite IH; auto.
Qed.

Lemma py_index_split (m : account) (l : list account) (i : nat) :
  py_index m l = Some i ->
  exists a b, l = a ++ m :: b /\ length a = i /\ ~ In m a.
Proof.
  revert i. induction l as [|y t IH]; simpl; intros i; [discriminate|].
  destruct (account_eq_dec y m) as [->|D].
  - intros [= <-]. exists [], t. simpl. auto.
  - destruct (py_index m t) as [j|]; [|discriminate].
    intros [= <-]. destruct (IH j Logic.eq_refl) as (a & b & -> & L & N).
    exists (y :: a), b. simpl. repeat split; auto.
    intros [E|I]; auto.
Qed.

Lemma py_index_some (m : account) (l : list account) :
  In m l -> exists i, py_index m l = Some i.
Proof.
  induction l as [|y t IH]; simpl; [tauto|].
  intros H. destruct (account_eq_dec y m); [eauto|].
  destruct H as [H|H]; [congruence|].
  destruct (IH H) as [i ->]. eauto.
Qed.

Lemma skipn_firstn_app (a b : list account) :
  skipn (length a) (a ++ b) ++ firstn (length a) (a ++ b) = b ++ a.
Proof.
  rewrite skipn_app, firstn_app, Nat.sub_diag, skipn_all, firstn_all. simpl.
  now rewrite app_nil_r.
Qed.

(** The canonical form of a list with its least element singled out. *)
Lemma normalize_cycle_split (a b : list account) (m : account) :
  is_min m (a ++ m :: b) -> ~ In m a ->
  normalize_cycle (a ++ m :: b) = Some (m :: b ++ a).
Proof.
  intros M N. unfold normalize_cycle.
  rewrite (is_min_py_min _ _ M), py_index_app by assumption.
  now rewrite skipn_firstn_app.
Qed.

Lemma normalize_cycle_inv (c n : list account) :
  normalize_cycle c = Some n ->
  exists a b m, c = a ++ m :: b /\ n = m :: b ++ a /\
                is_min m c /\ ~ In m a.
Proof.
  unfold normalize_cycle. destruct (py_min c) as [m|] eqn:E; [|discriminate].
  destruct (py_index m c) as [i|] eqn:F; [|discriminate].
  intros [= <-]. destruct (py_index_split _ _ _ F) as (a & b & -> & <- & N).
  exists a, b, m. rewrite skipn_firstn_app. repeat split; auto.
  - now apply py_min_spec in E as [? ?].
  - now apply py_min_spec in E as [? ?].
Qed.

Lemma normalize_cycle_some (c : list account) :
  c <> [] -> exists n, normalize_cycle c = Some n.
Proof.
  intros H. unfold normalize_cycle.
  destruct (py_min_some c H) as [m E]. rewrite E.
  destruct (py_index_some m c) as [i ->]; [|eauto].
  now apply py_min_spec in E as [? ?].
Qed.

Lemma is_min_perm (m : account) (l l' : list account) :
  (forall x, In x l <-> In x l') -> is_min m l -> is_min m l'.
Proof.
  intros P [I L]. split; [now apply P|]. intros x Hx. apply L. now apply P.
Qed.

Lemma rotation_In (c c' : list account) :
  rotation c c' -> forall x, In x c <-> In x c'.
Proof.
  intros [k ->] x. rewrite in_app_iff.
  rewrite <- (firstn_skipn k c) at 1. rewrite in_app_iff. tauto.
Qed.

Lemma rotation_NoDup (c c' : list account) :
  rotation c c' -> NoDup c -> NoDup c'.
Proof.
  intros [k ->] H. rewrite <- (firstn_skipn k c) in H.
  eapply Permutation_NoDup; [|exact H]. apply Permutation_app_comm.
Qed.

Lemma rotation_length (c c' : list account) :
  rotation c c' -> length c' = length c.
Proof.
  intros [k ->]. rewrite length_app, Nat.add_comm, <- length_app.
  now rewrite firstn_skipn.
Qed.

Lemma rotation_split (a b : list account) (m : account) (k : nat) :
  ~ In m a -> ~ In m b ->
  exists a' b',
    skipn k (a ++ m :: b) ++ firstn k (a ++ m :: b) = a' ++ m :: b' /\
    ~ In m a' /\ b' ++ a' = b ++ a.
Proof.
  intros Na Nb. destruct (Nat.le_gt_cases k (List.length a)) as [L|G].
  - exists (skipn k a), (b ++ firstn k a).
    rewrite skipn_app, firstn_app.
    replace (k - List.length a)%nat with 0%nat by lia. simpl.
    rewrite app_nil_r, <- !app_assoc. simpl. repeat split.
    + intros I. apply Na. rewrite <- (firstn_skipn k a), in_app_iff. now right.
    + now rewrite firstn_skipn.
  - exists (skipn (k - List.length a - 1) b ++ a),
           (firstn (k - List.length a - 1) b).
    rewrite skipn_app, firstn_app.
    rewrite (skipn_all2 a) by lia. rewrite (firstn_all2 a) by lia.
    destruct (k - List.length a)%nat as [|j] eqn:E; [lia|].
    simpl. rewrite Nat.sub_0_r, <- !app_assoc. simpl. repeat split.
    + rewrite in_app_iff. intros [I|I]; [|now apply Na].
      apply Nb. rewrite <- (firstn_skipn j b), in_app_iff. now right.
    + now rewrite app_assoc, firstn_skipn.
Qed.

Lemma in_split_swap (a b : list account) (m y : account) :
  In y (a ++ m :: b) <-> In y (m :: b ++ a).
Proof. simpl. rewrite !in_app_iff. simpl. tauto. Qed.

Lemma normalize_cycle_rotation (c c' : list account) :
  NoDup c -> rotation c c' -> normalize_cycle c' = normalize_cycle c.
Proof.
  intros D R. destruct c as [|x t].
  - destruct R as [k ->]. now rewrite skipn_nil, firstn_nil.
  - destruct (normalize_cycle_some (x :: t)) as [n E]; [discriminate|].
    rewrite E.
    destruct (normalize_cycle_inv _ _ E) as (a & b & m & Ec & -> & M & Na).
    assert (Nb : ~ In m b).
    { rewrite Ec in D. apply NoDup_remove_2 in D.
      rewrite in_app_iff in D. tauto. }
    destruct R as [k ->]. rewrite Ec in M |- *.
    destruct (rotation_split a b m k Na Nb) as (a' & b' & -> & Na' & Eb).
    rewrite normalize_cycle_split; [now rewrite Eb| |exact Na'].
    destruct M as [_ L]. split.
    + apply in_split_swap. now left.
    + intros y Hy. apply L. apply in_split_swap.
      apply in_split_swap in Hy. simpl in Hy |- *. now rewrite <- Eb.
Qed.

Lemma normalize_cycle_idem (c n : list account) :
  normalize_cycle c = Some n -> normalize_cycle n = Some n.
Proof.
  intros E. destruct (normalize_cycle_inv _ _ E) as (a & b & m & -> & -> & M & Na).
  pose proof (normalize_cycle_split [] (b ++ a) m) as S. simpl in S.
  rewrite app_nil_r in S. apply S; [|tauto].
  destruct M as [_ L]. split; [now left|].
  intros y Hy. apply L. now apply in_split_swap.
Qed.

Lemma normalize_cycle_length (c n : list account) :
  normalize_cycle c = Some n -> List.length n = List.length c.
Proof.
  intros E. destruct (normalize_cycle_inv _ _ E) as (a & b & m & -> & -> & _).
  simpl. rewrite !length_app. simpl. lia.
Qed.

Lemma normalize_cycle_rotation_of (c n : list account) :
  normalize_cycle c = Some n -> rotation c n.
Proof.
  intros E. destruct (normalize_cycle_inv _ _ E) as (a & b & m & -> & -> & _).
  exists (List.length a). now rewrite skipn_firstn_app.
Qed.

Lemma normalize_cycle_NoDup (c n : list account) :
  normalize_cycle c = Some n -> NoDup c -> NoDup n.
Proof.
  intros E. apply rotation_NoDup. now apply normalize_cycle_rotation_of.
Qed.

Ltac nodup_tac :=
  repeat (constructor; [simpl; intuition discriminate|]); constructor.

(** ** Canonical forms *)

(** C9: on a non-empty list of distinct account ids, [normalize_cycle]
    returns a canonical form, the canonical form of the canonical form is
    the canonical form itself, and every rotation of the list has the same
    canonical form. *)
Theorem normalize_cycle_canonical (c : list account) :
  c <> [] -> NoDup c ->
  exists n,
    normalize_cycle c = Some n /\
    normalize_cycle n = Some n /\
    forall c', rotation c c' -> normalize_cycle c' = Some n.
Proof.
  intros NE D. destruct (normalize_cycle_some c NE) as [n E].
  exists n. split; [exact E|]. split.
  - now apply normalize_cycle_idem with c.
  - intros c' R. rewrite <- E. now apply normalize_cycle_rotation.
Qed.

Lemma normalize_cycle_canonical_witness :
  exists n,
    normalize_cycle ["B"; "C"; "A"] = Some n /\
    normalize_cycle n = Some n /\
    forall c', rotation ["B"; "C"; "A"] c' -> normalize_cycle c' = Some n.
Proof.
  apply (normalize_cycle_canonical ["B"; "C"; "A"]).
  - discriminate.
  - nodup_tac.
Defined.

(** ** Numbers *)

Lemma Qltb_lt (a b : Q) : Qltb a b = true <-> a < b.
Proof.
  unfold Qltb. rewrite negb_true_iff. split.
  - intros H. apply Qnot_le_lt. intros L. apply Qle_bool_iff in L. congruence.
  - intros H. destruct (Qle_bool b a) eqn:E; [|reflexivity].
    apply Qle_bool_iff in E. exfalso. now apply (Qlt_not_le a b).
Qed.

Lemma Qltb_ge (a b : Q) : Qltb a b = false <-> b <= a.
Proof.
  unfold Qltb. rewrite negb_false_iff. apply Qle_bool_iff.
Qed.

Lemma py_minQ_spec (a b : Q) : py_minQ a b == Qmin a b.
Proof.
  unfold py_minQ. destruct (Qltb b a) eqn:E.
  - apply Qltb_lt in E. symmetry. apply Q.min_r. now apply Qlt_le_weak.
  - apply Qltb_ge in E. symmetry. now apply Q.min_l.
Qed.

Lemma py_maxQ_spec (a b : Q) : py_maxQ a b == Qmax a b.
Proof.
  unfold py_maxQ. destruct (Qltb a b) eqn:E.
  - apply Qltb_lt in E. symmetry. apply Q.max_r. now apply Qlt_le_weak.
  - apply Qltb_ge in E. symmetry. now apply Q.max_l.
Qed.

Lemma py_maxQ_cases (a b : Q) : py_maxQ a b = a \/ py_maxQ a b = b.
Proof. unfold py_maxQ. destruct (Qltb a b); auto. Qed.

Lemma py_maxQ_ge_l (a b : Q) : a <= py_maxQ a b.
Proof. rewrite py_maxQ_spec. apply Q.le_max_l. Qed.

Lemma py_maxQ_ge_r (a b : Q) : b <= py_maxQ a b.
Proof. rewrite py_maxQ_spec. apply Q.le_max_r. Qed.

Lemma clamp01_range (x : Q) : 0 <= clamp01 x <= 1.
Proof.
  unfold clamp01. rewrite py_maxQ_spec, py_minQ_spec. split.
  - apply Q.le_max_l.
  - apply Q.max_lub; [discriminate|apply Q.le_min_l].
Qed.

Lemma clamp01_spec (x : Q) : clamp01 x == Qmax 0 (Qmin 1 x).
Proof. unfold clamp01. now rewrite py_maxQ_spec, py_minQ_spec. Qed.

#[export] Instance clamp01_proper : Proper (Qeq ==> Qeq) clamp01.
Proof. intros x y E. now rewrite !clamp01_spec, E. Qed.

Lemma clamp01_id (x : Q) : 0 <= x <= 1 -> clamp01 x == x.
Proof.
  intros [L U]. unfold clamp01. rewrite py_maxQ_spec, py_minQ_spec.
  rewrite (Q.min_r 1 x U). now apply Q.max_r.
Qed.

(** ** Dictionaries *)

Section AListFacts.
Context {K V : Type} (eq_dec : forall a b : K, {a = b} + {a <> b}).

Lemma alist_get_upsert_same (k : K) (f : option V -> V) (l : list (K * V)) :
  alist_get eq_dec k (alist_upsert eq_dec k f l) = Some (f (alist_get eq_dec k l)).
Proof.
  induction l as [|[k' v] t IH]; simpl.
  - destruct (eq_dec k k); congruence.
  - destruct (eq_dec k' k) as [E|N]; simpl.
    + destruct (eq_dec k' k); congruence.
    + destruct (eq_dec k' k); [congruence|exact IH].
Qed.

Lemma alist_get_upsert_other (k k0 : K) (f : option V -> V) (l : list (K * V)) :
  k0 <> k ->
  alist_get eq_dec k0 (alist_upsert eq_dec k f l) = alist_get eq_dec k0 l.
Proof.
  intros D. induction l as [|[k' v] t IH]; simpl.
  - destruct (eq_dec k k0); congruence.
  - destruct (eq_dec k' k) as [E|N]; simpl.
    + subst. destruct (eq_dec k k0); congruence.
    + destruct (eq_dec k' k0); [reflexivity|exact IH].
Qed.

Lemma alist_upsert_keys (k : K) (f : option V -> V) (l : list (K * V)) :
  map fst (alist_upsert eq_dec k f l)
  = if in_dec eq_dec k (map fst l) then map fst l else map fst l ++ [k].
Proof.
  induction l as [|[k' v] t IH]; simpl; [reflexivity|].
  destruct (eq_dec k' k) as [E|N]; simpl; [reflexivity|].
  rewrite IH. destruct (in_dec eq_dec k (map fst t)); reflexivity.
Qed.

Lemma alist_get_In (k : K) (v : V) (l : list (K * V)) :
  alist_get eq_dec k l = Some v -> In (k, v) l.
Proof.
  induction l as [|[k' v'] t IH]; simpl; [discriminate|].
  destruct (eq_dec k' k) as [->|N]; [intros [= ->]; now left|].
  intros H. right. now apply IH.
Qed.

Lemma alist_In_get (k : K) (v : V) (l : list (K * V)) :
  NoDup (map fst l) -> In (k, v) l -> alist_get eq_dec k l = Some v.
Proof.
  induction l as [|[k' v'] t IH]; simpl; [tauto|].
  intros D [E|I].
  - injection E as -> ->. destruct (eq_dec k k); congruence.
  - inversion D as [|? ? N D']; subst.
    destruct (eq_dec k' k) as [->|_]; [|now apply IH].
    exfalso. apply N. now apply (in_map fst) in I.
Qed.

Lemma alist_upsert_NoDup (k : K) (f : option V -> V) (l : list (K * V)) :
  NoDup (map fst l) -> NoDup (map fst (alist_upsert eq_dec k f l)).
Proof.
  intros D. rewrite alist_upsert_keys.
  destruct (in_dec eq_dec k (map fst l)) as [I|N]; [exact D|].
  apply NoDup_rev in D. rewrite <- (rev_involutive (map fst l ++ [k])).
  apply NoDup_rev. rewrite rev_app_distr. simpl. constructor; [|exact D].
  now rewrite <- in_rev.
Qed.
End AListFacts.

Lemma for_each_app {A S : Type} (body : S -> A -> outcome S) (l1 l2 : list A)
  (st : S) :
  for_each body (l1 ++ l2) st = (st' <- for_each body l1 st ;; for_each body l2 st').
Proof.
  revert st. induction l1 as [|x t IH]; intros st; simpl; [reflexivity|].
  destruct (body st x); simpl; auto.
Qed.

(** ** The frequency sub-score *)

Lemma record_occurrence_count {py : PyLib} (cycles : list (list account)) :
  forall occ0 occ,
    for_each Circular.record_occurrence cycles occ0 = Ok occ ->
    forall norm,
      occ_len occ norm
      = (occ_len occ0 norm + List.length (filter (has_norm norm) cycles))%nat.
Proof.
  induction cycles as [|c t IH]; simpl; intros occ0 occ E norm.
  - injection E as <-. lia.
  - unfold Circular.record_occurrence at 1 in E. unfold has_norm at 1.
    destruct (normalize_cycle c) as [n|]; [|discriminate]. simpl in E.
    rewrite (IH _ _ E norm). unfold occ_len at 1, alist_append.
    destruct (cycle_eq_dec norm n) as [->|D].
    + rewrite alist_get_upsert_same. unfold occ_len.
      destruct (alist_get cycle_eq_dec n occ0); simpl;
        rewrite ?length_app; simpl; lia.
    + rewrite alist_get_upsert_other by exact D. unfold occ_len. lia.
Qed.

Lemma same_ring_has_norm (c norm : list account) :
  normalize_cycle c = Some norm ->
  forall c', same_ring c c' = has_norm norm c'.
Proof. intros E c'. unfold same_ring, has_norm. now rewrite E. Qed.

Lemma frequency_value (n : nat) :
  clamp01 (py_minQ (inject_Z (Z.of_nat n) / 3) 1)
  == Qmin (inject_Z (Z.of_nat n) / 3) 1.
Proof.
  rewrite py_minQ_spec. apply clamp01_id. split.
  - apply Q.min_glb; [|discriminate].
    apply Qle_shift_div_l; [reflexivity|].
    rewrite Qmult_0_l. change 0 with (inject_Z 0). rewrite <- Zle_Qle. lia.
  - apply Q.le_min_r.
Qed.

Lemma frequency_saturates (n : nat) :
  (3 <= n)%nat -> Qmin (inject_Z (Z.of_nat n) / 3) 1 == 1.
Proof.
  intros H. apply Q.min_r. apply Qle_shift_div_l; [reflexivity|].
  rewrite Qmult_1_l. change 3 with (inject_Z 3). rewrite <- Zle_Qle. lia.
Qed.

Lemma frequency_once_lt (n : nat) :
  (2 <= n)%nat ->
  Qmin (inject_Z (Z.of_nat 1) / 3) 1 < Qmin (inject_Z (Z.of_nat n) / 3) 1.
Proof.
  intros H. apply Q.min_glb_lt_iff. split.
  - apply Q.min_lt_iff. left.
    apply Qmult_lt_compat_r; [reflexivity|].
    rewrite <- Zlt_Qlt. lia.
  - apply Q.min_lt_iff. left. reflexivity.
Qed.

(** The formula of [frequency_score], on the occurrence map of any list
    of cycles: [min(n / 3, 1)], a value of [[0, 1]], where [n] counts the
    cycles of the list that have the canonical form of the cycle.  (The
    list that [run] passes holds every ring once.) *)
Lemma frequency_formula {py : PyLib}
  (cycles : list (list account)) (occ : Circular.occurrences_t)
  (c : list account) :
  for_each Circular.record_occurrence cycles [] = Ok occ ->
  In c cycles ->
  exists fs,
    Circular.frequency_score c occ = Ok fs /\
    fs == Qmin (inject_Z (Z.of_nat (ring_count cycles c)) / 3) 1 /\
    0 <= fs <= 1 /\
    ((3 <= ring_count cycles c)%nat -> fs == 1) /\
    forall c1 fs1,
      In c1 cycles -> Circular.frequency_score c1 occ = Ok fs1 ->
      ring_count cycles c1 = 1%nat -> (2 <= ring_count cycles c)%nat ->
      fs1 < fs.
Proof.
  intros E I.
  assert (F : forall c0 fs0, Circular.frequency_score c0 occ = Ok fs0 ->
            fs0 == Qmin (inject_Z (Z.of_nat (ring_count cycles c0)) / 3) 1).
  { intros c0 fs0. unfold Circular.frequency_score.
    destruct (normalize_cycle c0) as [n0|] eqn:N0; [|discriminate].
    intros [= <-]. rewrite frequency_value.
    pose proof (record_occurrence_count cycles [] occ E n0) as C.
    unfold occ_len in C. simpl in C. rewrite C. unfold ring_count.
    rewrite (filter_ext _ _ (same_ring_has_norm c0 n0 N0)). reflexivity. }
  assert (N : exists n, normalize_cycle c = Some n).
  { clear F. revert E. generalize (@nil (list account * list datetime)).
    induction cycles as [|x t IH]; [destruct I|].
    intros o. simpl. unfold Circular.record_occurrence at 1.
    destruct (normalize_cycle x) eqn:Nx; [|discriminate]. simpl.
    destruct I as [<-|I]; [eauto|]. intros E. eapply IH; eauto. }
  destruct N as [n N].
  eexists. split.
  { unfold Circular.frequency_score. rewrite N. reflexivity. }
  set (fs := clamp01 _).
  assert (Ffs : fs == Qmin (inject_Z (Z.of_nat (ring_count cycles c)) / 3) 1).
  { apply F. unfold Circular.frequency_score. now rewrite N. }
  split; [exact Ffs|]. split; [apply clamp01_range|]. split.
  - intros H. rewrite Ffs. now apply frequency_saturates.
  - intros c1 fs1 I1 E1 C1 H. rewrite Ffs, (F _ _ E1), C1.
    now apply frequency_once_lt.
Qed.


(** ** The cycle enumerator *)

Lemma first_discovery_In (l : list (list account)) :
  forall seen x,
    In x (first_discovery seen l) <-> In x l /\ ~ In x seen.
Proof.
  induction l as [|y t IH]; simpl; intros seen x; [tauto|].
  destruct (in_dec cycle_eq_dec y seen) as [I|N].
  - rewrite IH. split; [tauto|]. intros [[<-|H] K]; tauto.
  - simpl. rewrite IH. simpl. split.
    + intros [<-|[H K]]; [tauto|]. tauto.
    + intros [[<-|H] K]; [tauto|].
      destruct (cycle_eq_dec y x); [tauto|]. right. tauto.
Qed.

Lemma first_discovery_NoDup (l : list (list account)) :
  forall seen, NoDup (first_discovery seen l).
Proof.
  induction l as [|y t IH]; simpl; intros seen; [constructor|].
  destruct (in_dec cycle_eq_dec y seen) as [I|N]; [apply IH|].
  constructor; [|apply IH].
  rewrite first_discovery_In. simpl. tauto.
Qed.

Lemma detect_cycles_nested {nx : GraphLib} (G : DiGraph Circular.edge_data)
  (sccs : list (list account)) :
  forall st,
    for_each (Circular.detect_cycles_scc G) sccs st
    = for_each Circular.detect_cycles_body
        (flat_map
           (fun scc =>
              if (List.length scc <? Circular.MIN_CYCLE_LEN)%nat then []
              else simple_cycles (subgraph G scc) Circular.MAX_CYCLE_LEN)
           sccs) st.
Proof.
  induction sccs as [|scc t IH]; intros st; simpl; [reflexivity|].
  rewrite for_each_app. unfold Circular.detect_cycles_scc at 1.
  destruct (List.length scc <? Circular.MIN_CYCLE_LEN)%nat; simpl; [apply IH|].
  destruct (for_each Circular.detect_cycles_body _ st); simpl; [apply IH|reflexivity].
Qed.

(** The canonical forms of the cycles that pass the length test. *)
Lemma in_bounds_norms (raw : list (list account)) :
  exists norms,
    map normalize_cycle (filter in_bounds raw) = map Some norms.
Proof.
  induction raw as [|c t [norms IH]]; simpl; [now exists []|].
  destruct (in_bounds c) eqn:B; [|now exists norms].
  destruct (normalize_cycle_some c) as [n E].
  - intros ->. discriminate.
  - exists (n :: norms). simpl. now rewrite E, IH.
Qed.

Lemma detect_cycles_body_eq (cycles seen : list (list account))
  (c : list account) :
  Circular.detect_cycles_body (cycles, seen) c
  = if in_bounds c then
      match normalize_cycle c with
      | None => Raise ValueError
      | Some norm =>
          if in_dec cycle_eq_dec norm seen then Ok (cycles, seen)
          else Ok (cycles ++ [norm], norm :: seen)
      end
    else Ok (cycles, seen).
Proof. reflexivity. Qed.

Lemma detect_cycles_loop (raw : list (list account)) :
  forall norms cycles seen,
    map normalize_cycle (filter in_bounds raw) = map Some norms ->
    (forall x, In x seen <-> In x cycles) ->
    exists seen',
      for_each Circular.detect_cycles_body raw (cycles, seen)
      = Ok (cycles ++ first_discovery seen norms, seen')
      /\ (forall x, In x seen' <-> In x (cycles ++ first_discovery seen norms)).
Proof.
  induction raw as [|c t IH]; cbn [for_each filter]; intros norms cycles seen E S.
  - destruct norms; [|discriminate]. simpl. exists seen.
    rewrite app_nil_r. auto.
  - rewrite detect_cycles_body_eq.
    destruct (in_bounds c) eqn:B.
    + destruct norms as [|n norms]; [discriminate|]. cbn [map] in E.
      injection E as En E. rewrite En. cbn [first_discovery].
      destruct (in_dec cycle_eq_dec n seen) as [I|N]; cbn [bind].
      * now apply IH.
      * destruct (IH norms (cycles ++ [n]) (n :: seen) E) as (seen' & R & S').
        { intros x. simpl. rewrite in_app_iff, S. simpl. tauto. }
        exists seen'. rewrite <- app_assoc in R, S'. auto.
    + cbn [bind]. now apply IH.
Qed.

Lemma map_Some_In {A B : Type} (f : A -> option B) (l : list A) :
  forall ys y,
    map f l = map Some ys -> In y ys -> exists x, In x l /\ f x = Some y.
Proof.
  induction l as [|x t IH]; intros [|y0 ys] y E I; simpl in *;
    try discriminate; [destruct I|].
  injection E as E0 E. destruct I as [<-|I]; [eauto|].
  destruct (IH ys y E I) as (x' & Hx & Hf). eauto.
Qed.

Lemma map_Some_In_inv {A B : Type} (f : A -> option B) (l : list A) :
  forall ys x,
    map f l = map Some ys -> In x l -> exists y, In y ys /\ f x = Some y.
Proof.
  induction l as [|x0 t IH]; intros [|y0 ys] x E I; simpl in *;
    try discriminate; [destruct I|].
  injection E as E0 E. destruct I as [<-|I]; [eauto|].
  destruct (IH ys x E I) as (y & Hy & Hf). eauto.
Qed.

Lemma count_once (l : list (list account)) (n : list account) :
  NoDup l -> In n l ->
  List.length (filter (fun x => if cycle_eq_dec n x then true else false) l)
  = 1%nat.
Proof.
  induction l as [|x t IH]; simpl; intros D I; [destruct I|].
  inversion D as [|? ? N D']; subst.
  destruct (cycle_eq_dec n x) as [->|Ne]; simpl.
  - f_equal. apply length_zero_iff_nil.
    destruct (filter _ t) as [|y r] eqn:F; [reflexivity|].
    assert (In y (filter (fun x0 => if cycle_eq_dec x x0 then true else false) t))
      as K by (rewrite F; now left).
    apply filter_In in K as [K1 K2].
    destruct (cycle_eq_dec x y); [subst; tauto|discriminate].
  - destruct I as [->|I]; [congruence|]. now apply IH.
Qed.

(** C3: [detect_cycles] returns; every cycle it returns has three to five
    members and is its own canonical form; given that networkx yields
    cycles without a repeated node, no member is repeated; no two
    positions of the returned list hold the same ring; every ring that
    networkx yields within the length bounds is in the list exactly once;
    and the list is in the order of first discovery. *)
Theorem detect_cycles_distinct_rings {nx : GraphLib} (st : Circular.state) :
  (forall c, In c (raw_cycles (Circular.prune (Circular.graph st))) -> NoDup c) ->
  exists cycles norms,
    Circular.detect_cycles st = Ok cycles /\
    map normalize_cycle
        (filter in_bounds (raw_cycles (Circular.prune (Circular.graph st))))
    = map Some norms /\
    cycles = first_discovery [] norms /\
    (forall c, In c cycles ->
       (3 <= List.length c <= 5)%nat /\ NoDup c /\ normalize_cycle c = Some c) /\
    (forall i j ci cj,
       nth_error cycles i = Some ci -> nth_error cycles j = Some cj ->
       same_ring ci cj = true -> i = j) /\
    (forall c,
       In c (raw_cycles (Circular.prune (Circular.graph st))) ->
       in_bounds c = true -> ring_count cycles c = 1%nat).
Proof.
  intros Simple.
  set (G := Circular.prune (Circular.graph st)) in *.
  destruct (in_bounds_norms (raw_cycles G)) as [norms EN].
  exists (first_discovery [] norms), norms.
  assert (Own : forall c, In c (first_discovery [] norms) ->
            (3 <= List.length c <= 5)%nat /\ NoDup c /\ normalize_cycle c = Some c).
  { intros c I. apply first_discovery_In in I as [I _].
    destruct (map_Some_In _ _ _ _ EN I) as (r & Hr & Er).
    apply filter_In in Hr as [Hr B].
    repeat split.
    - rewrite (normalize_cycle_length _ _ Er).
      unfold in_bounds in B. apply andb_prop in B as [B _].
      now apply Nat.leb_le in B.
    - rewrite (normalize_cycle_length _ _ Er).
      unfold in_bounds in B. apply andb_prop in B as [_ B].
      now apply Nat.leb_le in B.
    - apply (normalize_cycle_NoDup _ _ Er). now apply Simple.
    - now apply normalize_cycle_idem with r. }
  pose proof (first_discovery_NoDup norms []) as D.
  split; [|split; [exact EN|split; [reflexivity|split; [exact Own|split]]]].
  - unfold Circular.detect_cycles. fold G. rewrite detect_cycles_nested.
    fold (raw_cycles G).
    destruct (detect_cycles_loop (raw_cycles G) norms [] [] EN) as (seen' & R & _);
      [tauto|].
    rewrite R. reflexivity.
  - intros i j ci cj Ei Ej SR.
    assert (ci = cj).
    { unfold same_ring in SR.
      destruct (Own ci (nth_error_In _ _ Ei)) as (_ & _ & Ni).
      destruct (Own cj (nth_error_In _ _ Ej)) as (_ & _ & Nj).
      rewrite Ni, Nj in SR. destruct (cycle_eq_dec ci cj); congruence. }
    subst cj. apply (proj1 (NoDup_nth_error _) D).
    + apply nth_error_Some. congruence.
    + congruence.
  - intros c I B.
    assert (Ic : In c (filter in_bounds (raw_cycles G)))
      by (apply filter_In; auto).
    destruct (map_Some_In_inv _ _ _ _ EN Ic) as (n & Hn & En).
    unfold ring_count.
    rewrite (filter_ext_in (same_ring c)
               (fun x => if cycle_eq_dec n x then true else false)).
    + apply count_once; [exact D|]. apply first_discovery_In. tauto.
    + intros x Hx. unfold same_ring. rewrite En.
      destruct (Own x Hx) as (_ & _ & ->). reflexivity.
Qed.

Lemma detect_cycles_distinct_rings_witness :
  let st := @Circular.build_graph Ref.py Batch.cycle Circular.init in
  exists cycles norms,
    @Circular.detect_cycles Ref.nx st = Ok cycles /\
    map normalize_cycle
        (filter in_bounds
           (@raw_cycles Ref.nx (Circular.prune (Circular.graph st))))
    = map Some norms /\
    cycles = first_discovery [] norms /\
    (forall c, In c cycles ->
       (3 <= List.length c <= 5)%nat /\ NoDup c /\ normalize_cycle c = Some c) /\
    (forall i j ci cj,
       nth_error cycles i = Some ci -> nth_error cycles j = Some cj ->
       same_ring ci cj = true -> i = j) /\
    (forall c,
       In c (@raw_cycles Ref.nx (Circular.prune (Circular.graph st))) ->
       in_bounds c = true -> ring_count cycles c = 1%nat).
Proof.
  intros st.
  apply (@detect_cycles_distinct_rings Ref.nx st).
  intros c I. vm_compute in I. destruct I as [<-|[]]. nodup_tac.
Defined.

(** ** Scores are in range *)

Lemma bind_Ok {A B : Type} (m : outcome A) (k : A -> outcome B) (b : B) :
  bind m k = Ok b -> exists a, m = Ok a /\ k a = Ok b.
Proof. destruct m; simpl; [eauto|discriminate]. Qed.

Lemma for_each_inv {A S : Type} (body : S -> A -> outcome S) (P : S -> Prop)
  (l : list A) :
  (forall st x st', In x l -> P st -> body st x = Ok st' -> P st') ->
  forall st st', P st -> for_each body l st = Ok st' -> P st'.
Proof.
  induction l as [|x t IH]; simpl; intros Step st st' H E.
  - now injection E as <-.
  - apply bind_Ok in E as (s1 & E1 & E2).
    apply (IH (fun st x st' I => Step st x st' (or_intror I)) s1 st'); auto.
    eapply Step; eauto.
Qed.

Lemma fold_left_inv {A S : Type} (f : S -> A -> S) (P : S -> Prop) (l : list A) :
  (forall st x, In x l -> P st -> P (f st x)) ->
  forall st, P st -> P (fold_left f l st).
Proof.
  induction l as [|x t IH]; simpl; intros Step st H; [exact H|].
  apply IH; auto.
Qed.

Lemma round_half_even_bounds (x : Q) (a b : Z) :
  inject_Z a <= x <= inject_Z b -> (a <= round_half_even x <= b)%Z.
Proof.
  intros [L U]. unfold round_half_even.
  pose proof (Qfloor_le x) as F.
  assert (La : (a <= Qfloor x)%Z).
  { rewrite <- (Qfloor_Z a). now apply Qfloor_resp_le. }
  assert (Ub : (Qfloor x <= b)%Z).
  { rewrite <- (Qfloor_Z b). now apply Qfloor_resp_le. }
  destruct (Qltb (x - inject_Z (Qfloor x)) (1 # 2)) eqn:H1; [lia|].
  apply Qltb_ge in H1.
  assert (Lt : (Qfloor x < b)%Z).
  { destruct (Z.eq_dec (Qfloor x) b) as [E|N]; [|lia]. exfalso.
    rewrite E in H1.
    assert (x - inject_Z b <= 0) as K.
    { rewrite <- (Qplus_opp_r (inject_Z b)).
      apply Qplus_le_compat; [exact U|apply Qle_refl]. }
    apply (Qle_not_lt _ _ (Qle_trans _ _ _ H1 K)). reflexivity. }
  destruct (Qltb (1 # 2) (x - inject_Z (Qfloor x))); [lia|].
  destruct (Z.even (Qfloor x)); lia.
Qed.

Lemma round2_range (x : Q) : score_in_range x -> score_in_range (round2 x).
Proof.
  unfold score_in_range, round2. intros [L U].
  destruct (round_half_even_bounds (x * 100) 0 10000) as [A B].
  { split.
    - change (inject_Z 0) with (0 * 100). apply Qmult_le_compat_r; [exact L|discriminate].
    - change (inject_Z 10000) with (100 * 100).
      apply Qmult_le_compat_r; [exact U|discriminate]. }
  split.
  - apply Qle_shift_div_l; [reflexivity|]. rewrite Qmult_0_l.
    change 0 with (inject_Z 0). now rewrite <- Zle_Qle.
  - apply Qle_shift_div_r; [reflexivity|].
    change (100 * 100) with (inject_Z 10000). now rewrite <- Zle_Qle.
Qed.

Lemma clamp01_percent (x : Q) : score_in_range (clamp01 x * 100).
Proof.
  destruct (clamp01_range x) as [L U]. split.
  - change 0 with (0 * 100). apply Qmult_le_compat_r; [exact L|discriminate].
  - change 100 with (1 * 100) at 2. apply Qmult_le_compat_r; [exact U|discriminate].
Qed.

Lemma compute_range {py : PyLib} (g : DiGraph Circular.edge_data)
  (em : Circular.edge_meta_t) (c : list account) (occ : Circular.occurrences_t)
  (s : Q) :
  Circular.compute g em c occ = Ok s -> score_in_range s.
Proof.
  unfold Circular.compute. intros E.
  apply bind_Ok in E as (edges & _ & E).
  apply bind_Ok in E as (a & _ & E).
  apply bind_Ok in E as (f & _ & E).
  apply bind_Ok in E as (v & _ & E).
  injection E as <-. apply round2_range, clamp01_percent.
Qed.

Lemma max_score_of_In (l : list Q) : forall x,
  In (Circular.max_score_of x l) (x :: l).
Proof.
  unfold Circular.max_score_of.
  induction l as [|y t IH]; simpl; intros x; [now left|].
  destruct (IH (py_maxQ x y)) as [E|I]; [|tauto].
  rewrite <- E. destruct (py_maxQ_cases x y) as [->| ->]; tauto.
Qed.

Section AListForall.
Context {K V : Type} (eq_dec : forall a b : K, {a = b} + {a <> b}).
Variable P : V -> Prop.

Lemma alist_upsert_Forall (k : K) (f : option V -> V) (l : list (K * V)) :
  P (f None) -> (forall v, P v -> P (f (Some v))) ->
  Forall (fun kv => P (snd kv)) l ->
  Forall (fun kv => P (snd kv)) (alist_upsert eq_dec k f l).
Proof.
  intros HN HS. induction 1 as [|[k' v] t Hv Ht IH]; simpl.
  - constructor; [exact HN|constructor].
  - destruct (eq_dec k' k); constructor; simpl in *; auto.
Qed.
End AListForall.

Lemma Forall_one {A : Type} (P : A -> Prop) (x : A) : P x -> Forall P [x].
Proof. intros H. constructor; [exact H|constructor]. Qed.

Lemma alist_append_Forall {K V : Type}
  (eq_dec : forall a b : K, {a = b} + {a <> b}) (P : V -> Prop)
  (k : K) (x : V) (l : list (K * list V)) :
  P x ->
  Forall (fun kv => Forall P (snd kv)) l ->
  Forall (fun kv => Forall P (snd kv)) (alist_append eq_dec k x l).
Proof.
  intros Hx. apply alist_upsert_Forall.
  - repeat constructor. exact Hx.
  - intros v Hv. apply Forall_app. split; [exact Hv|repeat constructor; exact Hx].
Qed.

Lemma score_cycle_ok {py : PyLib} (st : Circular.state)
  (occ : Circular.occurrences_t) (idx idx' : nat)
  (rings rings' : list fraud_ring) (ad ad' : Circular.account_data_t)
  (c : list account) :
  Circular.score_cycle st occ (idx, rings, ad) c = Ok (idx', rings', ad') ->
  Forall ring_ok rings /\ Forall (fun kv => Forall entry_ok (snd kv)) ad ->
  Forall ring_ok rings' /\ Forall (fun kv => Forall entry_ok (snd kv)) ad'.
Proof.
  unfold Circular.score_cycle. intros E [HR HA].
  apply bind_Ok in E as (sc & Esc & E).
  apply bind_Ok in E as (ct & _ & E).
  injection E as _ <- <-. apply compute_range in Esc. split.
  - apply Forall_app. split; [exact HR|]. apply Forall_one. exact Esc.
  - apply fold_left_inv; [|exact HA].
    intros d a _ Hd. apply alist_append_Forall; [exact Esc|exact Hd].
Qed.

Lemma flag_account_ok (out out' : list suspicious_account)
  (item : account * list Circular.entry) :
  Circular.flag_account out item = Ok out' ->
  Forall entry_ok (snd item) -> Forall sa_ok out -> Forall sa_ok out'.
Proof.
  destruct item as [acc entries]. unfold Circular.flag_account.
  destruct entries as [|e0 rest]; [discriminate|]. intros E HE HO.
  match type of E with (if ?b then _ else _) = _ => destruct b end;
    injection E as <-; [|exact HO].
  apply Forall_app. split; [exact HO|]. apply Forall_one.
  unfold sa_ok. simpl. apply round2_range.
  pose proof (max_score_of_In (map Circular.score rest) (Circular.score e0)) as I.
  change (Circular.score e0 :: map Circular.score rest)
    with (map Circular.score (e0 :: rest)) in I.
  apply in_map_iff in I as (e & <- & Ie).
  simpl in HE. rewrite Forall_forall in HE. now apply HE.
Qed.

Lemma circular_scores_ok {py : PyLib} {nx : GraphLib}
  (txns : list transaction) (res : result) :
  Circular.run txns = Ok res -> scores_ok res.
Proof.
  unfold Circular.run. intros E.
  apply bind_Ok in E as (cycles & _ & E).
  apply bind_Ok in E as (occ & _ & E).
  apply bind_Ok in E as ([[idx rings] ad] & Escored & E).
  apply bind_Ok in E as (susp & Esusp & E). injection E as <-.
  assert (Forall ring_ok rings /\ Forall (fun kv => Forall entry_ok (snd kv)) ad)
    as [HR HA].
  { revert Escored.
    apply (for_each_inv _
             (fun s => Forall ring_ok (snd (fst s))
                       /\ Forall (fun kv => Forall entry_ok (snd kv)) (snd s))).
    - intros [[i r] a] c [[i' r'] a'] _ H Ec. simpl in *.
      eapply score_cycle_ok; eauto.
    - simpl. split; constructor. }
  split; simpl; [|exact HR].
  revert Esusp. apply (for_each_inv _ (Forall sa_ok)); [|constructor].
  intros out item out' I H Ef. eapply flag_account_ok; eauto.
  rewrite Forall_forall in HA. now apply (HA item).
Qed.

Lemma smurfing_scores_ok {py : PyLib} (txns : list transaction) (res : result) :
  Smurfing.run txns = Ok res -> scores_ok res.
Proof.
  unfold Smurfing.run. intros E.
  apply bind_Ok in E as (g & _ & E). injection E as <-.
  unfold scores_ok. simpl.
  apply (fold_left_inv _
           (fun out => Forall sa_ok (fst out) /\ Forall ring_ok (snd out))).
  - intros out [acc l] _ [H1 H2]. unfold Smurfing.fan_out_step.
    destruct (Smurfing.detect _ l) as [[p t]|]; [|tauto]. simpl. split.
    + apply Forall_app. split; [exact H1|]. apply Forall_one.
      unfold sa_ok, score_in_range. simpl. split; discriminate.
    + apply Forall_app. split; [exact H2|]. apply Forall_one.
      unfold ring_ok, score_in_range. simpl. split; discriminate.
  - apply (fold_left_inv _
           (fun out => Forall sa_ok (fst out) /\ Forall ring_ok (snd out))).
    + intros out [acc l] _ [H1 H2]. unfold Smurfing.fan_in_step.
      destruct (Smurfing.detect _ l) as [[p t]|]; [|tauto]. simpl. split.
      * apply Forall_app. split; [exact H1|]. apply Forall_one.
        unfold sa_ok, score_in_range. simpl. split; discriminate.
      * apply Forall_app. split; [exact H2|]. apply Forall_one.
        unfold ring_ok, score_in_range. simpl. split; discriminate.
    + simpl. split; constructor.
Qed.

Lemma mark_member_ok (rid : string) (members : list account) :
  forall st,
    Forall sa_ok (fst st) ->
    Forall sa_ok (fst (fold_left (Shell.mark_member rid) members st)).
Proof.
  intros st. apply (fold_left_inv _ (fun st => Forall sa_ok (fst st))).
  intros s m _ H. unfold Shell.mark_member.
  destruct (mem m (snd s)); [exact H|]. simpl.
  apply Forall_app. split; [exact H|]. apply Forall_one.
  unfold sa_ok, score_in_range. simpl. split; discriminate.
Qed.

Lemma shell_scores_ok {nx : GraphLib} (txns : list transaction) :
  scores_ok (Shell.run txns).
Proof.
  unfold Shell.run. destruct (Shell.build txns) as [graph counts].
  destruct (Shell.shells_of counts) as [|s0 shells] eqn:Es.
  - split; constructor.
  - set (sub := subgraph graph (s0 :: shells)).
    assert (H : let r := fold_left (Shell.component_step graph sub)
                           (weakly_connected_components sub) ([], [], []) in
                Forall sa_ok (fst (fst r)) /\ Forall ring_ok (snd (fst r))).
    { apply (fold_left_inv _
               (fun r => Forall sa_ok (fst (fst r)) /\ Forall ring_ok (snd (fst r)))).
      - intros [[s r] d] comp _ [H1 H2]. unfold Shell.component_step.
        destruct (2 <=? List.length comp)%nat; [|tauto].
        destruct (Shell.find_chain _ _ _ _) as [chain|]; [|tauto].
        simpl in *. split.
        + now apply mark_member_ok.
        + apply Forall_app. split; [exact H2|]. apply Forall_one.
          unfold ring_ok, score_in_range. simpl. split; discriminate.
      - simpl. split; constructor. }
    simpl in H.
    destruct (fold_left _ _ _) as [[s r] d]. exact H.
Qed.

Lemma insert_desc_Forall (P : suspicious_account -> Prop)
  (x : suspicious_account) (l : list suspicious_account) :
  P x -> Forall P l -> Forall P (Server.insert_desc x l).
Proof.
  intros Hx. induction 1 as [|y t Hy Ht IH]; simpl.
  - repeat constructor. exact Hx.
  - destruct (Qltb _ _); repeat constructor; auto.
Qed.

Lemma sort_desc_Forall (P : suspicious_account -> Prop)
  (l : list suspicious_account) :
  Forall P l -> Forall P (Server.sort_desc l).
Proof.
  induction 1 as [|y t Hy Ht IH]; simpl; [constructor|].
  now apply insert_desc_Forall.
Qed.

Lemma merge_scores_ok (items : list suspicious_account) :
  Forall sa_ok items ->
  Forall (fun kv => sa_ok (snd kv)) (Server.merge items).
Proof.
  intros H. unfold Server.merge.
  apply (fold_left_inv _ (Forall (fun kv => sa_ok (snd kv)))); [|constructor].
  intros m item I Hm. rewrite Forall_forall in H. specialize (H item I).
  unfold Server.merge_step, Server.merge_record.
  apply alist_upsert_Forall; [|intros v Hv|exact Hm];
    unfold sa_ok in *; simpl.
  - destruct (py_maxQ_cases 0 (suspicion_score item)) as [-> | ->];
      [split; discriminate|exact H].
  - destruct (py_maxQ_cases (suspicion_score v) (suspicion_score item))
      as [-> | ->]; assumption.
Qed.

Lemma aggregate_scores_ok (c s sh : result) :
  scores_ok c -> scores_ok s -> scores_ok sh ->
  scores_ok (Server.aggregate c s sh).
Proof.
  intros [C1 C2] [S1 S2] [H1 H2]. unfold Server.aggregate. split; simpl.
  - apply sort_desc_Forall. apply Forall_map.
    assert (Forall sa_ok (suspicious_accounts c ++ suspicious_accounts s
                          ++ suspicious_accounts sh)) as K
      by (rewrite !Forall_app; tauto).
    apply merge_scores_ok in K. revert K. apply Forall_impl.
    intros [k v]. auto.
  - rewrite !Forall_app. tauto.
Qed.

(** C2: for every batch, every [risk_score] and every [suspicion_score]
    that the circular, the smurfing or the shell detector returns, and
    every one in the merged report, is between 0 and 100. *)
Theorem scores_between_0_and_100 {py : PyLib} {nx : GraphLib}
  (txns : list transaction) :
  (forall res, Circular.run txns = Ok res -> scores_ok res) /\
  (forall res, Smurfing.run txns = Ok res -> scores_ok res) /\
  scores_ok (Shell.run txns) /\
  (forall res, Server.analyze txns = Ok res -> scores_ok res).
Proof.
  split; [apply circular_scores_ok|].
  split; [apply smurfing_scores_ok|].
  split; [apply shell_scores_ok|].
  intros res E. unfold Server.analyze in E.
  apply bind_Ok in E as (c & Ec & E).
  apply bind_Ok in E as (s & Es & E). injection E as <-.
  apply aggregate_scores_ok.
  - now apply circular_scores_ok with txns.
  - now apply smurfing_scores_ok with txns.
  - apply shell_scores_ok.
Qed.

Lemma scores_between_0_and_100_witness :
  exists res,
    @Server.analyze Ref.py Ref.nx
      (Batch.cycle ++ Batch.fan_in 12 "Aggregator" ++ Batch.chain) = Ok res
    /\ scores_ok res.
Proof.
  eexists. split.
  - vm_compute. reflexivity.
  - apply (proj2 (proj2 (proj2
      (@scores_between_0_and_100 Ref.py Ref.nx
         (Batch.cycle ++ Batch.fan_in 12 "Aggregator" ++ Batch.chain))))).
    vm_compute. reflexivity.
Defined.

(** ** The sliding window *)

Lemma ts_at_nth (txns : list Smurfing.entry) (j : nat) (e : Smurfing.entry) :
  nth_error txns j = Some e -> Smurfing.ts_at txns j = Smurfing.ts e.
Proof. unfold Smurfing.ts_at. now intros ->. Qed.

Lemma advance_spec (txns : list Smurfing.entry) (cur : datetime) (i : nat) :
  forall turns start,
    (i - start <= turns)%nat -> (start <= i)%nat ->
    let s' := Smurfing.advance txns cur i turns start in
    (start <= s' <= i)%nat /\
    (forall j, (start <= j < s')%nat ->
               (Smurfing.TIME_WINDOW_HOURS * 3600 < cur - Smurfing.ts_at txns j)%Z) /\
    (s' = i \/ (cur - Smurfing.ts_at txns s' <= Smurfing.TIME_WINDOW_HOURS * 3600)%Z).
Proof.
  induction turns as [|k IH]; intros start T L; cbn [Smurfing.advance]; cbv zeta.
  - assert (start = i) by lia. subst.
    split; [lia|]. split; [intros j Hj; lia|now left].
  - destruct (start <? i)%nat eqn:E1; cbn [andb].
    + apply Nat.ltb_lt in E1.
      destruct (Smurfing.TIME_WINDOW_HOURS * 3600
                <? cur - Smurfing.ts_at txns start)%Z eqn:E2.
      * apply Z.ltb_lt in E2.
        destruct (IH (S start)) as (A & B & C); [lia|lia|].
        cbv zeta in A, B, C.
        split; [lia|]. split; [|exact C].
        intros j Hj. destruct (Nat.eq_dec j start) as [->|N]; [exact E2|].
        apply B. lia.
      * apply Z.ltb_ge in E2.
        split; [lia|]. split; [intros j Hj; lia|now right].
    + apply Nat.ltb_ge in E1. assert (start = i) by lia. subst.
      split; [lia|]. split; [intros j Hj; lia|now left].
Qed.

Lemma firstn_plus {A : Type} (a b : nat) (l : list A) :
  firstn (a + b) l = firstn a l ++ firstn b (skipn a l).
Proof.
  revert l. induction a as [|a IH]; intros l; simpl; [reflexivity|].
  destruct l as [|x t]; simpl.
  - now rewrite firstn_nil.
  - now rewrite IH.
Qed.

Lemma filter_none {A : Type} (f : A -> bool) (l : list A) :
  (forall j e, nth_error l j = Some e -> f e = false) -> filter f l = [].
Proof.
  induction l as [|x t IH]; intros H; simpl; [reflexivity|].
  rewrite (H 0%nat x Logic.eq_refl). apply IH.
  intros j e E. apply (H (S j)). exact E.
Qed.

Lemma filter_all {A : Type} (f : A -> bool) (l : list A) :
  (forall j e, nth_error l j = Some e -> f e = true) -> filter f l = l.
Proof.
  induction l as [|x t IH]; intros H; simpl; [reflexivity|].
  rewrite (H 0%nat x Logic.eq_refl). f_equal. apply IH.
  intros j e E. apply (H (S j)). exact E.
Qed.

Lemma window_within (txns : list Smurfing.entry) (i s' : nat) :
  sorted_by_ts txns -> (i < List.length txns)%nat -> (s' <= i)%nat ->
  (forall j, (j < s')%nat ->
     (Smurfing.TIME_WINDOW_HOURS * 3600
      < Smurfing.ts_at txns i - Smurfing.ts_at txns j)%Z) ->
  (s' = i \/ (Smurfing.ts_at txns i - Smurfing.ts_at txns s'
              <= Smurfing.TIME_WINDOW_HOURS * 3600)%Z) ->
  Smurfing.window txns s' i = within_window txns i.
Proof.
  intros Sorted Li Ls Old New. unfold Smurfing.window, within_window.
  replace (S i) with (s' + (i + 1 - s'))%nat by lia.
  rewrite firstn_plus, filter_app.
  rewrite filter_none, filter_all; [reflexivity| |].
  - intros j e E. rewrite nth_error_firstn in E.
    destruct (j <? i + 1 - s')%nat eqn:Lj; [|discriminate].
    apply Nat.ltb_lt in Lj. rewrite nth_error_skipn in E.
    apply Z.leb_le.
    destruct (nth_error txns i) as [ei|] eqn:Ei;
      [|apply nth_error_None in Ei; lia].
    rewrite (ts_at_nth _ _ _ Ei).
    destruct New as [->|New].
    + assert (j = 0)%nat by lia. subst j. rewrite Nat.add_0_r in E.
      assert (e = ei) by congruence. subst. unfold Smurfing.TIME_WINDOW_HOURS. lia.
    + destruct (nth_error txns s') as [es|] eqn:Es;
        [|apply nth_error_None in Es; lia].
      rewrite (ts_at_nth _ _ _ Ei), (ts_at_nth _ _ _ Es) in New.
      assert (Smurfing.ts es <= Smurfing.ts e)%Z
        by (apply (Sorted s' (s' + j)%nat); auto; lia).
      lia.
  - intros j e E. rewrite nth_error_firstn in E.
    destruct (j <? s')%nat eqn:Lj; [|discriminate]. apply Nat.ltb_lt in Lj.
    apply Z.leb_gt. rewrite <- (ts_at_nth _ _ _ E). now apply Old.
Qed.

Lemma scan_first_reaching (threshold : nat) (txns : list Smurfing.entry) :
  sorted_by_ts txns ->
  forall todo i start,
    (i + todo = List.length txns)%nat -> (start <= i)%nat ->
    (forall j, (j < start)%nat -> (i < List.length txns)%nat ->
       (Smurfing.TIME_WINDOW_HOURS * 3600
        < Smurfing.ts_at txns i - Smurfing.ts_at txns j)%Z) ->
    Smurfing.scan threshold txns todo i start
    = match first_from
              (fun i => (threshold <=? List.length (parties_within txns i))%nat)
              todo i with
      | Some k => Some (parties_within txns k, Smurfing.ts_at txns k)
      | None => None
      end.
Proof.
  intros Sorted. induction todo as [|k IH]; intros i start Len Ls Old;
    cbn [Smurfing.scan first_from]; [reflexivity|].
  assert (Li : (i < List.length txns)%nat) by lia.
  destruct (advance_spec txns (Smurfing.ts_at txns i) i (i - start) start)
    as (A & B & C); [lia|lia|].
  set (s' := Smurfing.advance _ _ _ _ _) in *.
  assert (Old' : forall j, (j < s')%nat ->
            (Smurfing.TIME_WINDOW_HOURS * 3600
             < Smurfing.ts_at txns i - Smurfing.ts_at txns j)%Z).
  { intros j Hj. destruct (Nat.lt_ge_cases j start); [now apply Old|].
    apply B. lia. }
  rewrite (window_within txns i s' Sorted Li) by (auto; lia).
  fold (parties_within txns i).
  destruct (threshold <=? List.length (parties_within txns i))%nat;
    [reflexivity|].
  apply IH; [lia|lia|].
  intros j Hj Ln. specialize (Old' j Hj).
  destruct (nth_error txns i) as [ei|] eqn:Ei;
    [|apply nth_error_None in Ei; lia].
  destruct (nth_error txns (S i)) as [en|] eqn:En;
    [|apply nth_error_None in En; lia].
  rewrite (ts_at_nth _ _ _ Ei) in Old'. rewrite (ts_at_nth _ _ _ En).
  assert (Smurfing.ts ei <= Smurfing.ts en)%Z
    by (apply (Sorted i (S i)); auto).
  lia.
Qed.

Lemma first_from_Some (p : nat -> bool) :
  forall todo i k,
    first_from p todo i = Some k <->
    (i <= k < i + todo)%nat /\ p k = true /\
    forall j, (i <= j < k)%nat -> p j = false.
Proof.
  induction todo as [|n IH]; intros i k; simpl.
  - split; [discriminate|]. intros [H _]. lia.
  - destruct (p i) eqn:E.
    + split.
      * intros [= <-]. split; [lia|]. split; [exact E|]. intros j Hj. lia.
      * intros (H1 & H2 & H3). f_equal.
        destruct (Nat.eq_dec i k) as [->|N]; [reflexivity|].
        rewrite (H3 i) in E by lia. discriminate.
    + rewrite IH. split.
      * intros (H1 & H2 & H3). split; [lia|]. split; [exact H2|].
        intros j Hj. destruct (Nat.eq_dec j i) as [->|N]; [exact E|].
        apply H3. lia.
      * intros (H1 & H2 & H3).
        assert (i <> k) by (intros ->; congruence).
        split; [lia|]. split; [exact H2|]. intros j Hj. apply H3. lia.
Qed.

Lemma first_from_None (p : nat -> bool) :
  forall todo i,
    first_from p todo i = None <->
    forall j, (i <= j < i + todo)%nat -> p j = false.
Proof.
  induction todo as [|n IH]; intros i; simpl.
  - split; [intros _ j Hj; lia|reflexivity].
  - destruct (p i) eqn:E.
    + split; [discriminate|]. intros H. rewrite (H i) in E by lia. discriminate.
    + rewrite IH. split.
      * intros H j Hj. destruct (Nat.eq_dec j i) as [->|N]; [exact E|].
        apply H. lia.
      * intros H j Hj. apply H. lia.
Qed.

Lemma insert_ts_In (x y : Smurfing.entry) (l : list Smurfing.entry) :
  In y (Smurfing.insert_ts x l) <-> y = x \/ In y l.
Proof.
  induction l as [|z t IH]; simpl; [intuition congruence|].
  destruct (Smurfing.ts z <? Smurfing.ts x)%Z; simpl; [rewrite IH|];
    intuition congruence.
Qed.

Lemma insert_ts_sorted (x : Smurfing.entry) (l : list Smurfing.entry) :
  StronglySorted ts_le l -> StronglySorted ts_le (Smurfing.insert_ts x l).
Proof.
  induction 1 as [|z t St IH Fz]; simpl.
  - constructor; constructor.
  - destruct (Smurfing.ts z <? Smurfing.ts x)%Z eqn:E.
    + apply Z.ltb_lt in E. constructor; [exact IH|].
      apply Forall_forall. intros y Hy. apply insert_ts_In in Hy as [->|Hy].
      * unfold ts_le. lia.
      * rewrite Forall_forall in Fz. now apply Fz.
    + apply Z.ltb_ge in E. constructor; [now constructor|].
      constructor; [exact E|]. revert Fz. apply Forall_impl.
      intros y Hy. unfold ts_le in *. lia.
Qed.

Lemma insert_ts_perm (x : Smurfing.entry) (l : list Smurfing.entry) :
  Permutation (x :: l) (Smurfing.insert_ts x l).
Proof.
  induction l as [|z t IH]; simpl; [reflexivity|].
  destruct (Smurfing.ts z <? Smurfing.ts x)%Z; [|reflexivity].
  rewrite perm_swap. now apply perm_skip.
Qed.

Lemma sort_ts_perm (l : list Smurfing.entry) : Permutation l (Smurfing.sort_ts l).
Proof.
  induction l as [|x t IH]; simpl; [constructor|].
  rewrite <- insert_ts_perm. now apply perm_skip.
Qed.

Lemma sort_ts_strongly_sorted (l : list Smurfing.entry) :
  StronglySorted ts_le (Smurfing.sort_ts l).
Proof.
  induction l as [|x t IH]; simpl; [constructor|].
  now apply insert_ts_sorted.
Qed.

Lemma strongly_sorted_by_ts (l : list Smurfing.entry) :
  StronglySorted ts_le l -> sorted_by_ts l.
Proof.
  induction 1 as [|x t St IH Fx]; intros j k ej ek L Ej Ek.
  - destruct j; discriminate.
  - destruct j as [|j], k as [|k]; simpl in *.
    + assert (ej = ek) by congruence. subst. lia.
    + injection Ej as <-. rewrite Forall_forall in Fx.
      apply Fx. eapply nth_error_In; eauto.
    + lia.
    + apply (IH j k); auto. lia.
Qed.

Lemma sort_ts_sorted (l : list Smurfing.entry) : sorted_by_ts (Smurfing.sort_ts l).
Proof. apply strongly_sorted_by_ts, sort_ts_strongly_sorted. Qed.

Lemma distinct_In (l : list account) (x : account) :
  In x (distinct l) <-> In x l.
Proof.
  induction l as [|y t IH]; simpl; [tauto|].
  rewrite filter_In, IH. destruct (String.eqb_spec x y) as [->|N]; simpl.
  - intuition congruence.
  - intuition congruence.
Qed.

Lemma distinct_NoDup (l : list account) : NoDup (distinct l).
Proof.
  induction l as [|y t IH]; simpl; [constructor|].
  constructor.
  - rewrite filter_In, String.eqb_refl. simpl. intros [_ H]. discriminate.
  - now apply NoDup_filter.
Qed.



Lemma detect_first_reaching (threshold : nat) (l : list Smurfing.entry) :
  Smurfing.detect threshold l
  = match first_reaching threshold (Smurfing.sort_ts l) with
    | Some k => Some (parties_within (Smurfing.sort_ts l) k,
                      Smurfing.ts_at (Smurfing.sort_ts l) k)
    | None => None
    end.
Proof.
  unfold Smurfing.detect, first_reaching.
  apply scan_first_reaching; [apply sort_ts_sorted|reflexivity|lia|].
  intros j Hj. lia.
Qed.

Lemma fan_in_fold (groups : Smurfing.fan_t) :
  forall out,
    fold_left Smurfing.fan_in_step groups out
    = (fst out ++ flat_map fan_in_records_of groups,
       snd out ++ flat_map fan_in_rings_of groups).
Proof.
  induction groups as [|[acc l] t IH]; intros [sa rings]; simpl.
  - now rewrite !app_nil_r.
  - rewrite IH. unfold Smurfing.fan_in_step, fan_in_records_of, fan_in_rings_of.
    simpl. destruct (Smurfing.detect _ l) as [[p ts]|]; simpl.
    + now rewrite <- !app_assoc.
    + reflexivity.
Qed.

Lemma fan_out_fold (groups : Smurfing.fan_t) :
  forall out,
    fold_left Smurfing.fan_out_step groups out
    = (fst out ++ flat_map fan_out_records_of groups,
       snd out ++ flat_map fan_out_rings_of groups).
Proof.
  induction groups as [|[acc l] t IH]; intros [sa rings]; simpl.
  - now rewrite !app_nil_r.
  - rewrite IH. unfold Smurfing.fan_out_step, fan_out_records_of, fan_out_rings_of.
    simpl. destruct (Smurfing.detect _ l) as [[p ts]|]; simpl.
    + now rewrite <- !app_assoc.
    + reflexivity.
Qed.

Lemma smurfing_run_output {py : PyLib} (txns : list transaction)
  (fi fo : Smurfing.fan_t) :
  Smurfing.group txns = Ok (fi, fo) ->
  Smurfing.run txns
  = Ok {| suspicious_accounts :=
            flat_map fan_in_records_of fi ++ flat_map fan_out_records_of fo;
          fraud_rings :=
            flat_map fan_in_rings_of fi ++ flat_map fan_out_rings_of fo |}.
Proof.
  intros E. unfold Smurfing.run. rewrite E. cbn [bind fst snd].
  now rewrite fan_in_fold, fan_out_fold.
Qed.

Lemma group_keys_NoDup {py : PyLib} (txns : list transaction)
  (fi fo : Smurfing.fan_t) :
  Smurfing.group txns = Ok (fi, fo) ->
  NoDup (map fst fi) /\ NoDup (map fst fo).
Proof.
  unfold Smurfing.group.
  apply (for_each_inv _
           (fun st => NoDup (map fst (fst st)) /\ NoDup (map fst (snd st)))).
  - intros [a b] txn [a' b'] _ [Ha Hb]. unfold Smurfing.group_step.
    intros E. apply bind_Ok in E as (q & _ & E).
    destruct (parse_ts _); [|now injection E as <- <-].
    destruct (truthy _ && truthy _); injection E as <- <-; [|tauto].
    simpl in *. split; now apply alist_upsert_NoDup.
  - simpl. split; constructor.
Qed.

Lemma filter_flat_map_key {V B : Type} (f : account * V -> list B)
  (p : B -> bool) (l : list (account * V)) (k : account) (v : V) :
  NoDup (map fst l) -> In (k, v) l ->
  (forall k' v' b, k' <> k -> In b (f (k', v')) -> p b = false) ->
  (forall b, In b (f (k, v)) -> p b = true) ->
  filter p (flat_map f l) = f (k, v).
Proof.
  intros D I Other Same. induction l as [|[k' v'] t IH]; [destruct I|].
  simpl in *. inversion D as [|? ? N D']; subst. rewrite filter_app.
  destruct I as [E|I].
  - injection E as -> ->.
    rewrite (forallb_filter_id p (f (k, v))) by (now apply forallb_forall).
    rewrite (filter_none p (flat_map f t)); [now rewrite app_nil_r|].
    intros j b Eb. apply nth_error_In in Eb.
    apply in_flat_map in Eb as ([k2 v2] & H2 & Hb).
    apply (Other k2 v2); [|exact Hb]. intros ->. apply N.
    now apply (in_map fst) in H2.
  - rewrite (filter_none p (f (k', v'))).
    + now apply IH.
    + intros j b Eb. apply nth_error_In in Eb. apply (Other k' v'); [|exact Eb].
      intros ->. apply N. now apply (in_map fst) in I.
Qed.

Lemma filter_flat_map_none {A B : Type} (f : A -> list B) (p : B -> bool)
  (l : list A) :
  (forall x b, In b (f x) -> p b = false) -> filter p (flat_map f l) = [].
Proof.
  intros H. apply filter_none. intros j b Eb. apply nth_error_In in Eb.
  apply in_flat_map in Eb as (x & _ & Hb). now apply (H x).
Qed.

Lemma in_id_eqb (a b : account) :
  String.eqb ("SMURF_IN_" ++ a) ("SMURF_IN_" ++ b) = String.eqb a b.
Proof. reflexivity. Qed.

Lemma out_id_eqb (a b : account) :
  String.eqb ("SMURF_OUT_" ++ a) ("SMURF_OUT_" ++ b) = String.eqb a b.
Proof. reflexivity. Qed.

Lemma in_out_id_eqb (a b : account) :
  String.eqb ("SMURF_IN_" ++ a) ("SMURF_OUT_" ++ b) = false.
Proof. reflexivity. Qed.

Lemma out_in_id_eqb (a b : account) :
  String.eqb ("SMURF_OUT_" ++ a) ("SMURF_IN_" ++ b) = false.
Proof. reflexivity. Qed.

Lemma fan_in_of_account {py : PyLib} (txns : list transaction)
  (fi fo : Smurfing.fan_t) (res : result) (acc : account)
  (l : list Smurfing.entry) :
  Smurfing.group txns = Ok (fi, fo) -> Smurfing.run txns = Ok res ->
  In (acc, l) fi ->
  rings_with_id ("SMURF_IN_" ++ acc) res = fan_in_rings_of (acc, l) /\
  records_with_ring ("SMURF_IN_" ++ acc) res = fan_in_records_of (acc, l).
Proof.
  intros G R I. rewrite (smurfing_run_output _ _ _ G) in R. injection R as <-.
  destruct (group_keys_NoDup _ _ _ G) as [Di Do].
  unfold rings_with_id, records_with_ring. simpl. rewrite !filter_app.
  split.
  - rewrite (filter_flat_map_key fan_in_rings_of _ fi acc l Di I).
    + rewrite filter_flat_map_none; [apply app_nil_r|].
      intros [a x] b. unfold fan_out_rings_of. simpl.
      destruct (Smurfing.detect _ x) as [[p t]|]; [|intros []].
      intros [<-|[]]. apply out_in_id_eqb.
    + intros k' v' b N. unfold fan_in_rings_of. simpl.
      destruct (Smurfing.detect _ v') as [[p t]|]; [|intros []].
      intros [<-|[]]. simpl. now apply String.eqb_neq.
    + intros b. unfold fan_in_rings_of. simpl.
      destruct (Smurfing.detect _ l) as [[p t]|]; [|intros []].
      intros [<-|[]]. apply String.eqb_refl.
  - rewrite (filter_flat_map_key fan_in_records_of _ fi acc l Di I).
    + rewrite filter_flat_map_none; [apply app_nil_r|].
      intros [a x] b. unfold fan_out_records_of. simpl.
      destruct (Smurfing.detect _ x) as [[p t]|]; [|intros []].
      intros [<-|[]]. apply out_in_id_eqb.
    + intros k' v' b N. unfold fan_in_records_of. simpl.
      destruct (Smurfing.detect _ v') as [[p t]|]; [|intros []].
      intros [<-|[]]. simpl. now apply String.eqb_neq.
    + intros b. unfold fan_in_records_of. simpl.
      destruct (Smurfing.detect _ l) as [[p t]|]; [|intros []].
      intros [<-|[]]. apply String.eqb_refl.
Qed.

Lemma fan_out_of_account {py : PyLib} (txns : list transaction)
  (fi fo : Smurfing.fan_t) (res : result) (acc : account)
  (l : list Smurfing.entry) :
  Smurfing.group txns = Ok (fi, fo) -> Smurfing.run txns = Ok res ->
  In (acc, l) fo ->
  rings_with_id ("SMURF_OUT_" ++ acc) res = fan_out_rings_of (acc, l) /\
  records_with_ring ("SMURF_OUT_" ++ acc) res = fan_out_records_of (acc, l).
Proof.
  intros G R I. rewrite (smurfing_run_output _ _ _ G) in R. injection R as <-.
  destruct (group_keys_NoDup _ _ _ G) as [Di Do].
  unfold rings_with_id, records_with_ring. simpl. rewrite !filter_app.
  split.
  - rewrite (filter_flat_map_key fan_out_rings_of _ fo acc l Do I).
    + rewrite filter_flat_map_none; [reflexivity|].
      intros [a x] b. unfold fan_in_rings_of. simpl.
      destruct (Smurfing.detect _ x) as [[p t]|]; [|intros []].
      intros [<-|[]]. apply in_out_id_eqb.
    + intros k' v' b N. unfold fan_out_rings_of. simpl.
      destruct (Smurfing.detect _ v') as [[p t]|]; [|intros []].
      intros [<-|[]]. simpl. now apply String.eqb_neq.
    + intros b. unfold fan_out_rings_of. simpl.
      destruct (Smurfing.detect _ l) as [[p t]|]; [|intros []].
      intros [<-|[]]. apply String.eqb_refl.
  - rewrite (filter_flat_map_key fan_out_records_of _ fo acc l Do I).
    + rewrite filter_flat_map_none; [reflexivity|].
      intros [a x] b. unfold fan_in_records_of. simpl.
      destruct (Smurfing.detect _ x) as [[p t]|]; [|intros []].
      intros [<-|[]]. apply in_out_id_eqb.
    + intros k' v' b N. unfold fan_out_records_of. simpl.
      destruct (Smurfing.detect _ v') as [[p t]|]; [|intros []].
      intros [<-|[]]. simpl. now apply String.eqb_neq.
    + intros b. unfold fan_out_records_of. simpl.
      destruct (Smurfing.detect _ l) as [[p t]|]; [|intros []].
      intros [<-|[]]. apply String.eqb_refl.
Qed.




(** ** Records without a timestamp in the smurfing detector *)

Lemma group_step_untimed {py : PyLib} (st st' : Smurfing.fan_t * Smurfing.fan_t)
  (txn : transaction) :
  has_ts txn = false -> Smurfing.group_step st txn = Ok st' -> st' = st.
Proof.
  unfold has_ts, Smurfing.group_step. intros H E.
  apply bind_Ok in E as (q & _ & E).
  destruct (parse_ts (timestamp txn)); [discriminate|]. congruence.
Qed.

Lemma group_filter_timed {py : PyLib} (txns : list transaction) :
  forall st st',
    for_each Smurfing.group_step txns st = Ok st' ->
    for_each Smurfing.group_step (filter has_ts txns) st = Ok st'.
Proof.
  induction txns as [|txn t IH]; intros st st' E; cbn [for_each filter] in *;
    [exact E|].
  apply bind_Ok in E as (s1 & E1 & E2).
  destruct (has_ts txn) eqn:H.
  - cbn [for_each]. rewrite E1. cbn [bind]. now apply IH.
  - rewrite (group_step_untimed _ _ _ H E1) in E2. now apply IH.
Qed.

Lemma truthy_Some (s : option string) :
  truthy s = true -> s = Some (id_of s).
Proof. destruct s; simpl; [reflexivity|discriminate]. Qed.

Lemma alist_append_In {V : Type} (key k : account) (x : V) (l : list V)
  (m : list (account * list V)) :
  In (k, l) (alist_append account_eq_dec key x m) ->
  In (k, l) m \/ (k = key /\ exists l0, l = l0 ++ [x] /\ (l0 = [] \/ In (key, l0) m)).
Proof.
  unfold alist_append. induction m as [|[k' v] t IH]; simpl.
  - intros [E|[]]. injection E as <- <-. right. split; [reflexivity|].
    exists []. auto.
  - destruct (account_eq_dec k' key) as [->|N]; simpl.
    + intros [E|I]; [|tauto]. injection E as <- <-. right.
      split; [reflexivity|]. exists v. auto.
    + intros [E|I]; [tauto|]. destruct (IH I) as [H|(-> & l0 & -> & H)]; [tauto|].
      right. split; [reflexivity|]. exists l0. tauto.
Qed.

Lemma group_append_ok {py : PyLib} (txns : list transaction)
  (m : Smurfing.fan_t) (key : account) (e : Smurfing.entry) :
  timed_party txns key -> timed_party txns (Smurfing.party e) ->
  group_ok txns m -> group_ok txns (alist_append account_eq_dec key e m).
Proof.
  intros Hk He Hm k l I.
  apply alist_append_In in I as [I|(-> & l0 & -> & [->|I])].
  - now apply Hm.
  - split; [exact Hk|]. simpl. now apply Forall_one.
  - split; [exact Hk|]. apply Forall_app. split; [|now apply Forall_one].
    now apply (Hm key l0).
Qed.

Lemma group_timed_parties {py : PyLib} (txns : list transaction)
  (fi fo : Smurfing.fan_t) :
  Smurfing.group txns = Ok (fi, fo) -> group_ok txns fi /\ group_ok txns fo.
Proof.
  unfold Smurfing.group.
  apply (for_each_inv _
           (fun st => group_ok txns (fst st) /\ group_ok txns (snd st))).
  - intros [a b] txn [a' b'] I [Ha Hb]. unfold Smurfing.group_step.
    intros E. apply bind_Ok in E as (q & _ & E).
    destruct (parse_ts (timestamp txn)) as [t|] eqn:P;
      [|now injection E as <- <-].
    destruct (truthy (sender_id txn)) eqn:Ts;
      [|injection E as <- <-; tauto].
    destruct (truthy (receiver_id txn)) eqn:Tr;
      injection E as <- <-; [|tauto].
    assert (Hs : timed_party txns (id_of (sender_id txn))).
    { exists txn. split; [exact I|]. unfold has_ts. rewrite P.
      split; [reflexivity|]. left. now apply truthy_Some. }
    assert (Hr : timed_party txns (id_of (receiver_id txn))).
    { exists txn. split; [exact I|]. unfold has_ts. rewrite P.
      split; [reflexivity|]. right. now apply truthy_Some. }
    simpl in *. split; apply group_append_ok; auto.
  - split; intros k l [].
Qed.

Lemma detect_parties (threshold : nat) (l : list Smurfing.entry)
  (p : list account) (t : datetime) :
  Smurfing.detect threshold l = Some (p, t) ->
  incl p (map Smurfing.party l).
Proof.
  rewrite detect_first_reaching.
  destruct (first_reaching _ _) as [k|]; [|discriminate].
  intros [= <- _] x Hx. unfold parties_within in Hx.
  apply (proj1 (distinct_In _ _)) in Hx. apply in_map_iff in Hx as (e & <- & He).
  apply in_map. unfold within_window in He. apply filter_In in He as [He _].
  apply (Permutation_in e (Permutation_sym (sort_ts_perm l))).
  rewrite <- (firstn_skipn (S k) (Smurfing.sort_ts l)).
  apply in_or_app. now left.
Qed.

(** C10: the smurfing detector returns what it returns on the batch
    without the records whose timestamp is missing or does not parse; and
    an account that only such records name is the account of no suspicious
    record and a member of no ring. *)
Theorem smurfing_ignores_untimed {py : PyLib} (txns : list transaction)
  (res : result) :
  Smurfing.run txns = Ok res ->
  Smurfing.run (filter has_ts txns) = Ok res /\
  forall a,
    (forall txn, In txn txns ->
       sender_id txn = Some a \/ receiver_id txn = Some a ->
       has_ts txn = false) ->
    (forall sa, In sa (suspicious_accounts res) -> account_id sa <> a) /\
    (forall r, In r (fraud_rings res) -> ~ In a (member_accounts r)).
Proof.
  intros R. pose proof R as R0. unfold Smurfing.run in R.
  apply bind_Ok in R as ([fi fo] & G & _).
  split.
  - rewrite <- R0. rewrite (smurfing_run_output _ _ _ G).
    apply smurfing_run_output. now apply group_filter_timed.
  - intros a Ha.
    assert (Not : ~ timed_party txns a).
    { intros (txn & I & T & S). rewrite (Ha txn I S) in T. discriminate. }
    destruct (group_timed_parties _ _ _ G) as [Hi Ho].
    rewrite (smurfing_run_output _ _ _ G) in R0. injection R0 as <-.
    simpl. split.
    + intros sa I E. apply Not. apply in_app_or in I as [I|I];
        apply in_flat_map in I as ([k l] & Hk & Hsa).
      * unfold fan_in_records_of in Hsa. simpl in Hsa.
        destruct (Smurfing.detect _ l); [|destruct Hsa].
        destruct Hsa as [<-|[]]. simpl in E. subst. now apply (Hi a l).
      * unfold fan_out_records_of in Hsa. simpl in Hsa.
        destruct (Smurfing.detect _ l); [|destruct Hsa].
        destruct Hsa as [<-|[]]. simpl in E. subst. now apply (Ho a l).
    + intros r I M. apply Not. apply in_app_or in I as [I|I];
        apply in_flat_map in I as ([k l] & Hk & Hr).
      * unfold fan_in_rings_of in Hr. simpl in Hr.
        destruct (Smurfing.detect _ l) as [[p t]|] eqn:D; [|destruct Hr].
        destruct Hr as [<-|[]]. simpl in M.
        destruct (Hi k l Hk) as [Kk Kl].
        apply in_app_or in M as [M|[<-|[]]]; [|exact Kk].
        apply (detect_parties _ _ _ _ D) in M.
        apply in_map_iff in M as (e & <- & He).
        rewrite Forall_forall in Kl. now apply Kl.
      * unfold fan_out_rings_of in Hr. simpl in Hr.
        destruct (Smurfing.detect _ l) as [[p t]|] eqn:D; [|destruct Hr].
        destruct Hr as [<-|[]]. simpl in M.
        destruct (Ho k l Hk) as [Kk Kl].
        destruct M as [<-|M]; [exact Kk|].
        apply (detect_parties _ _ _ _ D) in M.
        apply in_map_iff in M as (e & <- & He).
        rewrite Forall_forall in Kl. now apply Kl.
Qed.

Lemma smurfing_ignores_untimed_witness :
  exists res,
    @Smurfing.run Ref.py (Batch.untimed_fan_in 12 "Aggregator") = Ok res /\
    @Smurfing.run Ref.py
      (filter (@has_ts Ref.py) (Batch.untimed_fan_in 12 "Aggregator")) = Ok res /\
    (forall sa, In sa (suspicious_accounts res) -> account_id sa <> "Aggregator") /\
    (forall r, In r (fraud_rings res) -> ~ In "Aggregator" (member_accounts r)).
Proof.
  match eval vm_compute in
        (@Smurfing.run Ref.py (Batch.untimed_fan_in 12 "Aggregator")) with
  | Ok ?res =>
      exists res;
      destruct (@smurfing_ignores_untimed Ref.py
                  (Batch.untimed_fan_in 12 "Aggregator") res) as [F N];
      [vm_compute; reflexivity|]
  end.
  split; [vm_compute; reflexivity|]. split; [exact F|].
  apply N. intros txn I _. vm_compute in I.
  repeat (destruct I as [<-|I]; [vm_compute; reflexivity|]). destruct I.
Defined.

(** ** Self-transactions *)

(** C4 (the code departs from it): a record from an account to itself
    is dropped by [build_graph] of the circular detector, but it enters
    the graph and the counts of the shell detector and both groupings of
    the smurfing detector.  With nine senders to one receiver, the
    receiver's transfer to itself is the tenth distinct sender and the
    receiver is flagged; with A -> A, A -> B, B -> B the two self-loops
    make A and B shell candidates and a shell ring. *)
Theorem self_transaction_not_discarded :
  @Circular.build_graph Ref.py [Batch.self_txn "A"] Circular.init
  = Circular.init /\
  Shell.build [Batch.self_txn "A"]
  = ({| nodes := ["A"]; edges := [(("A", "A"), tt)] |}, [("A", 2%nat)]) /\
  (exists e,
     @Smurfing.group Ref.py [Batch.self_txn "A"]
     = Ok ([("A", [e])], [("A", [e])]) /\ Smurfing.party e = "A") /\
  (exists res,
     @Smurfing.run Ref.py (Batch.nine_and_self "Agg") = Ok res /\
     map member_accounts (fraud_rings res)
     = [["User_0"; "User_1"; "User_2"; "User_3"; "User_4"; "User_5";
         "User_6"; "User_7"; "User_8"; "Agg"; "Agg"]] /\
     map account_id (suspicious_accounts res) = ["Agg"]) /\
  @Smurfing.run Ref.py (Batch.fan_in 9 "Agg")
  = Ok {| suspicious_accounts := []; fraud_rings := [] |} /\
  map member_accounts (fraud_rings (@Shell.run Ref.nx Batch.self_loops))
  = [["A"; "B"]] /\
  @Shell.run Ref.nx [Batch.txn "A" "B" 50 "2023-01-01 10:00:00"]
  = {| suspicious_accounts := []; fraud_rings := [] |}.
Proof.
  split; [vm_compute; reflexivity|].
  split; [vm_compute; reflexivity|].
  split; [eexists; split; vm_compute; reflexivity|].
  split; [eexists; split; [vm_compute; reflexivity|];
          split; vm_compute; reflexivity|].
  split; [vm_compute; reflexivity|].
  split; vm_compute; reflexivity.
Qed.

(** ** Amounts that do not parse *)

Lemma for_each_raise {A S : Type} (body : S -> A -> outcome S) (l : list A)
  (x : A) :
  In x l -> (forall st, exists e, body st x = Raise e) ->
  forall st, exists e, for_each body l st = Raise e.
Proof.
  intros I H. induction l as [|y t IH]; [destruct I|].
  intros st. simpl. destruct I as [->|I].
  - destruct (H st) as [e ->]. simpl. eauto.
  - destruct (body st y) as [st'|e]; simpl; [now apply IH|eauto].
Qed.

(** C5 (the code departs from it): [safe_float] of the circular detector
    turns an amount that does not parse into 0.0, but the smurfing
    detector calls [float] unguarded: a batch with such a record, at any
    position, makes its run raise, and with it the whole analysis. *)
Theorem smurfing_raises_on_bad_amount {py : PyLib} {nx : GraphLib}
  (txns : list transaction) (bad : transaction) (s : string) :
  In bad txns -> amount bad = AmountStr s -> float_of_str s = None ->
  safe_float (amount bad) = 0 /\
  (exists e, Smurfing.run txns = Raise e) /\
  (exists e, Server.analyze txns = Raise e).
Proof.
  intros I A F.
  assert (R : exists e, Smurfing.run txns = Raise e).
  { destruct (for_each_raise Smurfing.group_step txns bad I) with (st := (@nil (account * list Smurfing.entry), @nil (account * list Smurfing.entry)))
      as [e E].
    - intros st. unfold Smurfing.group_step, Smurfing.txn_amount.
      rewrite A. unfold py_float. rewrite F. simpl. eauto.
    - exists e. unfold Smurfing.run, Smurfing.group. now rewrite E. }
  split; [|split; [exact R|]].
  - rewrite A. unfold safe_float, py_float. now rewrite F.
  - destruct R as [e R]. unfold Server.analyze.
    destruct (Circular.run txns) as [c|e']; simpl; [|eauto].
    rewrite R. simpl. eauto.
Qed.

Lemma smurfing_raises_on_bad_amount_witness :
  @safe_float Ref.py (amount Batch.bad_amount) = 0 /\
  (exists e, @Smurfing.run Ref.py (Batch.cycle ++ [Batch.bad_amount]) = Raise e) /\
  (exists e,
     @Server.analyze Ref.py Ref.nx (Batch.cycle ++ [Batch.bad_amount]) = Raise e).
Proof.
  apply (@smurfing_raises_on_bad_amount Ref.py Ref.nx
           (Batch.cycle ++ [Batch.bad_amount]) Batch.bad_amount "abc").
  - simpl. auto.
  - reflexivity.
  - vm_compute. reflexivity.
Defined.

(** ** The merge of the three results *)

Lemma merge_get (a : account) (items : list suspicious_account) :
  forall m,
    alist_get account_eq_dec a (fold_left Server.merge_step items m)
    = merged_record (alist_get account_eq_dec a m) (items_of a items).
Proof.
  induction items as [|it t IH]; intros m; simpl; [reflexivity|].
  rewrite IH. unfold Server.merge_step at 1.
  destruct (String.eqb_spec (account_id it) a) as [->|N]; simpl.
  - now rewrite alist_get_upsert_same.
  - rewrite alist_get_upsert_other; [reflexivity|congruence].
Qed.

Lemma merged_record_Some (its : list suspicious_account) :
  forall cur,
    merged_record (Some cur) its
    = Some {| account_id := account_id cur;
              suspicion_score :=
                fold_left py_maxQ (map suspicion_score its) (suspicion_score cur);
              detected_patterns :=
                fold_left Server.set_update (map detected_patterns its)
                          (detected_patterns cur);
              sa_ring_id := sa_ring_id cur |}.
Proof.
  unfold merged_record.
  induction its as [|it t IH]; intros cur; cbn [fold_left map].
  - now destruct cur.
  - rewrite IH. reflexivity.
Qed.

Lemma merged_record_None (it : suspicious_account)
  (its : list suspicious_account) :
  merged_record None (it :: its)
  = Some {| account_id := account_id it;
            suspicion_score :=
              fold_left py_maxQ (map suspicion_score (it :: its)) 0;
            detected_patterns :=
              fold_left Server.set_update (map detected_patterns (it :: its)) [];
            sa_ring_id := sa_ring_id it |}.
Proof.
  change (merged_record None (it :: its))
    with (merged_record (Some (Server.merge_record it None)) its).
  now rewrite merged_record_Some.
Qed.

Lemma fold_max_ge (l : list Q) :
  forall x, x <= fold_left py_maxQ l x /\
            forall y, In y l -> y <= fold_left py_maxQ l x.
Proof.
  induction l as [|z t IH]; simpl; intros x.
  - split; [apply Qle_refl|tauto].
  - destruct (IH (py_maxQ x z)) as [A B]. split.
    + eapply Qle_trans; [apply py_maxQ_ge_l|exact A].
    + intros y [<-|I]; [|now apply B].
      eapply Qle_trans; [apply py_maxQ_ge_r|exact A].
Qed.

Lemma fold_max_attained (l : list Q) :
  (exists y, In y l /\ 0 <= y) ->
  exists y, In y l /\ fold_left py_maxQ l 0 == y.
Proof.
  intros (y & Iy & Py).
  destruct (max_score_of_In l 0) as [E|I].
  - exists y. split; [exact Iy|]. unfold Circular.max_score_of in E.
    rewrite <- E. apply Qle_antisym; [exact Py|].
    destruct (fold_max_ge l 0) as [_ B]. rewrite E. now apply B.
  - exists (fold_left py_maxQ l 0). split; [exact I|reflexivity].
Qed.

Lemma NoDup_snoc {A : Type} (l : list A) (x : A) :
  NoDup l -> ~ In x l -> NoDup (l ++ [x]).
Proof.
  intros D N. apply NoDup_rev in D. rewrite <- (rev_involutive (l ++ [x])).
  apply NoDup_rev. rewrite rev_app_distr. simpl. constructor; [|exact D].
  now rewrite <- in_rev.
Qed.

Lemma set_update_In (l s : list string) (p : string) :
  In p (Server.set_update s l) <-> In p s \/ In p l.
Proof.
  unfold Server.set_update. revert s.
  induction l as [|x t IH]; intros s; simpl; [tauto|].
  rewrite IH. unfold mem. destruct (in_dec account_eq_dec x s) as [I|N].
  - split; [tauto|]. intros [H|[<-|H]]; tauto.
  - rewrite in_app_iff. simpl. tauto.
Qed.

Lemma set_update_NoDup (l s : list string) :
  NoDup s -> NoDup (Server.set_update s l).
Proof.
  unfold Server.set_update. revert s.
  induction l as [|x t IH]; intros s D; simpl; [exact D|].
  apply IH. unfold mem. destruct (in_dec account_eq_dec x s) as [I|N];
    [exact D|].
  now apply NoDup_snoc.
Qed.

Lemma fold_set_update_In (ls : list (list string)) (p : string) :
  forall s,
    In p (fold_left Server.set_update ls s)
    <-> In p s \/ exists l, In l ls /\ In p l.
Proof.
  induction ls as [|l t IH]; intros s; simpl.
  - split; [tauto|]. intros [H|(l & [] & _)]. exact H.
  - rewrite IH, set_update_In. split.
    + intros [[H|H]|(l' & I & H)]; [tauto|right; eauto|right; eauto].
    + intros [H|(l' & [<-|I] & H)]; [tauto|tauto|right; eauto].
Qed.

Lemma fold_set_update_NoDup (ls : list (list string)) :
  forall s, NoDup s -> NoDup (fold_left Server.set_update ls s).
Proof.
  induction ls as [|l t IH]; intros s D; simpl; [exact D|].
  apply IH. now apply set_update_NoDup.
Qed.

Lemma insert_str_perm (x : string) (l : list string) :
  Permutation (x :: l) (insert_str x l).
Proof.
  induction l as [|y t IH]; simpl; [reflexivity|].
  destruct (acc_ltb y x); [|reflexivity].
  rewrite perm_swap. now apply perm_skip.
Qed.

Lemma sorted_str_perm (l : list string) : Permutation l (sorted_str l).
Proof.
  induction l as [|x t IH]; simpl; [constructor|].
  rewrite <- insert_str_perm. now apply perm_skip.
Qed.

Lemma insert_str_sorted (x : string) (l : list string) :
  StronglySorted acc_le l -> StronglySorted acc_le (insert_str x l).
Proof.
  induction 1 as [|y t St IH Fy]; simpl.
  - constructor; constructor.
  - destruct (acc_ltb y x) eqn:E.
    + constructor; [exact IH|].
      apply Forall_forall. intros z Hz.
      apply (Permutation_in z (Permutation_sym (insert_str_perm x t))) in Hz.
      destruct Hz as [<-|Hz]; [now apply acc_lt_le|].
      rewrite Forall_forall in Fy. now apply Fy.
    + constructor; [now constructor|].
      constructor; [exact E|]. revert Fy. apply Forall_impl.
      intros z Hz. now apply acc_le_trans with y.
Qed.

Lemma sorted_str_sorted (l : list string) : StronglySorted acc_le (sorted_str l).
Proof.
  induction l as [|x t IH]; simpl; [constructor|].
  now apply insert_str_sorted.
Qed.

Lemma insert_desc_perm (x : suspicious_account) (l : list suspicious_account) :
  Permutation (x :: l) (Server.insert_desc x l).
Proof.
  induction l as [|y t IH]; simpl; [reflexivity|].
  destruct (Qltb _ _); [|reflexivity].
  rewrite perm_swap. now apply perm_skip.
Qed.

Lemma sort_desc_perm (l : list suspicious_account) :
  Permutation l (Server.sort_desc l).
Proof.
  induction l as [|x t IH]; simpl; [constructor|].
  rewrite <- insert_desc_perm. now apply perm_skip.
Qed.

Lemma insert_desc_sorted (x : suspicious_account) (l : list suspicious_account) :
  StronglySorted score_ge l -> StronglySorted score_ge (Server.insert_desc x l).
Proof.
  induction 1 as [|y t St IH Fy]; simpl.
  - constructor; constructor.
  - destruct (Qltb (suspicion_score x) (suspicion_score y)) eqn:E.
    + apply Qltb_lt in E. constructor; [exact IH|].
      apply Forall_forall. intros z Hz.
      apply (Permutation_in z (Permutation_sym (insert_desc_perm x t))) in Hz.
      destruct Hz as [<-|Hz]; [now apply Qlt_le_weak|].
      rewrite Forall_forall in Fy. now apply Fy.
    + apply Qltb_ge in E. constructor; [now constructor|].
      constructor; [exact E|]. revert Fy. apply Forall_impl.
      intros z Hz. unfold score_ge in *. now apply Qle_trans with (suspicion_score y).
Qed.

Lemma sort_desc_sorted (l : list suspicious_account) :
  StronglySorted score_ge (Server.sort_desc l).
Proof.
  induction l as [|x t IH]; simpl; [constructor|].
  now apply insert_desc_sorted.
Qed.

Lemma items_of_In (a : account) (items : list suspicious_account)
  (it : suspicious_account) :
  In it (items_of a items) <-> In it items /\ account_id it = a.
Proof.
  unfold items_of. rewrite filter_In. now rewrite String.eqb_eq.
Qed.

Lemma merge_keys_NoDup (items : list suspicious_account) :
  NoDup (map fst (Server.merge items)).
Proof.
  unfold Server.merge.
  apply (fold_left_inv _ (fun m => NoDup (map fst m))); [|constructor].
  intros m it _ D. now apply alist_upsert_NoDup.
Qed.

Lemma merge_In (items : list suspicious_account) (k : account)
  (r : suspicious_account) :
  In (k, r) (Server.merge items) ->
  exists it its,
    items_of k items = it :: its /\
    r = {| account_id := account_id it;
           suspicion_score :=
             fold_left py_maxQ (map suspicion_score (it :: its)) 0;
           detected_patterns :=
             fold_left Server.set_update (map detected_patterns (it :: its)) [];
           sa_ring_id := sa_ring_id it |}.
Proof.
  intros I.
  apply (alist_In_get account_eq_dec) in I; [|apply merge_keys_NoDup].
  unfold Server.merge in I. rewrite merge_get in I. simpl in I.
  destruct (items_of k items) as [|it its]; [discriminate|].
  rewrite merged_record_None in I. injection I as <-. eauto.
Qed.

Lemma merge_has (items : list suspicious_account) (it : suspicious_account) :
  In it items -> exists r, In (account_id it, r) (Server.merge items).
Proof.
  intros I.
  assert (In it (items_of (account_id it) items)) as K
    by (apply items_of_In; auto).
  destruct (items_of (account_id it) items) as [|it0 its] eqn:E; [destruct K|].
  eexists. apply (alist_get_In account_eq_dec).
  unfold Server.merge. rewrite merge_get. simpl. rewrite E.
  apply merged_record_None.
Qed.

(** C7: in the merged report, the ring lists are concatenated; the
    account list is sorted by score, greatest first, and holds one record
    for each account id of the three lists; the score of that record is at
    least the score of every item of the account and, the engines' scores
    being non-negative, is the score of one of them (their maximum); its
    tags are the tags of the items of the account, each once, in order. *)
Theorem aggregate_merges_by_account (c s sh : result) :
  let items :=
    suspicious_accounts c ++ suspicious_accounts s ++ suspicious_accounts sh in
  let out := Server.aggregate c s sh in
  fraud_rings out = fraud_rings c ++ fraud_rings s ++ fraud_rings sh /\
  StronglySorted score_ge (suspicious_accounts out) /\
  NoDup (map account_id (suspicious_accounts out)) /\
  (forall a, In a (map account_id items)
             <-> In a (map account_id (suspicious_accounts out))) /\
  forall rec, In rec (suspicious_accounts out) ->
    let mine := items_of (account_id rec) items in
    (forall it, In it mine -> suspicion_score it <= suspicion_score rec) /\
    ((exists it, In it mine /\ 0 <= suspicion_score it) ->
     exists it, In it mine /\ suspicion_score rec == suspicion_score it) /\
    (forall p, In p (detected_patterns rec)
               <-> exists it, In it mine /\ In p (detected_patterns it)) /\
    NoDup (detected_patterns rec) /\
    StronglySorted acc_le (detected_patterns rec).
Proof.
  intros items out.
  assert (Out : Permutation (map (fun kv => Server.finish (snd kv))
                                 (Server.merge items))
                            (suspicious_accounts out))
    by apply sort_desc_perm.
  assert (Rec : forall rec, In rec (suspicious_accounts out) ->
            exists k r, In (k, r) (Server.merge items) /\ rec = Server.finish r).
  { intros rec I. apply (Permutation_in rec (Permutation_sym Out)) in I.
    apply in_map_iff in I as ([k r] & <- & I). eauto. }
  assert (Ids : map account_id (map (fun kv => Server.finish (snd kv))
                                    (Server.merge items))
                = map fst (Server.merge items)).
  { rewrite map_map. apply map_ext_in. intros [k r] I.
    destruct (merge_In _ _ _ I) as (it & its & E & ->). simpl.
    assert (In it (items_of k items)) as K by (rewrite E; now left).
    now apply items_of_In in K. }
  split; [reflexivity|]. split; [apply sort_desc_sorted|]. split; [|split].
  - apply (Permutation_NoDup (Permutation_map account_id Out)).
    rewrite Ids. apply merge_keys_NoDup.
  - intros a. split.
    + intros I. apply in_map_iff in I as (it & <- & I).
      destruct (merge_has items it I) as [r Hr].
      apply (Permutation_in _ (Permutation_map account_id Out)).
      rewrite Ids. now apply (in_map fst) in Hr.
    + intros I.
      apply (Permutation_in _ (Permutation_sym (Permutation_map account_id Out)))
        in I.
      rewrite Ids in I. apply in_map_iff in I as ([k r] & <- & I).
      destruct (merge_In _ _ _ I) as (it & its & E & _). simpl.
      assert (In it (items_of k items)) as K by (rewrite E; now left).
      apply items_of_In in K as [K <-]. now apply in_map.
  - intros rec I mine.
    destruct (Rec rec I) as (k & r & Hr & ->).
    destruct (merge_In _ _ _ Hr) as (it & its & E & ->).
    assert (In it (items_of k items)) as K by (rewrite E; now left).
    apply items_of_In in K as [_ Ek].
    assert (Em : mine = it :: its).
    { unfold mine. simpl. now rewrite Ek. }
    clearbody mine. subst mine. cbn [Server.finish suspicion_score detected_patterns].
    split; [|split; [|split; [|split]]].
    + intros x Hx. apply (fold_max_ge (map suspicion_score (it :: its)) 0).
      now apply in_map.
    + intros (x & Hx & Px).
      destruct (fold_max_attained (map suspicion_score (it :: its)))
        as (y & Hy & Ey).
      { exists (suspicion_score x). split; [now apply in_map|exact Px]. }
      apply in_map_iff in Hy as (x' & <- & Hx'). eauto.
    + intros p.
      split.
      * intros Hp.
        apply (Permutation_in p (Permutation_sym (sorted_str_perm _))) in Hp.
        apply fold_set_update_In in Hp as [[]|(l & Hl & Hp)].
        apply in_map_iff in Hl as (x & <- & Hx). eauto.
      * intros (x & Hx & Hp).
        apply (Permutation_in p (sorted_str_perm _)).
        apply fold_set_update_In. right. exists (detected_patterns x).
        split; [now apply in_map|exact Hp].
    + apply (Permutation_NoDup (sorted_str_perm _)).
      apply fold_set_update_NoDup. constructor.
    + apply sorted_str_sorted.
Qed.

Lemma aggregate_merges_by_account_witness :
  exists rec,
    suspicious_accounts
      (Server.aggregate Batch.flagged_70 Batch.flagged_85 Batch.nothing) = [rec] /\
    account_id rec = "X" /\
    suspicion_score rec == 85 /\
    detected_patterns rec = ["cycle_length_3"; "fan_in"; "shell_account"].
Proof.
  destruct (aggregate_merges_by_account
              Batch.flagged_70 Batch.flagged_85 Batch.nothing)
    as (_ & _ & _ & _ & H).
  match eval vm_compute in
        (suspicious_accounts
           (Server.aggregate Batch.flagged_70 Batch.flagged_85 Batch.nothing))
  with
  | [?rec] =>
      exists rec; destruct (H rec) as (Ge & At & _);
      [vm_compute; left; reflexivity|]
  end.
  split; [vm_compute; reflexivity|]. split; [reflexivity|].
  split; [|vm_compute; reflexivity].
  destruct At as (it & I & E).
  - eexists. split; [vm_compute; left; reflexivity|]. discriminate.
  - vm_compute in I. destruct I as [<-|[<-|[]]]; [|exact E].
    exfalso. revert E. vm_compute. discriminate.
Defined.

(** ** The shell detector *)

Lemma mem_In (x : account) (l : list account) : mem x l = true <-> In x l.
Proof.
  unfold mem. destruct (in_dec account_eq_dec x l); split; auto; discriminate.
Qed.

Lemma subgraph_nodes {A : Type} (g : DiGraph A) (ns : list account) :
  incl (nodes (subgraph g ns)) ns.
Proof.
  intros n I. simpl in I. apply filter_In in I as [_ I]. now apply mem_In.
Qed.

Lemma bump_count (n a : account) (counts : Shell.counts_t) :
  count_of (Shell.bump n counts) a
  = (count_of counts a + (if String.eqb n a then 1 else 0))%nat.
Proof.
  unfold count_of, Shell.bump.
  destruct (String.eqb_spec n a) as [->|N].
  - rewrite alist_get_upsert_same.
    destruct (alist_get account_eq_dec a counts); lia.
  - rewrite alist_get_upsert_other by congruence. lia.
Qed.

Lemma build_counts (a : account) (txns : list transaction) :
  forall st,
    count_of (snd (fold_left Shell.build_step txns st)) a
    = (count_of (snd st) a + txn_count txns a)%nat.
Proof.
  unfold txn_count.
  induction txns as [|txn t IH]; intros st; simpl; [lia|].
  rewrite IH. unfold Shell.build_step at 1, txn_weight.
  destruct (truthy (sender_id txn) && truthy (receiver_id txn)); simpl.
  - rewrite !bump_count. lia.
  - lia.
Qed.

Lemma build_keys_NoDup (txns : list transaction) :
  NoDup (map fst (snd (Shell.build txns))).
Proof.
  unfold Shell.build.
  apply (fold_left_inv _ (fun st => NoDup (map fst (snd st)))); [|constructor].
  intros st txn _ D. unfold Shell.build_step.
  destruct (truthy _ && truthy _); [|exact D]. simpl.
  unfold Shell.bump. now repeat apply alist_upsert_NoDup.
Qed.

Lemma shells_counted (txns : list transaction) (m : account) :
  In m (Shell.shells_of (snd (Shell.build txns))) ->
  (2 <= txn_count txns m <= 3)%nat.
Proof.
  unfold Shell.shells_of. intros I.
  apply in_map_iff in I as ([k c] & <- & I). apply filter_In in I as [I B].
  cbn [fst snd] in *.
  apply (alist_In_get account_eq_dec) in I; [|apply build_keys_NoDup].
  pose proof (build_counts k txns (empty_graph, [])) as C.
  fold (Shell.build txns) in C. unfold count_of at 1 in C. rewrite I in C.
  change (count_of (snd (empty_graph, [])) k) with 0%nat in C.
  apply andb_prop in B as [B1 B2].
  apply Nat.leb_le in B1, B2. lia.
Qed.

Section ShellRun.
Context {nx : GraphLib}.
Hypothesis paths_in_graph :
  forall (G : DiGraph unit) (s : account) (ts p : list account),
    In p (all_simple_paths G s ts) -> incl p (nodes G).

Lemma find_chain_spec (graph comp_sub : DiGraph unit)
  (component starts chain : list account) :
  Shell.find_chain graph comp_sub component starts = Some chain ->
  (2 <= List.length chain)%nat /\ incl chain (nodes comp_sub).
Proof.
  induction starts as [|s t IH]; simpl; [discriminate|].
  destruct (find _ _) as [p|] eqn:F; [|exact IH].
  intros [= <-]. apply find_some in F as [I V]. split.
  - unfold Shell.valid_path in V.
    apply andb_prop in V as [V _]. apply andb_prop in V as [V _].
    now apply Nat.leb_le in V.
  - now apply paths_in_graph in I.
Qed.
End ShellRun.

Lemma subgraph_nodes_sub {A : Type} (g : DiGraph A) (ns : list account) :
  incl (nodes (subgraph g ns)) (nodes g).
Proof. intros n I. simpl in I. now apply filter_In in I as [I _]. Qed.

Lemma mark_member_eq (rid : string) (s : list suspicious_account)
  (d : list account) (m : account) :
  Shell.mark_member rid (s, d) m
  = if mem m d then (s, d)
    else (s ++ [{| account_id := m; suspicion_score := 75;
                   detected_patterns := ["shell_account"];
                   sa_ring_id := rid |}], m :: d).
Proof. reflexivity. Qed.

Lemma mark_members_spec (rid : string) (chain : list account) :
  forall st,
    Forall shell_record_ok (fst st) ->
    map account_id (fst st) = rev (snd st) ->
    NoDup (snd st) ->
    Forall shell_record_ok (fst (fold_left (Shell.mark_member rid) chain st)) /\
    map account_id (fst (fold_left (Shell.mark_member rid) chain st))
    = rev (snd (fold_left (Shell.mark_member rid) chain st)) /\
    NoDup (snd (fold_left (Shell.mark_member rid) chain st)) /\
    incl (snd st) (snd (fold_left (Shell.mark_member rid) chain st)) /\
    incl chain (snd (fold_left (Shell.mark_member rid) chain st)).
Proof.
  induction chain as [|m t IH]; intros [s d] R M D; cbn [fold_left].
  - split; [exact R|]. split; [exact M|]. split; [exact D|].
    split; [apply incl_refl|intros x []].
  - rewrite mark_member_eq. cbn [fst snd] in *.
    destruct (mem m d) eqn:E.
    + destruct (IH (s, d) R M D) as (A & B & C & I1 & I2).
      split; [exact A|]. split; [exact B|]. split; [exact C|].
      split; [exact I1|].
      intros x [<-|Hx]; [|now apply I2]. apply I1. now apply mem_In.
    + destruct (IH (s ++ [{| account_id := m; suspicion_score := 75;
                             detected_patterns := ["shell_account"];
                             sa_ring_id := rid |}], m :: d))
        as (A & B & C & I1 & I2); cbn [fst snd] in *.
      * apply Forall_app. split; [exact R|]. apply Forall_one. now split.
      * rewrite map_app, M. reflexivity.
      * constructor; [|exact D]. intros I. apply mem_In in I. congruence.
      * split; [exact A|]. split; [exact B|]. split; [exact C|]. split.
        -- intros x Hx. apply I1. now right.
        -- intros x [<-|Hx]; [|now apply I2]. apply I1. now left.
Qed.

Section ShellLoop.
Context {nx : GraphLib}.
Hypothesis paths_in_graph :
  forall (G : DiGraph unit) (s : account) (ts p : list account),
    In p (all_simple_paths G s ts) -> incl p (nodes G).

Lemma component_step_ok (graph sub : DiGraph unit) (shells comp : list account)
  (st : list suspicious_account * list fraud_ring * list account) :
  incl (nodes sub) shells ->
  shell_state_ok shells st ->
  shell_state_ok shells (Shell.component_step graph sub st comp).
Proof.
  intros Sub. destruct st as [[s r] d]. intros (R & S & M & D & Mem).
  unfold Shell.component_step. cbn [fst snd] in *.
  destruct (2 <=? List.length comp)%nat; [|repeat split; assumption].
  destruct (Shell.find_chain _ _ _ _) as [chain|] eqn:F;
    [|repeat split; assumption].
  destruct (find_chain_spec paths_in_graph _ _ _ _ _ F) as [L I].
  destruct (mark_members_spec ("SHELL_" ++ hd "" chain) chain (s, d) S M D)
    as (A & B & C & I1 & I2).
  cbn [fst snd] in *.
  unfold shell_state_ok. cbn [fst snd].
  split; [|split; [exact A|split; [exact B|split; [exact C|]]]].
  - apply Forall_app. split; [exact R|]. apply Forall_one.
    unfold shell_ring_ok. cbn [pattern_type risk_score detected_at member_accounts].
    repeat split; auto.
    intros x Hx. apply Sub. apply (subgraph_nodes_sub sub comp). now apply I.
  - intros x Hx. apply in_app_or in Hx as [Hx|[<-|[]]].
    + intros y Hy. apply I1. now apply (Mem x).
    + exact I2.
Qed.

Lemma shell_run_state (txns : list transaction) :
  let shells := Shell.shells_of (snd (Shell.build txns)) in
  exists detected,
    shell_state_ok shells
      (suspicious_accounts (Shell.run txns), fraud_rings (Shell.run txns),
       detected).
Proof.
  intros shells. unfold Shell.run.
  destruct (Shell.build txns) as [graph counts] eqn:B.
  cbn [snd] in shells.
  destruct (Shell.shells_of counts) as [|s0 rest] eqn:E.
  - exists []. subst shells. unfold shell_state_ok. simpl.
    repeat split; try constructor. intros r [].
  - fold shells.
    assert (K : shell_state_ok shells
                  (fold_left (Shell.component_step graph (subgraph graph shells))
                     (weakly_connected_components (subgraph graph shells))
                     ([], [], []))).
    { apply fold_left_inv.
      - intros st comp _ H. apply component_step_ok; [|exact H].
        apply subgraph_nodes.
      - unfold shell_state_ok. simpl. repeat split; try constructor.
        intros r []. }
    destruct (fold_left _ _ _) as [[s r] d]. exists d. exact K.
Qed.
End ShellLoop.

Lemma items_of_unique (m : account) (l : list suspicious_account) :
  NoDup (map account_id l) -> In m (map account_id l) ->
  exists rec, items_of m l = [rec] /\ In rec l.
Proof.
  induction l as [|x t IH]; simpl; intros D I; [destruct I|].
  inversion D as [|? ? N D']; subst. unfold items_of. cbn [filter].
  destruct (String.eqb_spec (account_id x) m) as [E|Ne].
  - exists x. split; [|now left]. f_equal.
    apply filter_none. intros j e He. apply nth_error_In in He.
    apply String.eqb_neq. intros E'. apply N. rewrite E, <- E'.
    now apply in_map.
  - destruct I as [I|I]; [congruence|].
    destruct (IH D' I) as (rec & Hr & Hi). exists rec. split; [exact Hr|now right].
Qed.

(** C8: given that networkx yields paths made of nodes of the graph it
    is asked about, every ring of the shell detector is a
    [shell_network] ring with risk score 75.0, no [detected_at] and at
    least two members; every member has a total transaction count of 2 or
    3 over the batch; and every member has exactly one account record,
    with score 75.0 and the tag [shell_account]. *)
Theorem shell_rings_of_shell_candidates {nx : GraphLib}
  (txns : list transaction) :
  (forall (G : DiGraph unit) (s : account) (ts p : list account),
     In p (all_simple_paths G s ts) -> incl p (nodes G)) ->
  forall r, In r (fraud_rings (Shell.run txns)) ->
    pattern_type r = "shell_network" /\
    risk_score r = 75 /\
    detected_at r = None /\
    (2 <= List.length (member_accounts r))%nat /\
    forall m, In m (member_accounts r) ->
      (2 <= txn_count txns m <= 3)%nat /\
      exists rec,
        records_of m (Shell.run txns) = [rec] /\
        suspicion_score rec = 75 /\
        detected_patterns rec = ["shell_account"].
Proof.
  intros Paths r I.
  destruct (shell_run_state Paths txns) as (detected & R & S & M & D & Mem).
  cbn [fst snd] in *.
  rewrite Forall_forall in R. destruct (R r I) as (P & Sc & Dt & L & Sh).
  split; [exact P|]. split; [exact Sc|]. split; [exact Dt|]. split; [exact L|].
  intros m Hm. split; [apply shells_counted; now apply Sh|].
  assert (Im : In m (map account_id (suspicious_accounts (Shell.run txns)))).
  { rewrite M. apply -> in_rev. now apply (Mem r I). }
  destruct (items_of_unique m (suspicious_accounts (Shell.run txns)))
    as (rec & Er & Ir); [|exact Im|].
  - rewrite M. now apply NoDup_rev.
  - exists rec. split; [exact Er|].
    rewrite Forall_forall in S. now apply S.
Qed.

Lemma ref_paths_from_nodes {A : Type} (g : DiGraph A) (targets : list account) :
  forall fuel path_rev u p,
    incl path_rev (nodes g) ->
    In p (Ref.paths_from g targets fuel path_rev u) ->
    incl p (nodes g).
Proof.
  induction fuel as [|f IH]; intros path_rev u p Inc I; simpl in I.
  - rewrite app_nil_r in I. destruct (mem u targets); [|destruct I].
    destruct I as [<-|[]]. intros x Hx. apply Inc. now apply in_rev.
  - apply in_app_or in I as [I|I].
    + destruct (mem u targets); [|destruct I].
      destruct I as [<-|[]]. intros x Hx. apply Inc. now apply in_rev.
    + apply in_flat_map in I as (v & Hv & I).
      destruct (mem v path_rev); [destruct I|].
      apply (IH (v :: path_rev) v p); [|exact I].
      intros x [<-|Hx]; [|now apply Inc].
      unfold Ref.successors in Hv. apply filter_In in Hv as [_ Hv].
      now apply mem_In.
Qed.

Lemma ref_paths_in_graph (G : DiGraph unit) (s : account)
  (ts p : list account) :
  In p (@all_simple_paths Ref.nx unit G s ts) -> incl p (nodes G).
Proof.
  simpl. unfold Ref.all_simple_paths.
  destruct (mem s (nodes G)) eqn:E; [|intros []].
  apply ref_paths_from_nodes. intros x [<-|[]]. now apply mem_In.
Qed.

Lemma shell_rings_of_shell_candidates_witness :
  fraud_rings (@Shell.run Ref.nx Batch.chain) <> [] /\
  forall r, In r (fraud_rings (@Shell.run Ref.nx Batch.chain)) ->
    pattern_type r = "shell_network" /\
    risk_score r = 75 /\
    detected_at r = None /\
    (2 <= List.length (member_accounts r))%nat /\
    forall m, In m (member_accounts r) ->
      (2 <= txn_count Batch.chain m <= 3)%nat /\
      exists rec,
        records_of m (@Shell.run Ref.nx Batch.chain) = [rec] /\
        suspicion_score rec = 75 /\
        detected_patterns rec = ["shell_account"].
Proof.
  split.
  - vm_compute. discriminate.
  - apply (@shell_rings_of_shell_candidates Ref.nx Batch.chain).
    exact ref_paths_in_graph.
Defined.

(* ================================================================== *)
(** * Further properties of the detectors *)

(** ** Utilities *)

(** X1: [normalize_cycle] fails on the empty list only; on any other
    list it returns the rotation that starts at the first occurrence of
    the least member: the list is [a ++ m :: b] with [m] least and not
    in [a], and the result is [m :: b ++ a], of the same length. *)
Theorem normalize_cycle_least_first (c : list account) :
  (c = [] /\ normalize_cycle c = None) \/
  (exists a m b,
     c = a ++ m :: b /\ ~ In m a /\ is_min m c /\
     normalize_cycle c = Some (m :: b ++ a) /\
     rotation c (m :: b ++ a) /\
     List.length (m :: b ++ a) = List.length c).
Proof.
  destruct c as [|x t]; [left; split; reflexivity|right].
  destruct (normalize_cycle_some (x :: t)) as [n E]; [discriminate|].
  destruct (normalize_cycle_inv _ _ E) as (a & b & m & Ec & En & M & Na).
  exists a, m, b. rewrite <- En.
  split; [exact Ec|]. split; [exact Na|]. split; [exact M|].
  split; [exact E|]. split.
  - now apply normalize_cycle_rotation_of.
  - now apply normalize_cycle_length.
Qed.

Lemma clamp01_le0 (x : Q) : x <= 0 -> clamp01 x == 0.
Proof.
  intros H. rewrite clamp01_spec. apply Q.max_l.
  eapply Qle_trans; [apply Q.le_min_r|exact H].
Qed.

Lemma clamp01_ge1 (x : Q) : 1 <= x -> clamp01 x == 1.
Proof.
  intros H. rewrite clamp01_spec, (Q.min_l 1 x H). now apply Q.max_r.
Qed.

Lemma clamp01_mono (x y : Q) : x <= y -> clamp01 x <= clamp01 y.
Proof.
  intros H. rewrite !clamp01_spec.
  apply Q.max_le_compat_l. now apply Q.min_le_compat_l.
Qed.

(** X2: [clamp01] is monotone and idempotent, and its values are in
    [[0, 1]]. *)
Theorem clamp01_monotone_idempotent (x y : Q) :
  x <= y ->
  clamp01 x <= clamp01 y /\
  clamp01 (clamp01 x) == clamp01 x /\
  0 <= clamp01 x <= 1.
Proof.
  intros H. split; [now apply clamp01_mono|]. split.
  - apply clamp01_id, clamp01_range.
  - apply clamp01_range.
Qed.

Lemma clamp01_monotone_idempotent_witness :
  clamp01 (-(1)) <= clamp01 (3 # 2) /\
  clamp01 (clamp01 (-(1))) == clamp01 (-(1)) /\
  0 <= clamp01 (-(1)) <= 1.
Proof.
  apply (clamp01_monotone_idempotent (-(1)) (3 # 2)). discriminate.
Defined.

(** ** The sub-scores *)

(** X3: the length sub-score is 1 for a cycle of at most three members,
    2/3 for four, 1/3 for five and 0 from six members on. *)
Theorem length_score_by_length (cycle : list account) :
  ((List.length cycle <= 3)%nat -> Circular.length_score cycle == 1) /\
  (List.length cycle = 4%nat -> Circular.length_score cycle == 2 # 3) /\
  (List.length cycle = 5%nat -> Circular.length_score cycle == 1 # 3) /\
  ((6 <= List.length cycle)%nat -> Circular.length_score cycle == 0).
Proof.
  unfold Circular.length_score, Circular.MAX_CYCLE_LEN, Circular.MIN_CYCLE_LEN.
  set (L := List.length cycle).
  change (inject_Z (Z.of_nat 5 - Z.of_nat 3 + 1)) with (inject_Z 3).
  repeat split; intros H.
  - apply clamp01_ge1. apply Qle_shift_div_l; [reflexivity|].
    rewrite Qmult_1_l. rewrite <- Zle_Qle. lia.
  - rewrite H. reflexivity.
  - rewrite H. reflexivity.
  - apply clamp01_le0. apply Qle_shift_div_r; [reflexivity|].
    rewrite Qmult_0_l. change 0 with (inject_Z 0). rewrite <- Zle_Qle. lia.
Qed.

Lemma max_ts_spec (l : list datetime) : forall t,
  In (Circular.max_ts t l) (t :: l) /\
  forall x, In x (t :: l) -> (x <= Circular.max_ts t l)%Z.
Proof.
  unfold Circular.max_ts.
  induction l as [|y r IH]; intros t; simpl.
  - split; [now left|]. intros x [<-|[]]. lia.
  - destruct (IH (Z.max t y)) as [I L]. split.
    + destruct I as [E|I]; [|tauto]. rewrite <- E.
      destruct (Z.max_spec t y) as [[_ ->]|[_ ->]]; tauto.
    + intros x [<-|[<-|Hx]].
      * specialize (L (Z.max t y) (or_introl Logic.eq_refl)). lia.
      * specialize (L (Z.max t y) (or_introl Logic.eq_refl)). lia.
      * apply L. now right.
Qed.

Lemma min_ts_spec (l : list datetime) : forall t,
  In (Circular.min_ts t l) (t :: l) /\
  forall x, In x (t :: l) -> (Circular.min_ts t l <= x)%Z.
Proof.
  unfold Circular.min_ts.
  induction l as [|y r IH]; intros t; simpl.
  - split; [now left|]. intros x [<-|[]]. lia.
  - destruct (IH (Z.min t y)) as [I L]. split.
    + destruct I as [E|I]; [|tauto]. rewrite <- E.
      destruct (Z.min_spec t y) as [[_ ->]|[_ ->]]; tauto.
    + intros x [<-|[<-|Hx]].
      * specialize (L (Z.min t y) (or_introl Logic.eq_refl)). lia.
      * specialize (L (Z.min t y) (or_introl Logic.eq_refl)). lia.
      * apply L. now right.
Qed.

Lemma edge_timestamps_In (em : Circular.edge_meta_t)
  (edges : list (account * account)) (t : datetime) :
  In t (Circular.edge_timestamps em edges) <->
  exists e ms m,
    In e edges /\ alist_get pair_eq_dec e em = Some ms /\ In m ms /\
    Circular.meta_timestamp m = Some t.
Proof.
  unfold Circular.edge_timestamps. rewrite in_flat_map. split.
  - intros (e & He & I). apply in_flat_map in I as (m & Hm & I).
    destruct (alist_get pair_eq_dec e em) as [ms|] eqn:G; [|destruct Hm].
    destruct (Circular.meta_timestamp m) as [t'|] eqn:T; [|destruct I].
    destruct I as [<-|[]]. exists e, ms, m. auto.
  - intros (e & ms & m & He & G & Hm & T). exists e. split; [exact He|].
    rewrite G. apply in_flat_map. exists m. split; [exact Hm|].
    rewrite T. now left.
Qed.

(** X4: the time sub-score is in [[0, 1]]; it is the neutral 1/2 when
    the edges of the cycle carry fewer than two timestamps; otherwise,
    with [span] the distance between the latest and the earliest one, it
    is [1 - span / 604800], and 0 from a span of seven days on. *)
Theorem time_score_by_span (em : Circular.edge_meta_t)
  (edges : list (account * account)) :
  0 <= Circular.time_score em edges <= 1 /\
  ((List.length (Circular.edge_timestamps em edges) < 2)%nat ->
   Circular.time_score em edges = 1 # 2) /\
  forall t t' rest,
    Circular.edge_timestamps em edges = t :: t' :: rest ->
    let span := (Circular.max_ts t (t' :: rest)
                 - Circular.min_ts t (t' :: rest))%Z in
    (0 <= span)%Z /\
    ((span <= 604800)%Z ->
     Circular.time_score em edges == 1 - inject_Z span / 604800) /\
    ((604800 <= span)%Z -> Circular.time_score em edges == 0).
Proof.
  unfold Circular.time_score.
  destruct (Circular.edge_timestamps em edges) as [|t [|t' rest]].
  - split; [split; discriminate|]. split; [reflexivity|]. discriminate.
  - split; [split; discriminate|]. split; [reflexivity|]. discriminate.
  - split; [apply clamp01_range|]. split; [simpl; lia|].
    intros t0 t0' rest0 [= <- <- <-].
    set (span := (Circular.max_ts t (t' :: rest)
                  - Circular.min_ts t (t' :: rest))%Z).
    assert (Pos : (0 <= span)%Z).
    { subst span.
      destruct (max_ts_spec (t' :: rest) t) as [_ Mx].
      destruct (min_ts_spec (t' :: rest) t) as [_ Mn].
      specialize (Mx t (or_introl Logic.eq_refl)).
      specialize (Mn t (or_introl Logic.eq_refl)). lia. }
    change (inject_Z Circular.MAX_ALLOWED_DURATION) with 604800.
    split; [exact Pos|]. split; intros H.
    + apply clamp01_id. split.
      * apply -> Qle_minus_iff. apply Qle_shift_div_r; [reflexivity|].
        rewrite Qmult_1_l. change 604800 with (inject_Z 604800).
        now rewrite <- Zle_Qle.
      * rewrite <- (Qplus_0_r 1) at 2. apply Qplus_le_compat; [apply Qle_refl|].
        apply (Qopp_le_compat 0). apply Qle_shift_div_l; [reflexivity|].
        rewrite Qmult_0_l. change 0 with (inject_Z 0). now rewrite <- Zle_Qle.
    + apply clamp01_le0. apply (proj2 (Qle_minus_iff _ _)).
      setoid_replace (0 + - (1 - inject_Z span / 604800))
        with (inject_Z span / 604800 - 1) by ring.
      apply -> Qle_minus_iff. apply Qle_shift_div_l; [reflexivity|].
      rewrite Qmult_1_l. change 604800 with (inject_Z 604800).
      now rewrite <- Zle_Qle.
Qed.

(** X5: [get_cycle_completion_time] raises [IndexError] on the empty
    cycle only; it returns [None] when no transaction on an edge of the
    cycle has a timestamp, and otherwise the latest of these timestamps. *)
Theorem completion_time_is_latest (st : Circular.state) (cycle : list account) :
  match Circular.get_cycle_completion_time st cycle with
  | Raise e => cycle = [] /\ e = IndexError
  | Ok o =>
      exists edges,
        Circular.cycle_edges cycle = Ok edges /\
        match o with
        | None => Circular.edge_timestamps (Circular.edge_meta st) edges = []
        | Some t =>
            In t (Circular.edge_timestamps (Circular.edge_meta st) edges) /\
            forall t',
              In t' (Circular.edge_timestamps (Circular.edge_meta st) edges) ->
              (t' <= t)%Z
        end
  end.
Proof.
  unfold Circular.get_cycle_completion_time.
  destruct cycle as [|x c]; [now split|].
  cbn [Circular.cycle_edges bind].
  destruct (Circular.edge_timestamps _ _) as [|t rest] eqn:E.
  - eexists. split; [reflexivity|exact E].
  - eexists. split; [reflexivity|]. rewrite E. apply max_ts_spec.
Qed.

(** ** The transaction graph *)

Lemma build_graph_step_invalid {py : PyLib} (st : Circular.state)
  (txn : transaction) :
  valid_txn txn = false -> Circular.build_graph_step st txn = st.
Proof.
  unfold valid_txn, Circular.build_graph_step. intros H.
  destruct (truthy (sender_id txn)); [|reflexivity].
  destruct (truthy (receiver_id txn)); [|reflexivity].
  simpl in *. apply negb_false_iff in H. now rewrite H.
Qed.

Lemma build_graph_step_valid {py : PyLib} (st : Circular.state)
  (txn : transaction) :
  valid_txn txn = true ->
  Circular.build_graph_step st txn
  = let s := id_of (sender_id txn) in
    let r := id_of (receiver_id txn) in
    let amt := safe_float (amount txn) in
    {| Circular.graph :=
         put_edge s r
           (fun o =>
              match o with
              | Some d => {| Circular.weight := Circular.weight d + 1;
                             Circular.total_amount := Circular.total_amount d + amt |}
              | None => {| Circular.weight := 1; Circular.total_amount := amt |}
              end)
           (Circular.graph st);
       Circular.edge_meta :=
         alist_append pair_eq_dec (s, r) (meta_of txn) (Circular.edge_meta st) |}.
Proof.
  unfold valid_txn, Circular.build_graph_step. intros H.
  apply andb_prop in H as [H H3]. apply andb_prop in H as [H1 H2].
  rewrite H1, H2. apply negb_true_iff in H3. rewrite H3. reflexivity.
Qed.

Lemma get_edge_put_same {A : Type} (g : DiGraph A) (u v : account)
  (f : option A -> A) :
  get_edge (put_edge u v f g) u v = Some (f (get_edge g u v)).
Proof.
  unfold get_edge, put_edge. cbn [edges].
  rewrite alist_get_upsert_same. f_equal. f_equal.
  unfold add_node. destruct (mem u (nodes g)), (mem v _); reflexivity.
Qed.

Lemma get_edge_put_other {A : Type} (g : DiGraph A) (u v u' v' : account)
  (f : option A -> A) :
  (u', v') <> (u, v) ->
  get_edge (put_edge u v f g) u' v' = get_edge g u' v'.
Proof.
  intros N. unfold get_edge, put_edge. cbn [edges].
  rewrite alist_get_upsert_other by exact N.
  unfold add_node. destruct (mem u (nodes g)); cbn [nodes edges];
    destruct (mem v _); reflexivity.
Qed.

Lemma records_between_snoc (u v : account) (p : list transaction)
  (txn : transaction) :
  records_between u v (p ++ [txn])
  = records_between u v p
    ++ (if valid_txn txn && String.eqb (id_of (sender_id txn)) u
           && String.eqb (id_of (receiver_id txn)) v
        then [txn] else []).
Proof.
  unfold records_between. rewrite filter_app. simpl.
  now destruct (valid_txn txn && _ && _).
Qed.

Lemma build_graph_step_matches {py : PyLib} (st : Circular.state)
  (p : list transaction) (txn : transaction) :
  (forall u v, edge_matches st u v (records_between u v p)) ->
  forall u v,
    edge_matches (Circular.build_graph_step st txn) u v
                 (records_between u v (p ++ [txn])).
Proof.
  intros Inv u v. rewrite records_between_snoc.
  destruct (valid_txn txn) eqn:V.
  2:{ rewrite build_graph_step_invalid by exact V. simpl.
      rewrite app_nil_r. apply Inv. }
  rewrite build_graph_step_valid by exact V. cbv zeta. cbn [andb].
  destruct (String.eqb_spec (id_of (sender_id txn)) u) as [Eu|Nu].
  2:{ cbn [andb]. rewrite app_nil_r. specialize (Inv u v).
      unfold edge_matches in *. cbn [Circular.graph Circular.edge_meta].
      unfold alist_append.
      rewrite get_edge_put_other, alist_get_upsert_other by congruence.
      exact Inv. }
  destruct (String.eqb_spec (id_of (receiver_id txn)) v) as [Ev|Nv].
  2:{ cbn [andb]. rewrite app_nil_r. specialize (Inv u v).
      unfold edge_matches in *. cbn [Circular.graph Circular.edge_meta].
      unfold alist_append.
      rewrite get_edge_put_other, alist_get_upsert_other by congruence.
      exact Inv. }
  cbn [andb]. subst u v. specialize (Inv (id_of (sender_id txn))
                                        (id_of (receiver_id txn))).
  set (s := id_of (sender_id txn)) in *. set (r := id_of (receiver_id txn)) in *.
  unfold edge_matches in *. cbn [Circular.graph Circular.edge_meta].
  unfold alist_append. rewrite get_edge_put_same, alist_get_upsert_same.
  destruct (records_between s r p) as [|t0 rs].
  - destruct Inv as [G M]. rewrite G, M. cbn [app map List.length].
    split; [reflexivity|]. eexists. split; [reflexivity|].
    cbn [Circular.weight Circular.total_amount]. split; [reflexivity|].
    unfold Circular.sumQ. simpl. now rewrite Qplus_0_l.
  - destruct Inv as (M & d & G & W & T). rewrite G, M.
    cbn [app]. change (t0 :: rs ++ [txn]) with ((t0 :: rs) ++ [txn]).
    split; [now rewrite map_app|]. eexists. split; [reflexivity|].
    cbn [Circular.weight Circular.total_amount]. split.
    + rewrite W, length_app. simpl. lia.
    + rewrite map_app. unfold Circular.sumQ in *. rewrite fold_left_app.
      simpl. now rewrite T.
Qed.

Lemma build_graph_matches {py : PyLib} (txns : list transaction) :
  forall p st,
    (forall u v, edge_matches st u v (records_between u v p)) ->
    forall u v,
      edge_matches (Circular.build_graph txns st) u v
                   (records_between u v (p ++ txns)).
Proof.
  unfold Circular.build_graph.
  induction txns as [|txn t IH]; intros p st Inv u v; simpl.
  - rewrite app_nil_r. apply Inv.
  - change (p ++ txn :: t) with (p ++ [txn] ++ t). rewrite app_assoc.
    apply IH. now apply build_graph_step_matches.
Qed.

Lemma build_graph_from_init {py : PyLib} (txns : list transaction)
  (u v : account) :
  edge_matches (Circular.build_graph txns Circular.init) u v
               (records_between u v txns).
Proof.
  apply (build_graph_matches txns [] Circular.init).
  intros u' v'. simpl. split; reflexivity.
Qed.

(** X6: after [build_graph] on a fresh detector, the pair [(u, v)] has an
    edge exactly when the batch holds a valid record from [u] to [v] (both
    ids set, [u <> v]); [edge_meta] then lists, in batch order, the
    amount (0.0 when it does not parse) and the parsed timestamp of these
    records, the weight of the edge is their number and its total amount
    is the sum of their amounts. *)
Theorem build_graph_aggregates_records {py : PyLib}
  (txns : list transaction) (u v : account) :
  edge_matches (Circular.build_graph txns Circular.init) u v
               (records_between u v txns).
Proof.
  unfold edge_matches. pose proof (build_graph_from_init txns u v) as M.
  unfold edge_matches in M. exact M.
Qed.

Lemma records_between_self (u : account) (txns : list transaction) :
  records_between u u txns = [].
Proof.
  unfold records_between. apply filter_none. intros j txn _.
  unfold valid_txn.
  destruct (truthy (sender_id txn)); [|reflexivity].
  destruct (truthy (receiver_id txn)); [|reflexivity]. cbn [andb].
  destruct (String.eqb_spec (id_of (sender_id txn)) (id_of (receiver_id txn)))
    as [E|N]; [reflexivity|]. cbn [negb andb].
  destruct (String.eqb_spec (id_of (sender_id txn)) u) as [Eu|Nu];
    [|reflexivity]. cbn [andb].
  destruct (String.eqb_spec (id_of (receiver_id txn)) u) as [Ev|Nv];
    [congruence|reflexivity].
Qed.

Lemma truthy_id_nonempty (s : option string) :
  truthy s = true -> id_of s <> "".
Proof.
  destruct s as [s|]; simpl; [|discriminate].
  intros H E. subst. discriminate.
Qed.

Lemma records_between_empty_id (u v : account) (txns : list transaction) :
  u = "" \/ v = "" -> records_between u v txns = [].
Proof.
  intros H. unfold records_between. apply filter_none. intros j txn _.
  unfold valid_txn.
  destruct (truthy (sender_id txn)) eqn:Ts; [|reflexivity].
  destruct (truthy (receiver_id txn)) eqn:Tr; [|reflexivity].
  apply truthy_id_nonempty in Ts, Tr. cbn [andb].
  destruct (negb _); [|reflexivity]. cbn [andb].
  destruct (String.eqb_spec (id_of (sender_id txn)) u) as [Eu|Nu];
    [|reflexivity]. cbn [andb].
  destruct (String.eqb_spec (id_of (receiver_id txn)) v) as [Ev|Nv];
    [|reflexivity].
  destruct H; congruence.
Qed.

(** X7: the graph that [build_graph] builds has no edge from an account
    to itself and no edge with an empty id at either end, whatever the
    batch. *)
Theorem build_graph_no_self_loop {py : PyLib} (txns : list transaction)
  (u v : account) :
  u = v \/ u = "" \/ v = "" ->
  get_edge (Circular.graph (Circular.build_graph txns Circular.init)) u v = None.
Proof.
  intros H. pose proof (build_graph_from_init txns u v) as M.
  assert (E : records_between u v txns = []).
  { destruct H as [->|H]; [apply records_between_self|].
    now apply records_between_empty_id. }
  rewrite E in M. apply M.
Qed.

Lemma build_graph_no_self_loop_witness :
  get_edge (Circular.graph
              (@Circular.build_graph Ref.py
                 (Batch.self_txn "A" :: Batch.cycle) Circular.init)) "A" "A"
  = None.
Proof.
  apply (@build_graph_no_self_loop Ref.py). now left.
Defined.

(** ** Pruning and the cycles found *)

Lemma filter_filter_length {A : Type} (f h : A -> bool) (l : list A) :
  (List.length (filter f (filter h l)) <= List.length (filter f l))%nat.
Proof.
  induction l as [|x t IH]; simpl; [lia|].
  destruct (h x), (f x) eqn:F; simpl; rewrite ?F; simpl; lia.
Qed.

Lemma prune_nodes (g : DiGraph Circular.edge_data) (n : account) :
  In n (nodes (Circular.prune g)) ->
  In n (nodes g) /\
  (degree g n <= hub_threshold g)%nat /\
  (0 < in_degree g n)%nat /\ (0 < out_degree g n)%nat.
Proof.
  unfold Circular.prune. fold (hub_threshold g). fold (hubs_of g).
  set (g1 := remove_nodes_from (hubs_of g) g).
  cbn [remove_nodes_from nodes]. intros I.
  apply filter_In in I as [I L]. apply negb_true_iff in L.
  assert (I1 : In n (nodes g1)) by exact I.
  unfold g1 in I. cbn [remove_nodes_from nodes] in I.
  apply filter_In in I as [I H]. apply negb_true_iff in H.
  split; [exact I|]. split.
  - destruct (Nat.le_gt_cases (degree g n) (hub_threshold g)) as [K|K];
      [exact K|]. exfalso.
    assert (In n (hubs_of g)) as Hub.
    { apply filter_In. split; [exact I|]. now apply Nat.ltb_lt. }
    apply mem_In in Hub. congruence.
  - assert (~ In n (filter (fun n => (in_degree g1 n =? 0)%nat
                                      || (out_degree g1 n =? 0)%nat)
                           (nodes g1))) as NL.
    { intros K. apply mem_In in K. congruence. }
    assert (D : (in_degree g1 n =? 0)%nat || (out_degree g1 n =? 0)%nat = false).
    { destruct (_ || _) eqn:E; [|reflexivity]. exfalso. apply NL.
      apply filter_In. split; [exact I1|exact E]. }
    apply orb_false_elim in D as [D1 D2].
    apply Nat.eqb_neq in D1, D2.
    assert ((in_degree g1 n <= in_degree g n)%nat) as L1
      by apply filter_filter_length.
    assert ((out_degree g1 n <= out_degree g n)%nat) as L2
      by apply filter_filter_length.
    lia.
Qed.

Lemma detect_cycles_from_raw {nx : GraphLib} (st : Circular.state)
  (cycles : list (list account)) :
  Circular.detect_cycles st = Ok cycles ->
  forall c, In c cycles ->
    exists r,
      In r (raw_cycles (Circular.prune (Circular.graph st))) /\
      in_bounds r = true /\ normalize_cycle r = Some c.
Proof.
  intros E c I.
  set (G := Circular.prune (Circular.graph st)) in *.
  destruct (in_bounds_norms (raw_cycles G)) as [norms EN].
  unfold Circular.detect_cycles in E. fold G in E.
  rewrite detect_cycles_nested in E. fold (raw_cycles G) in E.
  destruct (detect_cycles_loop (raw_cycles G) norms [] [] EN) as (seen' & R & _);
    [tauto|].
  rewrite R in E. injection E as <-. simpl in I.
  apply first_discovery_In in I as [I _].
  destruct (map_Some_In _ _ _ _ EN I) as (r & Hr & Er).
  apply filter_In in Hr as [Hr B]. eauto.
Qed.

Lemma raw_cycles_In {nx : GraphLib} (G : DiGraph Circular.edge_data)
  (r : list account) :
  In r (raw_cycles G) ->
  exists scc, In r (simple_cycles (subgraph G scc) Circular.MAX_CYCLE_LEN).
Proof.
  unfold raw_cycles. intros I. apply in_flat_map in I as (scc & _ & I).
  destruct (List.length scc <? Circular.MIN_CYCLE_LEN)%nat; [destruct I|eauto].
Qed.

Lemma prune_nodes_kept (g : DiGraph Circular.edge_data) (n : account) :
  In n (nodes (Circular.prune g)) <->
  In n (nodes g) /\ ~ In n (hubs_of g) /\
  (0 < in_degree (remove_nodes_from (hubs_of g) g) n)%nat /\
  (0 < out_degree (remove_nodes_from (hubs_of g) g) n)%nat.
Proof.
  unfold Circular.prune. fold (hub_threshold g). fold (hubs_of g).
  set (g1 := remove_nodes_from (hubs_of g) g).
  cbn [remove_nodes_from nodes]. rewrite filter_In, negb_true_iff.
  assert (N1 : In n (nodes g1) <-> In n (nodes g) /\ ~ In n (hubs_of g)).
  { unfold g1. cbn [remove_nodes_from nodes].
    rewrite filter_In, negb_true_iff. split; intros [I H]; (split; [exact I|]).
    - intros K. apply mem_In in K. congruence.
    - destruct (mem n (hubs_of g)) eqn:K; [|reflexivity].
      apply mem_In in K. contradiction. }
  rewrite N1. split.
  - intros [[I H] L]. split; [exact I|]. split; [exact H|].
    destruct (mem n _) eqn:K in L; [discriminate|].
    assert (D : (in_degree g1 n =? 0)%nat || (out_degree g1 n =? 0)%nat = false).
    { destruct (_ || _) eqn:E; [|reflexivity]. exfalso.
      assert (In n (filter (fun n => (in_degree g1 n =? 0)%nat
                                     || (out_degree g1 n =? 0)%nat)
                           (nodes g1))) as Lf.
      { apply filter_In. split; [now apply N1|exact E]. }
      apply mem_In in Lf. congruence. }
    apply orb_false_elim in D as [D1 D2]. apply Nat.eqb_neq in D1, D2. lia.
  - intros (I & H & Di & Do). split; [tauto|].
    destruct (mem n _) eqn:K; [|reflexivity].
    apply mem_In, filter_In in K as [_ K]. apply orb_true_iff in K.
    destruct K as [K|K]; apply Nat.eqb_eq in K; lia.
Qed.

(** X8: given that networkx yields cycles made of nodes of the graph it
    is asked about, no account removed by [prune] is in a cycle that
    [detect_cycles] returns: every member of a returned cycle is a node
    of the pruned graph, that is, a node of the transaction graph that
    is no hub (its degree is at most [max(HUB_DEGREE_LIMIT, n / 10)])
    and that keeps an incoming and an outgoing edge once the hubs are
    removed. *)
Theorem detected_cycles_avoid_hubs {nx : GraphLib} (st : Circular.state)
  (cycles : list (list account)) :
  (forall (G : DiGraph Circular.edge_data) (k : nat) (c : list account),
     In c (simple_cycles G k) -> incl c (nodes G)) ->
  Circular.detect_cycles st = Ok cycles ->
  forall c m, In c cycles -> In m c ->
    In m (nodes (Circular.prune (Circular.graph st))) /\
    In m (nodes (Circular.graph st)) /\
    ~ In m (hubs_of (Circular.graph st)) /\
    (degree (Circular.graph st) m <= hub_threshold (Circular.graph st))%nat /\
    (0 < in_degree (remove_nodes_from (hubs_of (Circular.graph st))
                      (Circular.graph st)) m)%nat /\
    (0 < out_degree (remove_nodes_from (hubs_of (Circular.graph st))
                       (Circular.graph st)) m)%nat /\
    (0 < in_degree (Circular.graph st) m)%nat /\
    (0 < out_degree (Circular.graph st) m)%nat.
Proof.
  intros Contract E c m Ic Im.
  destruct (detect_cycles_from_raw st cycles E c Ic) as (r & Hr & _ & Er).
  apply raw_cycles_In in Hr as [scc Hr].
  apply Contract in Hr.
  assert (P : In m (nodes (Circular.prune (Circular.graph st)))).
  { apply (subgraph_nodes_sub _ scc). apply Hr.
    apply (rotation_In r c); [now apply normalize_cycle_rotation_of|exact Im]. }
  split; [exact P|].
  destruct (proj1 (prune_nodes_kept _ _) P) as (I & H & Di & Do).
  destruct (prune_nodes _ _ P) as (_ & Dg & Gi & Go).
  tauto.
Qed.


Lemma ref_cycles_from_nodes {A : Type} (g : DiGraph A)
  (allowed : list account) (s : account) :
  forall fuel path_rev u c,
    incl path_rev (nodes g) ->
    In c (Ref.cycles_from g allowed s fuel path_rev u) ->
    incl c (nodes g).
Proof.
  induction fuel as [|f IH]; intros path_rev u c Inc I; simpl in I;
    [destruct I|].
  apply in_flat_map in I as (v & Hv & I).
  destruct (mem v [s]).
  - destruct I as [<-|[]]. intros x Hx. apply Inc. now apply in_rev.
  - destruct (mem v allowed && negb (mem v path_rev)); [|destruct I].
    apply (IH (v :: path_rev) v c); [|exact I].
    intros x [<-|Hx]; [|now apply Inc].
    unfold Ref.successors in Hv. apply filter_In in Hv as [_ Hv].
    now apply mem_In.
Qed.

Lemma ref_cycles_over_nodes {A : Type} (g : DiGraph A) (k : nat) :
  forall todo c,
    incl todo (nodes g) -> In c (Ref.cycles_over g k todo) -> incl c (nodes g).
Proof.
  induction todo as [|s rest IH]; intros c Inc I; simpl in I; [destruct I|].
  apply in_app_or in I as [I|I].
  - apply (ref_cycles_from_nodes g rest s k [s] s c); [|exact I].
    intros x [<-|[]]. apply Inc. now left.
  - apply IH; [|exact I]. intros x Hx. apply Inc. now right.
Qed.

Lemma ref_cycles_in_graph (G : DiGraph Circular.edge_data) (k : nat)
  (c : list account) :
  In c (@simple_cycles Ref.nx _ G k) -> incl c (nodes G).
Proof.
  simpl. unfold Ref.simple_cycles. apply ref_cycles_over_nodes, incl_refl.
Qed.

Lemma detected_cycles_avoid_hubs_witness :
  @Circular.detect_cycles Ref.nx
    (@Circular.build_graph Ref.py (Batch.cycle ++ Batch.fan_in 21 "H")
       Circular.init)
  = Ok [["A"; "B"; "C"]%string] /\
  In "H"%string
     (hubs_of (Circular.graph
                 (@Circular.build_graph Ref.py
                    (Batch.cycle ++ Batch.fan_in 21 "H") Circular.init))) /\
  In "User_0"%string
     (nodes (Circular.graph
               (@Circular.build_graph Ref.py
                  (Batch.cycle ++ Batch.fan_in 21 "H") Circular.init))) /\
  nodes (Circular.prune
           (Circular.graph
              (@Circular.build_graph Ref.py
                 (Batch.cycle ++ Batch.fan_in 21 "H") Circular.init)))
  = ["A"; "B"; "C"]%string /\
  In "A"%string
     (nodes (Circular.prune
               (Circular.graph
                  (@Circular.build_graph Ref.py
                     (Batch.cycle ++ Batch.fan_in 21 "H") Circular.init)))).
Proof.
  split; [vm_compute; reflexivity|].
  split; [vm_compute; repeat (first [left; reflexivity|right])|].
  split; [vm_compute; repeat (first [left; reflexivity|right])|].
  split; [vm_compute; reflexivity|].
  refine (proj1 (@detected_cycles_avoid_hubs Ref.nx
                   (@Circular.build_graph Ref.py
                      (Batch.cycle ++ Batch.fan_in 21 "H") Circular.init)
                   [["A"; "B"; "C"]%string] ref_cycles_in_graph _
                   ["A"; "B"; "C"]%string "A"%string _ _)).
  - vm_compute. reflexivity.
  - left. reflexivity.
  - left. reflexivity.
Defined.

(** ** When the smurfing detector returns *)

Lemma for_each_ok_iff {A S : Type} (body : S -> A -> outcome S)
  (P : A -> Prop) (l : list A) :
  (forall st x, (exists st', body st x = Ok st') <-> P x) ->
  forall st, (exists st', for_each body l st = Ok st') <-> Forall P l.
Proof.
  intros H. induction l as [|x t IH]; intros st; simpl.
  - split; [constructor|eauto].
  - split.
    + intros [st' E]. apply bind_Ok in E as (s1 & E1 & E2).
      constructor; [apply (H st); eauto|apply (IH s1); eauto].
    + intros F. inversion F as [|? ? Px Pt]; subst.
      apply (H st) in Px as [s1 E1]. rewrite E1. simpl. now apply IH.
Qed.

Lemma group_step_ok_iff {py : PyLib} (st : Smurfing.fan_t * Smurfing.fan_t)
  (txn : transaction) :
  (exists st', Smurfing.group_step st txn = Ok st')
  <-> exists q, py_float (amount txn) = Ok q.
Proof.
  unfold Smurfing.group_step, Smurfing.txn_amount.
  destruct (py_float (amount txn)) as [q|e]; simpl.
  - split; [eauto|]. intros _.
    destruct (parse_ts (timestamp txn)); [|eauto].
    destruct (truthy _ && truthy _); eauto.
  - split; intros [x E]; discriminate.
Qed.

(** On records whose timestamp is a string or [None], the smurfing
    detector returns a result exactly when [float] accepts the amount of
    every record of the batch. *)
Lemma smurfing_typed_returns_iff {py : PyLib}
  (txns : list transaction) :
  (exists res, Smurfing.run txns = Ok res)
  <-> Forall (fun txn => exists q, py_float (amount txn) = Ok q) txns.
Proof.
  rewrite <- (for_each_ok_iff Smurfing.group_step _ txns group_step_ok_iff
                ([], [])).
  unfold Smurfing.run, Smurfing.group. split.
  - intros [res E]. apply bind_Ok in E as (g & G & _). eauto.
  - intros [g G]. rewrite G. simpl. eauto.
Qed.

(** ** The merge: which ring id is kept *)

(** X10: the merged record of an account keeps the ring id of the first
    item about that account, in the order circular, smurfing, shell. *)
Theorem aggregate_keeps_first_ring_id (c s sh : result)
  (rec : suspicious_account) :
  In rec (suspicious_accounts (Server.aggregate c s sh)) ->
  exists it rest,
    items_of (account_id rec)
      (suspicious_accounts c ++ suspicious_accounts s ++ suspicious_accounts sh)
    = it :: rest /\
    sa_ring_id rec = sa_ring_id it.
Proof.
  intros I. unfold Server.aggregate in I. cbn [suspicious_accounts] in I.
  apply (Permutation_in rec (Permutation_sym (sort_desc_perm _))) in I.
  apply in_map_iff in I as ([k r] & <- & I).
  destruct (merge_In _ _ _ I) as (it & its & E & ->).
  cbn [snd Server.finish account_id sa_ring_id].
  assert (In it (items_of k (suspicious_accounts c ++ suspicious_accounts s
                             ++ suspicious_accounts sh))) as K
    by (rewrite E; now left).
  apply items_of_In in K as [_ ->]. eauto.
Qed.

Lemma aggregate_keeps_first_ring_id_witness :
  exists it rest,
    items_of "X"
      (suspicious_accounts Batch.flagged_70
       ++ suspicious_accounts Batch.flagged_85
       ++ suspicious_accounts Batch.nothing)
    = it :: rest /\
    "RING_001" = sa_ring_id it.
Proof.
  apply (aggregate_keeps_first_ring_id
           Batch.flagged_70 Batch.flagged_85 Batch.nothing
           {| account_id := "X"; suspicion_score := 85;
              detected_patterns := ["cycle_length_3"; "fan_in"; "shell_account"];
              sa_ring_id := "RING_001" |}).
  vm_compute. left. reflexivity.
Defined.

(** ** More on the shell detector *)

Lemma shell_count_stored (txns : list transaction) (k : account) (c : nat) :
  In (k, c) (snd (Shell.build txns)) -> c = txn_count txns k.
Proof.
  intros I.
  apply (alist_In_get account_eq_dec) in I; [|apply build_keys_NoDup].
  pose proof (build_counts k txns (empty_graph, [])) as C.
  fold (Shell.build txns) in C. unfold count_of at 1 in C. rewrite I in C.
  change (count_of (snd (empty_graph, [])) k) with 0%nat in C. lia.
Qed.

(** X11: when no account of the batch has a total transaction count of
    2 or 3, the shell detector returns no account and no ring. *)
Theorem shell_nothing_without_candidates {nx : GraphLib}
  (txns : list transaction) :
  (forall a, (txn_count txns a < 2)%nat \/ (3 < txn_count txns a)%nat) ->
  Shell.run txns = no_result.
Proof.
  intros H. unfold Shell.run.
  assert (E : Shell.shells_of (snd (Shell.build txns)) = []).
  { destruct (Shell.shells_of _) as [|m t] eqn:E; [reflexivity|].
    assert (In m (Shell.shells_of (snd (Shell.build txns)))) as I
      by (rewrite E; now left).
    apply shells_counted in I. specialize (H m). lia. }
  destruct (Shell.build txns) as [graph counts]. cbn [snd] in E.
  now rewrite E.
Qed.

Lemma shell_nothing_without_candidates_witness :
  @Shell.run Ref.nx [Batch.txn "A" "B" 50 "2023-01-01 10:00:00"] = no_result.
Proof.
  apply (@shell_nothing_without_candidates Ref.nx).
  intros a. left. unfold txn_count, txn_weight.
  cbn [map list_sum Batch.txn sender_id receiver_id id_of].
  change (truthy (Some "A")) with true. change (truthy (Some "B")) with true.
  cbn [andb].
  destruct (String.eqb_spec "A" a) as [<-|Na].
  - change (String.eqb "B" "A") with false. simpl. lia.
  - destruct (String.eqb "B" a); simpl; lia.
Defined.

Lemma mark_members_new (rid : string) (chain : list account) :
  forall st rec,
    In rec (fst (fold_left (Shell.mark_member rid) chain st)) ->
    In rec (fst st) \/
    (sa_ring_id rec = rid /\ In (account_id rec) chain).
Proof.
  induction chain as [|m t IH]; intros [s d] rec I; cbn [fold_left] in I.
  - now left.
  - rewrite mark_member_eq in I. destruct (mem m d).
    + destruct (IH _ _ I) as [H|[H1 H2]]; [now left|].
      right. split; [exact H1|now right].
    + destruct (IH _ _ I) as [H|[H1 H2]].
      * cbn [fst] in H. apply in_app_or in H as [H|[<-|[]]]; [now left|].
        right. split; [reflexivity|now left].
      * right. split; [exact H1|now right].
Qed.

Section ShellLinks.
Context {nx : GraphLib}.

Lemma find_chain_valid (graph comp_sub : DiGraph unit)
  (component starts chain : list account) :
  Shell.find_chain graph comp_sub component starts = Some chain ->
  Shell.valid_path graph chain = true.
Proof.
  induction starts as [|s t IH]; simpl; [discriminate|].
  destruct (find _ _) as [p|] eqn:F; [|exact IH].
  intros [= <-]. now apply find_some in F as [_ V].
Qed.

Lemma component_step_links (graph sub : DiGraph unit) (comp : list account)
  (st : list suspicious_account * list fraud_ring * list account) :
  shell_links_ok graph st ->
  shell_links_ok graph (Shell.component_step graph sub st comp).
Proof.
  destruct st as [[s r] d]. intros (S & M & D & Mem & Back & Ends).
  unfold Shell.component_step. cbn [fst snd] in *.
  destruct (2 <=? List.length comp)%nat;
    [|unfold shell_links_ok; cbn [fst snd]; tauto].
  destruct (Shell.find_chain _ _ _ _) as [chain|] eqn:F;
    [|unfold shell_links_ok; cbn [fst snd]; tauto].
  pose proof (find_chain_valid _ _ _ _ _ F) as V.
  destruct (mark_members_spec ("SHELL_" ++ hd "" chain) chain (s, d) S M D)
    as (A & B & C & I1 & I2).
  cbn [fst snd] in *. unfold shell_links_ok. cbn [fst snd].
  split; [exact A|]. split; [exact B|]. split; [exact C|]. split; [|split].
  - intros x Hx. apply in_app_or in Hx as [Hx|[<-|[]]].
    + intros y Hy. apply I1. now apply (Mem x).
    + exact I2.
  - intros rec Hr. apply mark_members_new in Hr as [Hr|[H1 H2]].
    + destruct (Back rec Hr) as (x & Hx & E1 & E2).
      exists x. split; [apply in_or_app; now left|tauto].
    + eexists. split; [apply in_or_app; right; now left|].
      cbn [ring_id member_accounts]. split; [now rewrite H1|exact H2].
  - apply Forall_app. split; [exact Ends|]. apply Forall_one.
    unfold ring_ends. cbn [ring_id member_accounts].
    unfold Shell.valid_path in V.
    apply andb_prop in V as [V V3]. apply andb_prop in V as [_ V2].
    apply Nat.ltb_lt in V2, V3. tauto.
Qed.

Lemma shell_run_links (txns : list transaction) :
  exists detected,
    shell_links_ok (fst (Shell.build txns))
      (suspicious_accounts (Shell.run txns), fraud_rings (Shell.run txns),
       detected).
Proof.
  unfold Shell.run.
  destruct (Shell.build txns) as [graph counts]. cbn [fst].
  assert (Init : shell_links_ok graph ([], [], [])).
  { unfold shell_links_ok. simpl. repeat split; try constructor.
    - intros r [].
    - intros rec []. }
  destruct (Shell.shells_of counts) as [|s0 rest]; [exists []; exact Init|].
  assert (K : shell_links_ok graph
                (fold_left
                   (Shell.component_step graph (subgraph graph (s0 :: rest)))
                   (weakly_connected_components (subgraph graph (s0 :: rest)))
                   ([], [], []))).
  { apply fold_left_inv; [|exact Init].
    intros st comp _ H. now apply component_step_links. }
  destruct (fold_left _ _ _) as [[s r] d]. exists d. exact K.
Qed.
End ShellLinks.

(** X12: the accounts that the shell detector reports are exactly the
    members of the rings it reports; the ring id of an account record is
    the id of a reported ring that has the account as a member. *)
Theorem shell_accounts_are_ring_members {nx : GraphLib}
  (txns : list transaction) :
  (forall a,
     In a (map account_id (suspicious_accounts (Shell.run txns)))
     <-> exists r, In r (fraud_rings (Shell.run txns))
                   /\ In a (member_accounts r)) /\
  (forall rec, In rec (suspicious_accounts (Shell.run txns)) ->
     exists r, In r (fraud_rings (Shell.run txns)) /\
               ring_id r = sa_ring_id rec /\
               In (account_id rec) (member_accounts r)).
Proof.
  destruct (shell_run_links txns) as (d & _ & M & _ & Mem & Back & _).
  cbn [fst snd] in *. split; [|exact Back].
  intros a. split.
  - intros I. apply in_map_iff in I as (rec & <- & I).
    destruct (Back rec I) as (r & Hr & _ & Hm). eauto.
  - intros (r & Hr & Hm). rewrite M. apply -> in_rev. now apply (Mem r).
Qed.

Lemma edges_add_node {A : Type} (n : account) (g : DiGraph A) :
  edges (add_node n g) = edges g.
Proof. unfold add_node. now destruct (mem n (nodes g)). Qed.

Lemma shell_graph_keys (txns : list transaction) (e : account * account) :
  In e (map fst (edges (fst (Shell.build txns)))) ->
  exists txn,
    In txn txns /\ truthy (sender_id txn) = true /\
    truthy (receiver_id txn) = true /\
    e = (id_of (sender_id txn), id_of (receiver_id txn)).
Proof.
  unfold Shell.build. revert e.
  apply (fold_left_inv Shell.build_step
           (fun st => forall e, In e (map fst (edges (fst st))) ->
              exists txn, In txn txns /\ truthy (sender_id txn) = true /\
                truthy (receiver_id txn) = true /\
                e = (id_of (sender_id txn), id_of (receiver_id txn)))).
  - intros [g c] txn I H e. unfold Shell.build_step.
    destruct (truthy (sender_id txn)) eqn:Ts; [|apply H].
    destruct (truthy (receiver_id txn)) eqn:Tr; [|apply H].
    cbn [andb fst put_edge edges]. rewrite alist_upsert_keys.
    rewrite !edges_add_node. cbn [fst] in H.
    destruct (in_dec pair_eq_dec _ _); [apply H|].
    intros K. apply in_app_or in K as [K|[<-|[]]]; [now apply H|].
    exists txn. auto.
  - intros e [].
Qed.

Lemma in_degree_pos {A : Type} (g : DiGraph A) (n : account) :
  (0 < in_degree g n)%nat -> exists u, In (u, n) (map fst (edges g)).
Proof.
  unfold in_degree. intros H.
  destruct (filter _ (edges g)) as [|[[u v] a] t] eqn:F; [simpl in H; lia|].
  assert (In (u, v, a) (filter (fun e => mem (snd (fst e)) [n]) (edges g))) as I
    by (rewrite F; now left).
  apply filter_In in I as [I M]. cbn [fst snd] in M.
  apply mem_In in M as [->|[]]. exists u.
  now apply (in_map fst) in I.
Qed.

Lemma out_degree_pos {A : Type} (g : DiGraph A) (n : account) :
  (0 < out_degree g n)%nat -> exists v, In (n, v) (map fst (edges g)).
Proof.
  unfold out_degree. intros H.
  destruct (filter _ (edges g)) as [|[[u v] a] t] eqn:F; [simpl in H; lia|].
  assert (In (u, v, a) (filter (fun e => mem (fst (fst e)) [n]) (edges g))) as I
    by (rewrite F; now left).
  apply filter_In in I as [I M]. cbn [fst snd] in M.
  apply mem_In in M as [->|[]]. exists v.
  now apply (in_map fst) in I.
Qed.

(** X13: every ring of the shell detector is named [SHELL_] followed by
    its first member; some record of the batch pays into that first
    member and some record pays out of its last member. *)
Theorem shell_ring_endpoints {nx : GraphLib} (txns : list transaction)
  (r : fraud_ring) :
  In r (fraud_rings (Shell.run txns)) ->
  ring_id r = ("SHELL_" ++ hd "" (member_accounts r))%string /\
  (exists txn, In txn txns /\ truthy (sender_id txn) = true /\
               receiver_id txn = Some (hd "" (member_accounts r))) /\
  (exists txn, In txn txns /\ truthy (receiver_id txn) = true /\
               sender_id txn = Some (last (member_accounts r) "")).
Proof.
  intros I.
  destruct (shell_run_links txns) as (d & _ & _ & _ & _ & _ & Ends).
  cbn [fst snd] in Ends. rewrite Forall_forall in Ends.
  destruct (Ends r I) as (Id & In_ & Out). split; [exact Id|]. split.
  - apply in_degree_pos in In_ as [u K].
    apply shell_graph_keys in K as (txn & It & Ts & Tr & E).
    injection E as _ E. exists txn. split; [exact It|]. split; [exact Ts|].
    rewrite E. now apply truthy_Some.
  - apply out_degree_pos in Out as [v K].
    apply shell_graph_keys in K as (txn & It & Ts & Tr & E).
    injection E as E _. exists txn. split; [exact It|]. split; [exact Tr|].
    rewrite E. now apply truthy_Some.
Qed.

Lemma shell_ring_endpoints_witness :
  exists r,
    In r (fraud_rings (@Shell.run Ref.nx Batch.chain)) /\
    ring_id r = ("SHELL_" ++ hd "" (member_accounts r))%string /\
    (exists txn, In txn Batch.chain /\ truthy (sender_id txn) = true /\
                 receiver_id txn = Some (hd "" (member_accounts r))) /\
    (exists txn, In txn Batch.chain /\ truthy (receiver_id txn) = true /\
                 sender_id txn = Some (last (member_accounts r) "")).
Proof.
  eexists. split; [vm_compute; left; reflexivity|].
  apply (@shell_ring_endpoints Ref.nx Batch.chain).
  vm_compute. left. reflexivity.
Defined.

(** ** What a smurfing ring holds *)

Lemma group_entries_from {py : PyLib} (txns : list transaction)
  (fi fo : Smurfing.fan_t) :
  Smurfing.group txns = Ok (fi, fo) ->
  fan_in_from txns fi /\ fan_out_from txns fo.
Proof.
  unfold Smurfing.group.
  apply (for_each_inv _
           (fun st => fan_in_from txns (fst st) /\ fan_out_from txns (snd st))).
  - intros [a b] txn [a' b'] I [Ha Hb]. unfold Smurfing.group_step.
    intros E. apply bind_Ok in E as (q & _ & E).
    destruct (parse_ts (timestamp txn)) as [t|] eqn:P;
      [|injection E as <- <-; tauto].
    destruct (truthy (sender_id txn)) eqn:Ts;
      [|injection E as <- <-; tauto].
    destruct (truthy (receiver_id txn)) eqn:Tr;
      injection E as <- <-; [|tauto].
    apply truthy_Some in Ts, Tr. cbn [fst snd] in *. split.
    + intros acc l e Il Ie.
      apply alist_append_In in Il as [Il|(-> & l0 & -> & H0)];
        [now apply (Ha acc l)|].
      apply in_app_or in Ie as [Ie|[<-|[]]].
      * destruct H0 as [->|H0]; [destruct Ie|]. now apply (Ha _ l0).
      * exists txn. cbn [Smurfing.party Smurfing.ts]. rewrite <- Ts, <- Tr. auto.
    + intros acc l e Il Ie.
      apply alist_append_In in Il as [Il|(-> & l0 & -> & H0)];
        [now apply (Hb acc l)|].
      apply in_app_or in Ie as [Ie|[<-|[]]].
      * destruct H0 as [->|H0]; [destruct Ie|]. now apply (Hb _ l0).
      * exists txn. cbn [Smurfing.party Smurfing.ts]. rewrite <- Ts, <- Tr. auto.
  - split; intros acc l e [].
Qed.

Lemma detect_window (threshold : nat) (l : list Smurfing.entry)
  (p : list account) (t : datetime) :
  Smurfing.detect threshold l = Some (p, t) ->
  NoDup p /\ (threshold <= List.length p)%nat /\
  forall x, In x p ->
    exists e, In e l /\ Smurfing.party e = x /\
              (0 <= t - Smurfing.ts e <= Smurfing.TIME_WINDOW_HOURS * 3600)%Z.
Proof.
  rewrite detect_first_reaching. unfold first_reaching.
  destruct (first_from _ _ _) as [k|] eqn:F; [|discriminate].
  intros [= <- <-]. apply first_from_Some in F as (Lk & Hk & _).
  split; [apply distinct_NoDup|]. split; [now apply Nat.leb_le|].
  intros x Hx. unfold parties_within in Hx.
  apply (proj1 (distinct_In _ _)) in Hx.
  apply in_map_iff in Hx as (e & <- & He).
  unfold within_window in He. apply filter_In in He as [He W].
  apply Z.leb_le in W.
  apply In_nth_error in He as [j Ej]. rewrite nth_error_firstn in Ej.
  destruct (j <? S k)%nat eqn:Lj; [|discriminate]. apply Nat.ltb_lt in Lj.
  destruct (nth_error (Smurfing.sort_ts l) k) as [ek|] eqn:Ek;
    [|apply nth_error_None in Ek; lia].
  rewrite (ts_at_nth _ _ _ Ek) in *.
  pose proof (sort_ts_sorted l j k e ek ltac:(lia) Ej Ek) as S.
  exists e. split; [|split; [reflexivity|lia]].
  apply (Permutation_in e (Permutation_sym (sort_ts_perm l))).
  eapply nth_error_In; eauto.
Qed.

(** X14: every ring of the smurfing detector lists at least ten
    distinct counterparties of its account, without repetition, next to
    the account itself; each of them is the sender (fan-in) or the
    receiver (fan-out) of a record of the batch with that account, dated
    at most 72 hours before the instant [detected_at] of the ring. *)
Theorem smurfing_ring_counterparties {py : PyLib} (txns : list transaction)
  (res : result) (r : fraud_ring) :
  Smurfing.run txns = Ok res -> In r (fraud_rings res) ->
  exists acc parties t,
    NoDup parties /\ (10 <= List.length parties)%nat /\
    ((r = fan_in_ring acc parties t /\
      forall p, In p parties ->
        exists txn t',
          In txn txns /\ sender_id txn = Some p /\ receiver_id txn = Some acc /\
          parse_ts (timestamp txn) = Some t' /\ (0 <= t - t' <= 259200)%Z)
     \/
     (r = fan_out_ring acc parties t /\
      forall p, In p parties ->
        exists txn t',
          In txn txns /\ sender_id txn = Some acc /\ receiver_id txn = Some p /\
          parse_ts (timestamp txn) = Some t' /\ (0 <= t - t' <= 259200)%Z)).
Proof.
  intros R I. pose proof R as R0. unfold Smurfing.run in R0.
  apply bind_Ok in R0 as ([fi fo] & G & _).
  rewrite (smurfing_run_output _ _ _ G) in R. injection R as <-.
  destruct (group_entries_from _ _ _ G) as [Fi Fo].
  cbn [fraud_rings] in I. apply in_app_or in I as [I|I];
    apply in_flat_map in I as ([acc l] & Hl & Hr).
  - unfold fan_in_rings_of in Hr. cbn [fst snd] in Hr.
    destruct (Smurfing.detect _ l) as [[p t]|] eqn:D; [|destruct Hr].
    destruct Hr as [<-|[]].
    destruct (detect_window _ _ _ _ D) as (N & L & W).
    exists acc, p, t. split; [exact N|]. split; [exact L|]. left.
    split; [reflexivity|]. intros x Hx.
    destruct (W x Hx) as (e & He & <- & B).
    destruct (Fi acc l e Hl He) as (txn & It & S & Rc & P).
    exists txn, (Smurfing.ts e). auto.
  - unfold fan_out_rings_of in Hr. cbn [fst snd] in Hr.
    destruct (Smurfing.detect _ l) as [[p t]|] eqn:D; [|destruct Hr].
    destruct Hr as [<-|[]].
    destruct (detect_window _ _ _ _ D) as (N & L & W).
    exists acc, p, t. split; [exact N|]. split; [exact L|]. right.
    split; [reflexivity|]. intros x Hx.
    destruct (W x Hx) as (e & He & <- & B).
    destruct (Fo acc l e Hl He) as (txn & It & S & Rc & P).
    exists txn, (Smurfing.ts e). auto.
Qed.

Lemma smurfing_ring_counterparties_witness :
  exists r acc parties t,
    In r (match @Smurfing.run Ref.py (Batch.fan_in 12 "Aggregator") with
          | Ok res => fraud_rings res
          | Raise _ => []
          end) /\
    NoDup parties /\ (10 <= List.length parties)%nat /\
    ((r = fan_in_ring acc parties t /\
      forall p, In p parties ->
        exists txn t',
          In txn (Batch.fan_in 12 "Aggregator") /\
          sender_id txn = Some p /\ receiver_id txn = Some acc /\
          @parse_ts Ref.py (timestamp txn) = Some t' /\
          (0 <= t - t' <= 259200)%Z)
     \/
     (r = fan_out_ring acc parties t /\
      forall p, In p parties ->
        exists txn t',
          In txn (Batch.fan_in 12 "Aggregator") /\
          sender_id txn = Some acc /\ receiver_id txn = Some p /\
          @parse_ts Ref.py (timestamp txn) = Some t' /\
          (0 <= t - t' <= 259200)%Z)).
Proof.
  match eval vm_compute in (@Smurfing.run Ref.py (Batch.fan_in 12 "Aggregator"))
  with
  | Ok ?res =>
      match eval vm_compute in (fraud_rings res) with
      | ?r :: _ =>
          exists r;
          destruct (@smurfing_ring_counterparties Ref.py
                      (Batch.fan_in 12 "Aggregator") res r)
            as (acc & parties & t & H);
          [vm_compute; reflexivity|vm_compute; left; reflexivity|];
          exists acc, parties, t; split; [vm_compute; left; reflexivity|exact H]
      end
  end.
Defined.

(** ** The frequency sub-score inside a run, and the greatest score *)

Lemma detect_cycles_shape {nx : GraphLib} (st : Circular.state)
  (cycles : list (list account)) :
  Circular.detect_cycles st = Ok cycles ->
  NoDup cycles /\
  forall c, In c cycles ->
    normalize_cycle c = Some c /\ (3 <= List.length c <= 5)%nat.
Proof.
  intros E. split.
  - set (G := Circular.prune (Circular.graph st)) in *.
    destruct (in_bounds_norms (raw_cycles G)) as [norms EN].
    unfold Circular.detect_cycles in E. fold G in E.
    rewrite detect_cycles_nested in E. fold (raw_cycles G) in E.
    destruct (detect_cycles_loop (raw_cycles G) norms [] [] EN)
      as (seen' & R & _); [tauto|].
    rewrite R in E. injection E as <-. apply first_discovery_NoDup.
  - intros c I.
    destruct (detect_cycles_from_raw st cycles E c I) as (r & _ & B & Er).
    split; [now apply normalize_cycle_idem with r|].
    rewrite (normalize_cycle_length _ _ Er).
    unfold in_bounds in B. apply andb_prop in B as [B1 B2].
    apply Nat.leb_le in B1, B2.
    unfold Circular.MIN_CYCLE_LEN, Circular.MAX_CYCLE_LEN in *. lia.
Qed.

Lemma frequency_in_run {py : PyLib} {nx : GraphLib} (st : Circular.state)
  (cycles : list (list account)) (occ : Circular.occurrences_t)
  (c : list account) :
  Circular.detect_cycles st = Ok cycles ->
  for_each Circular.record_occurrence cycles [] = Ok occ ->
  In c cycles ->
  exists fs, Circular.frequency_score c occ = Ok fs /\ fs == 1 # 3.
Proof.
  intros E O I. destruct (detect_cycles_shape st cycles E) as [D Own].
  destruct (Own c I) as [N _].
  unfold Circular.frequency_score. rewrite N. eexists. split; [reflexivity|].
  pose proof (record_occurrence_count cycles [] occ O c) as C.
  unfold occ_len in C. cbn [alist_get List.length Nat.add] in C. rewrite C.
  rewrite (filter_ext_in (has_norm c)
             (fun x => if cycle_eq_dec c x then true else false)).
  - rewrite count_once by assumption. reflexivity.
  - intros x Hx. unfold has_norm. now destruct (Own x Hx) as [-> _].
Qed.

Lemma amount_similarity_range {py : PyLib} (g : DiGraph Circular.edge_data)
  (edges : list (account * account)) (a : Q) :
  Circular.amount_similarity_score g edges = Ok a -> 0 <= a <= 1.
Proof.
  unfold Circular.amount_similarity_score. intros E.
  apply bind_Ok in E as (amounts & _ & E).
  destruct amounts as [|x t]; [injection E as <-; split; discriminate|].
  destruct (Qeq_bool _ 0); [injection E as <-; split; discriminate|].
  destruct (List.length (x :: t) =? 1)%nat;
    injection E as <-; [split; discriminate|apply clamp01_range].
Qed.

Lemma volume_range (g : DiGraph Circular.edge_data) (c : list account)
  (edges : list (account * account)) (v : Q) :
  Circular.volume_score g c edges = Ok v -> 0 <= v <= 1.
Proof.
  unfold Circular.volume_score. intros E.
  apply bind_Ok in E as (cv & _ & E).
  destruct (Qeq_bool _ 0); injection E as <-;
    [split; discriminate|apply clamp01_range].
Qed.

Lemma time_score_range (em : Circular.edge_meta_t)
  (edges : list (account * account)) :
  0 <= Circular.time_score em edges <= 1.
Proof.
  unfold Circular.time_score.
  destruct (Circular.edge_timestamps em edges) as [|t [|t' rest]];
    [split; discriminate|split; discriminate|apply clamp01_range].
Qed.

Lemma length_score_range (c : list account) :
  0 <= Circular.length_score c <= 1.
Proof. apply clamp01_range. Qed.

Lemma round2_cap (x : Q) :
  0 <= x -> x <= 8667 # 100 -> round2 x <= 8667 # 100.
Proof.
  intros L U. unfold round2.
  destruct (round_half_even_bounds (x * 100) 0 8667) as [_ B].
  { split.
    - change (inject_Z 0) with (0 * 100).
      apply Qmult_le_compat_r; [exact L|discriminate].
    - setoid_replace (inject_Z 8667) with ((8667 # 100) * 100) by reflexivity.
      apply Qmult_le_compat_r; [exact U|discriminate]. }
  apply Qle_shift_div_r; [reflexivity|].
  setoid_replace ((8667 # 100) * 100) with (inject_Z 8667) by reflexivity.
  now rewrite <- Zle_Qle.
Qed.

Lemma compute_cap {py : PyLib} {nx : GraphLib} (st : Circular.state)
  (cycles : list (list account)) (occ : Circular.occurrences_t)
  (c : list account) (s : Q) :
  Circular.detect_cycles st = Ok cycles ->
  for_each Circular.record_occurrence cycles [] = Ok occ ->
  In c cycles ->
  Circular.compute (Circular.graph st) (Circular.edge_meta st) c occ = Ok s ->
  s <= 8667 # 100.
Proof.
  intros E O I C. unfold Circular.compute in C.
  apply bind_Ok in C as (edges & _ & C).
  apply bind_Ok in C as (a & Ea & C).
  apply bind_Ok in C as (f & Ef & C).
  apply bind_Ok in C as (v & Ev & C). injection C as <-.
  destruct (frequency_in_run st cycles occ c E O I) as (f' & Ef' & F).
  rewrite Ef in Ef'. injection Ef' as <-.
  apply amount_similarity_range in Ea. apply volume_range in Ev.
  pose proof (time_score_range (Circular.edge_meta st) edges) as T.
  pose proof (length_score_range c) as Ln.
  set (raw := _ + _ + _ + _ + _).
  assert (R : raw <= 13 # 15).
  { subst raw. unfold Circular.W_LENGTH, Circular.W_AMOUNT, Circular.W_TIME,
      Circular.W_FREQUENCY, Circular.W_VOLUME. lra. }
  apply round2_cap.
  - apply clamp01_percent.
  - assert (K : clamp01 raw <= 13 # 15).
    { rewrite clamp01_spec. apply Q.max_lub; [discriminate|].
      eapply Qle_trans; [apply Q.le_min_r|exact R]. }
    lra.
Qed.

(** ** What [Circular.run] returns *)

Lemma circular_run_inv {py : PyLib} {nx : GraphLib}
  (txns : list transaction) (res : result) :
  Circular.run txns = Ok res ->
  let st := Circular.build_graph txns Circular.init in
  exists cycles occ idx ad,
    Circular.detect_cycles st = Ok cycles /\
    for_each Circular.record_occurrence cycles [] = Ok occ /\
    for_each (Circular.score_cycle st occ) cycles (1%nat, [], [])
    = Ok (idx, fraud_rings res, ad) /\
    for_each Circular.flag_account ad [] = Ok (suspicious_accounts res).
Proof.
  intros E. cbv zeta. unfold Circular.run in E.
  apply bind_Ok in E as (cycles & Ec & E).
  apply bind_Ok in E as (occ & Eo & E).
  apply bind_Ok in E as ([[idx rings] ad] & Es & E).
  apply bind_Ok in E as (susp & Ef & E). injection E as <-.
  exists cycles, occ, idx, ad. simpl. auto.
Qed.

Lemma lookup_entries_append (a a' : account) (e : Circular.entry)
  (d : Circular.account_data_t) :
  lookup_entries a' (alist_append account_eq_dec a e d)
  = lookup_entries a' d ++ (if String.eqb a' a then [e] else []).
Proof.
  unfold lookup_entries, alist_append.
  destruct (String.eqb_spec a' a) as [->|N].
  - rewrite alist_get_upsert_same.
    destruct (alist_get account_eq_dec a d); reflexivity.
  - rewrite alist_get_upsert_other by exact N. now rewrite app_nil_r.
Qed.

Lemma lookup_entries_members (e : Circular.entry) (a : account)
  (members : list account) : forall d : Circular.account_data_t,
  lookup_entries a
    (fold_left (fun d a' => alist_append account_eq_dec a' e d) members d)
  = lookup_entries a d ++ map (fun _ => e) (filter (String.eqb a) members).
Proof.
  induction members as [|m t IH]; intros d; simpl.
  - now rewrite app_nil_r.
  - rewrite IH, lookup_entries_append, <- app_assoc.
    destruct (String.eqb a m); reflexivity.
Qed.

Lemma account_data_keys (e : Circular.entry) (members : list account) :
  forall d : Circular.account_data_t,
  NoDup (map fst d) /\ Forall (fun kv => snd kv <> []) d ->
  let d' := fold_left (fun d a' => alist_append account_eq_dec a' e d)
              members d in
  NoDup (map fst d') /\ Forall (fun kv => snd kv <> []) d'.
Proof.
  intros d H. apply fold_left_inv; [|exact H].
  intros d0 a _ [D F]. split.
  - now apply alist_upsert_NoDup.
  - apply (alist_upsert_Forall account_eq_dec (fun v => v <> [])); auto.
    + discriminate.
    + intros v _. now destruct v.
Qed.

Lemma score_cycle_spec {py : PyLib} (st : Circular.state)
  (occ : Circular.occurrences_t) (idx idx' : nat)
  (rings rings' : list fraud_ring) (ad ad' : Circular.account_data_t)
  (c : list account) :
  Circular.score_cycle st occ (idx, rings, ad) c = Ok (idx', rings', ad') ->
  exists r,
    idx' = S idx /\ rings' = rings ++ [r] /\
    ring_id r = Circular.ring_id_of idx /\ member_accounts r = c /\
    ring_scored st occ r /\
    ad' = fold_left (fun d a => alist_append account_eq_dec a (entry_of r) d)
            c ad.
Proof.
  unfold Circular.score_cycle. intros E.
  apply bind_Ok in E as (sc & Esc & E).
  apply bind_Ok in E as (ct & Ect & E).
  injection E as <- <- <-. eexists. split; [reflexivity|].
  split; [reflexivity|]. unfold ring_scored, entry_of. simpl.
  repeat split; assumption.
Qed.

Lemma score_loop_spec {py : PyLib} (st : Circular.state)
  (occ : Circular.occurrences_t) (cycles : list (list account)) :
  forall (idx idx' : nat) (rings rings' : list fraud_ring)
         (ad ad' : Circular.account_data_t),
  for_each (Circular.score_cycle st occ) cycles (idx, rings, ad)
  = Ok (idx', rings', ad') ->
  exists new,
    rings' = rings ++ new /\
    map member_accounts new = cycles /\
    map ring_id new
    = map Circular.ring_id_of (seq idx (List.length cycles)) /\
    Forall (ring_scored st occ) new /\
    (forall a, lookup_entries a ad'
               = lookup_entries a ad ++ entries_of a new) /\
    (NoDup (map fst ad) /\ Forall (fun kv => snd kv <> []) ad ->
     NoDup (map fst ad') /\ Forall (fun kv => snd kv <> []) ad').
Proof.
  induction cycles as [|c t IH]; intros idx idx' rings rings' ad ad' E.
  - injection E as <- <- <-. exists []. rewrite app_nil_r.
    repeat split; auto; try tauto. intros a. now rewrite app_nil_r.
  - cbn [for_each] in E. apply bind_Ok in E as ([[i1 r1] a1] & E1 & E).
    apply score_cycle_spec in E1 as (r & -> & -> & Id & M & S & ->).
    apply IH in E as (new & -> & Mn & In' & Sn & L & K).
    exists (r :: new). rewrite <- app_assoc. split; [reflexivity|].
    split; [simpl; now rewrite M, Mn|].
    split; [simpl; now rewrite Id, In'|].
    split; [now constructor|]. split.
    + intros a. rewrite L, lookup_entries_members, <- app_assoc.
      unfold entries_of at 2. simpl. now rewrite M.
    + intros H. apply K. now apply account_data_keys.
Qed.

Lemma max_score_of_ge_init (l : list Q) : forall x,
  x <= Circular.max_score_of x l.
Proof.
  unfold Circular.max_score_of.
  induction l as [|y t IH]; simpl; intros x; [apply Qle_refl|].
  eapply Qle_trans; [apply py_maxQ_ge_l|apply IH].
Qed.

Lemma max_score_of_ge (l : list Q) : forall x y,
  In y (x :: l) -> y <= Circular.max_score_of x l.
Proof.
  induction l as [|z t IH]; intros x y [<-|I].
  - apply Qle_refl.
  - destruct I.
  - apply max_score_of_ge_init.
  - change (Circular.max_score_of x (z :: t))
      with (Circular.max_score_of (py_maxQ x z) t).
    destruct I as [<-|I].
    + eapply Qle_trans; [apply py_maxQ_ge_r|apply max_score_of_ge_init].
    + apply IH. now right.
Qed.

Lemma flagged_iff_positive (e0 : Circular.entry) (rest : list Circular.entry) :
  Qltb Circular.HIGH_RISK_THRESHOLD
    (Circular.max_score_of (Circular.score e0) (map Circular.score rest))
  || (Circular.HIGH_RISK_CYCLE_COUNT
      <? List.length
           (filter (fun e => Qltb Circular.HIGH_RISK_THRESHOLD (Circular.score e))
                   (e0 :: rest)))%nat
  = existsb positive (e0 :: rest).
Proof.
  destruct (existsb positive (e0 :: rest)) eqn:X.
  - apply existsb_exists in X as (e & I & P). unfold positive in P.
    apply Qltb_lt in P. apply orb_true_iff. left. apply Qltb_lt.
    eapply Qlt_le_trans; [exact P|]. apply max_score_of_ge.
    change (Circular.score e0 :: map Circular.score rest)
      with (map Circular.score (e0 :: rest)). now apply in_map.
  - assert (A : forall e, In e (e0 :: rest) -> positive e = false).
    { intros e I. destruct (positive e) eqn:P; [|reflexivity].
      rewrite <- X. symmetry. apply existsb_exists. eauto. }
    apply orb_false_iff. split.
    + pose proof (max_score_of_In (map Circular.score rest) (Circular.score e0))
        as I.
      change (Circular.score e0 :: map Circular.score rest)
        with (map Circular.score (e0 :: rest)) in I.
      apply in_map_iff in I as (e & <- & Ie). now apply A.
    + rewrite filter_none; [reflexivity|].
      intros j e Ej. apply A. now apply nth_error_In with j.
Qed.

Lemma flag_account_spec (out out' : list suspicious_account) (acc : account)
  (entries : list Circular.entry) :
  Circular.flag_account out (acc, entries) = Ok out' ->
  if existsb positive entries
  then exists s, out' = out ++ [s] /\ account_id s = acc /\ flagged_as s entries
  else out' = out.
Proof.
  unfold Circular.flag_account. destruct entries as [|e0 rest]; [discriminate|].
  rewrite flagged_iff_positive.
  destruct (existsb positive (e0 :: rest)); intros E; injection E as <-;
    [|reflexivity].
  eexists. split; [reflexivity|]. split; [reflexivity|].
  exists e0, rest. simpl. auto.
Qed.

Lemma flag_loop_spec (ad : Circular.account_data_t) :
  forall out out' : list suspicious_account,
  for_each Circular.flag_account ad out = Ok out' ->
  exists new,
    out' = out ++ new /\
    map account_id new
    = map fst (filter (fun kv => existsb positive (snd kv)) ad) /\
    forall s, In s new ->
      exists entries, In (account_id s, entries) ad /\ flagged_as s entries.
Proof.
  induction ad as [|[acc entries] t IH]; intros out out' E.
  - injection E as <-. exists []. rewrite app_nil_r. simpl. tauto.
  - cbn [for_each] in E. apply bind_Ok in E as (o1 & E1 & E).
    apply flag_account_spec in E1. apply IH in E as (new & -> & M & S).
    cbn [filter snd]. destruct (existsb positive entries).
    + destruct E1 as (s & -> & A & F). exists (s :: new).
      rewrite <- app_assoc. split; [reflexivity|]. split.
      * simpl. now rewrite A, M.
      * intros s' [<-|I].
        -- exists entries. rewrite A. split; [now left|exact F].
        -- destruct (S s' I) as (es & Ie & Fe). exists es. split; [now right|auto].
    + subst o1. exists new. split; [reflexivity|]. split; [exact M|].
      intros s' I. destruct (S s' I) as (es & Ie & Fe).
      exists es. split; [now right|auto].
Qed.

Lemma NoDup_keys_filter {K V : Type} (f : K * V -> bool) (l : list (K * V)) :
  NoDup (map fst l) -> NoDup (map fst (filter f l)).
Proof.
  induction l as [|x t IH]; simpl; intros D; [constructor|].
  inversion D as [|? ? N D']; subst. destruct (f x); simpl; auto.
  constructor; auto. intros I. apply N.
  apply in_map_iff in I as (y & E & I). apply filter_In in I as [I _].
  rewrite <- E. now apply in_map.
Qed.

Lemma entries_of_In (a : account) (rings : list fraud_ring)
  (e : Circular.entry) :
  In e (entries_of a rings) <->
  exists r, In r rings /\ In a (member_accounts r) /\ e = entry_of r.
Proof.
  unfold entries_of. rewrite in_flat_map. split.
  - intros (r & Ir & Ie). apply in_map_iff in Ie as (x & <- & Ix).
    apply filter_In in Ix as [Ix Ex]. apply String.eqb_eq in Ex. subst x.
    eauto.
  - intros (r & Ir & Ia & ->). exists r. split; [exact Ir|].
    apply in_map_iff. exists a. split; [reflexivity|].
    apply filter_In. split; [exact Ia|apply String.eqb_refl].
Qed.

Lemma entries_of_first (a : account) (rings : list fraud_ring)
  (e0 : Circular.entry) (rest : list Circular.entry) :
  entries_of a rings = e0 :: rest ->
  exists r, first_ring_of a rings = Some r /\ e0 = entry_of r.
Proof.
  unfold first_ring_of, mem.
  induction rings as [|r t IH]; simpl; [discriminate|]. intros E.
  destruct (in_dec account_eq_dec a (member_accounts r)) as [I|N].
  - exists r. split; [reflexivity|].
    destruct (filter (String.eqb a) (member_accounts r)) as [|x l] eqn:F.
    + exfalso.
      assert (In a (filter (String.eqb a) (member_accounts r))) as Ia.
      { apply filter_In. split; [exact I|apply String.eqb_refl]. }
      rewrite F in Ia. destruct Ia.
    + simpl in E. now injection E as <- _.
  - rewrite filter_none in E.
    + simpl in E. now apply IH.
    + intros j x Ej. apply nth_error_In in Ej.
      destruct (String.eqb_spec a x); [now subst|reflexivity].
Qed.

Lemma circular_accounts_spec {py : PyLib} {nx : GraphLib}
  (txns : list transaction) (res : result) :
  Circular.run txns = Ok res ->
  NoDup (map account_id (suspicious_accounts res)) /\
  (forall a, In a (map account_id (suspicious_accounts res)) <->
             existsb positive (entries_of a (fraud_rings res)) = true) /\
  forall s, In s (suspicious_accounts res) ->
    flagged_as s (entries_of (account_id s) (fraud_rings res)).
Proof.
  intros E. apply circular_run_inv in E as (cycles & occ & idx & ad & _ & _ & Es & Ef).
  apply score_loop_spec in Es as (new & Er & _ & _ & _ & L & K).
  simpl in Er. subst new.
  destruct K as [D NE]; [split; constructor|].
  apply flag_loop_spec in Ef as (susp & Eq & M & S). simpl in Eq. subst susp.
  assert (G : forall a es, In (a, es) ad -> es = entries_of a (fraud_rings res)).
  { intros a es I. rewrite <- (app_nil_l (entries_of _ _)).
    change (@nil Circular.entry) with (lookup_entries a []).
    rewrite <- L. unfold lookup_entries.
    now rewrite (alist_In_get account_eq_dec a es ad D I). }
  split; [rewrite M; now apply NoDup_keys_filter|]. split.
  - intros a. rewrite M, in_map_iff. split.
    + intros ([a' es] & <- & I). apply filter_In in I as [I X]. simpl in *.
      now rewrite <- (G _ _ I).
    + intros X. specialize (L a). simpl in L. unfold lookup_entries in L.
      destruct (alist_get account_eq_dec a ad) as [es|] eqn:A.
      * exists (a, es). split; [reflexivity|]. apply filter_In.
        split; [now apply (alist_get_In account_eq_dec)|]. simpl. now rewrite L.
      * rewrite <- L in X. discriminate.
  - intros s I. destruct (S s I) as (es & Ie & F). now rewrite <- (G _ _ Ie).
Qed.

Lemma digit_value_digit_of (n : nat) :
  digit_value (Circular.digit_of n) = (n mod 10)%nat.
Proof.
  unfold digit_value, Circular.digit_of.
  pose proof (Nat.mod_upper_bound n 10) as B.
  rewrite nat_ascii_embedding by lia. lia.
Qed.

Lemma read_nat_digits (fuel : nat) : forall (n : nat) (acc : string),
  (n < fuel)%nat ->
  read_nat 0 (Circular.digits_of fuel n acc) = read_nat n acc.
Proof.
  induction fuel as [|f IH]; intros n acc H; [lia|].
  cbn [Circular.digits_of]. destruct (n <? 10)%nat eqn:L.
  - apply Nat.ltb_lt in L. cbn [read_nat].
    rewrite digit_value_digit_of, Nat.mod_small by exact L. reflexivity.
  - apply Nat.ltb_ge in L. rewrite IH.
    + cbn [read_nat]. rewrite digit_value_digit_of.
      now rewrite <- Nat.div_mod_eq.
    + apply Nat.Div0.div_lt_upper_bound. lia.
Qed.

Lemma read_nat_zeros (k : nat) (s : string) :
  read_nat 0 (Circular.zeros k s) = read_nat 0 s.
Proof. induction k as [|k IH]; simpl; [reflexivity|exact IH]. Qed.

Lemma ring_id_of_inj (i j : nat) :
  Circular.ring_id_of i = Circular.ring_id_of j -> i = j.
Proof.
  unfold Circular.ring_id_of. simpl. intros E. injection E as E.
  apply (f_equal (read_nat 0)) in E. unfold Circular.zero_pad in E.
  rewrite !read_nat_zeros in E. unfold Circular.str_of_nat in E.
  rewrite !read_nat_digits in E by lia. exact E.
Qed.

Lemma NoDup_map_inj {A B : Type} (f : A -> B) (l : list A) :
  (forall x y, f x = f y -> x = y) -> NoDup l -> NoDup (map f l).
Proof.
  intros Inj. induction 1 as [|x t N D IH]; simpl; constructor; auto.
  intros I. apply in_map_iff in I as (y & E & I). apply Inj in E. now subst.
Qed.

Lemma round_half_even_int (x : Q) (z : Z) :
  x == inject_Z z -> round_half_even x = z.
Proof.
  intros E. unfold round_half_even.
  assert (F : Qfloor x = z) by (rewrite E; apply Qfloor_Z).
  rewrite F.
  assert (L : Qltb (x - inject_Z z) (1 # 2) = true).
  { apply Qltb_lt. rewrite E. lra. }
  now rewrite L.
Qed.

Lemma round2_idem (x : Q) : round2 (round2 x) == round2 x.
Proof.
  unfold round2 at 1.
  rewrite (round_half_even_int _ (round_half_even (x * 100))); [reflexivity|].
  unfold round2. field.
Qed.

Lemma circular_rings_spec {py : PyLib} {nx : GraphLib}
  (txns : list transaction) (res : result) :
  Circular.run txns = Ok res ->
  exists cycles occ,
    Circular.detect_cycles (Circular.build_graph txns Circular.init)
    = Ok cycles /\
    for_each Circular.record_occurrence cycles [] = Ok occ /\
    map member_accounts (fraud_rings res) = cycles /\
    map ring_id (fraud_rings res)
    = map Circular.ring_id_of (seq 1 (List.length cycles)) /\
    Forall (ring_scored (Circular.build_graph txns Circular.init) occ)
      (fraud_rings res).
Proof.
  intros E.
  apply circular_run_inv in E as (cycles & occ & idx & ad & Ec & Eo & Es & _).
  apply score_loop_spec in Es as (new & Er & M & I & S & _).
  simpl in Er. subst new. exists cycles, occ. auto.
Qed.

Lemma patterns_of_In (entries : list Circular.entry) (p : string) :
  In p (sorted_str (distinct (Circular.patterns_of entries))) <->
  exists e, In e entries /\
    ((Circular.cycle_length e = 3%nat /\ p = "cycle_length_3"%string) \/
     (85 < Circular.score e /\ p = "high_velocity"%string)).
Proof.
  assert (S : In p (sorted_str (distinct (Circular.patterns_of entries)))
              <-> In p (Circular.patterns_of entries)).
  { split; intros H.
    - apply (proj1 (distinct_In _ _)).
      eapply Permutation_in; [apply Permutation_sym, sorted_str_perm|exact H].
    - eapply Permutation_in; [apply sorted_str_perm|].
      now apply (proj2 (distinct_In _ _)). }
  rewrite S. unfold Circular.patterns_of. rewrite in_flat_map.
  split; intros (e & I & H); exists e; (split; [exact I|]).
  - apply in_app_or in H as [H|H].
    + destruct (Nat.eqb_spec (Circular.cycle_length e) 3) as [E|N];
        [|destruct H]. destruct H as [<-|[]]. now left.
    + destruct (Qltb 85 (Circular.score e)) eqn:V; [|destruct H].
      destruct H as [<-|[]]. right. split; [now apply Qltb_lt|reflexivity].
  - apply in_or_app. destruct H as [[E ->]|[V ->]].
    + left. rewrite E. now left.
    + right. apply Qltb_lt in V. rewrite V. now left.
Qed.

Lemma circular_ring_scores {py : PyLib} {nx : GraphLib}
  (txns : list transaction) (res : result) :
  Circular.run txns = Ok res ->
  forall r, In r (fraud_rings res) ->
    0 <= risk_score r <= RUN_SCORE_CAP /\ round2 (risk_score r) == risk_score r.
Proof.
  intros E r I.
  destruct (circular_rings_spec txns res E) as (cycles & occ & Ec & Eo & M & _ & S).
  rewrite Forall_forall in S. destruct (S r I) as (_ & C & _).
  assert (Ic : In (member_accounts r) cycles).
  { rewrite <- M. now apply in_map. }
  split; [split|].
  - now destruct (compute_range _ _ _ _ _ C).
  - exact (compute_cap _ cycles occ _ _ Ec Eo Ic C).
  - unfold Circular.compute in C.
    apply bind_Ok in C as (edges & _ & C).
    apply bind_Ok in C as (a & _ & C).
    apply bind_Ok in C as (f & _ & C).
    apply bind_Ok in C as (v & _ & C). injection C as C.
    rewrite <- C. apply round2_idem.
Qed.

Lemma flagged_as_best (s : suspicious_account) (a : account)
  (rings : list fraud_ring) :
  flagged_as s (entries_of a rings) ->
  exists best,
    In best rings /\ In a (member_accounts best) /\
    suspicion_score s = round2 (risk_score best) /\
    forall r, In r rings -> In a (member_accounts r) ->
      risk_score r <= risk_score best.
Proof.
  intros (e0 & rest & E & Sc & _ & _).
  pose proof (max_score_of_In (map Circular.score rest) (Circular.score e0)) as I.
  change (Circular.score e0 :: map Circular.score rest)
    with (map Circular.score (e0 :: rest)) in I.
  apply in_map_iff in I as (e & Em & Ie). rewrite <- E in Ie.
  apply entries_of_In in Ie as (best & Ib & Ia & ->).
  exists best. split; [exact Ib|]. split; [exact Ia|]. split.
  - rewrite Sc, <- Em. reflexivity.
  - intros r Ir Iar. simpl in Em. rewrite Em. apply max_score_of_ge.
    change (Circular.score e0 :: map Circular.score rest)
      with (map Circular.score (e0 :: rest)). rewrite <- E.
    apply in_map_iff. exists (entry_of r). split; [reflexivity|].
    apply entries_of_In. eauto.
Qed.

(** X15: in a run every ring is recorded once, so the frequency part of
    its score is a third, and the weighted sum is at most 13/15: no ring
    of the circular detector has a risk score above 86.67, and no
    account that it flags has a suspicion score above 86.67. *)
Theorem circular_scores_capped {py : PyLib} {nx : GraphLib}
  (txns : list transaction) (res : result) :
  Circular.run txns = Ok res ->
  (forall r, In r (fraud_rings res) -> risk_score r <= RUN_SCORE_CAP) /\
  (forall s, In s (suspicious_accounts res) ->
     suspicion_score s <= RUN_SCORE_CAP).
Proof.
  intros E. pose proof (circular_ring_scores txns res E) as R. split.
  - intros r I. now destruct (R r I) as [[_ U] _].
  - intros s I.
    destruct (circular_accounts_spec txns res E) as (_ & _ & F).
    destruct (flagged_as_best _ _ _ (F s I)) as (best & Ib & _ & Sc & _).
    destruct (R best Ib) as [[L U] _]. rewrite Sc.
    now apply round2_cap.
Qed.

Lemma circular_scores_capped_witness :
  exists res,
    @Circular.run Ref.py Ref.nx Batch.cycle = Ok res /\
    fraud_rings res <> [] /\
    (forall r, In r (fraud_rings res) -> risk_score r <= RUN_SCORE_CAP) /\
    (forall s, In s (suspicious_accounts res) ->
       suspicion_score s <= RUN_SCORE_CAP).
Proof.
  eexists. split; [vm_compute; reflexivity|]. split; [discriminate|].
  apply (@circular_scores_capped Ref.py Ref.nx Batch.cycle).
  vm_compute. reflexivity.
Defined.

(** X16: the rings that [run] returns are the cycles that
    [detect_cycles] finds, in that order, numbered RING_001, RING_002
    and so on, so that no two rings share an id; every ring has the
    pattern "cycle", its members are a cycle in canonical form of
    three to five accounts, and it is dated by the completion time of
    its members. *)
Theorem circular_rings_of_cycles {py : PyLib} {nx : GraphLib}
  (txns : list transaction) (res : result) :
  Circular.run txns = Ok res ->
  let st := Circular.build_graph txns Circular.init in
  exists cycles,
    Circular.detect_cycles st = Ok cycles /\
    map member_accounts (fraud_rings res) = cycles /\
    map ring_id (fraud_rings res)
    = map Circular.ring_id_of (seq 1 (List.length cycles)) /\
    NoDup (map ring_id (fraud_rings res)) /\
    forall r, In r (fraud_rings res) ->
      pattern_type r = "cycle"%string /\
      normalize_cycle (member_accounts r) = Some (member_accounts r) /\
      (3 <= List.length (member_accounts r) <= 5)%nat /\
      Circular.get_cycle_completion_time st (member_accounts r)
      = Ok (detected_at r).
Proof.
  intros E st.
  destruct (circular_rings_spec txns res E) as (cycles & occ & Ec & _ & M & I & S).
  fold st in Ec, S. exists cycles. split; [exact Ec|]. split; [exact M|].
  split; [exact I|]. split.
  - rewrite I. apply NoDup_map_inj; [exact ring_id_of_inj|apply seq_NoDup].
  - intros r Ir. rewrite Forall_forall in S. destruct (S r Ir) as (P & _ & T).
    destruct (detect_cycles_shape st cycles Ec) as [_ Sh].
    destruct (Sh (member_accounts r)) as [N B].
    { rewrite <- M. now apply in_map. }
    auto.
Qed.

Lemma circular_rings_of_cycles_witness :
  exists res,
    @Circular.run Ref.py Ref.nx Batch.cycle = Ok res /\
    map ring_id (fraud_rings res) = ["RING_001"%string] /\
    map member_accounts (fraud_rings res) = [["A"; "B"; "C"]%string] /\
    NoDup (map ring_id (fraud_rings res)).
Proof.
  eexists. split; [vm_compute; reflexivity|].
  split; [reflexivity|]. split; [reflexivity|].
  destruct (@circular_rings_of_cycles Ref.py Ref.nx Batch.cycle _
              ltac:(vm_compute; reflexivity)) as (c & _ & _ & _ & D & _).
  exact D.
Defined.

(** X17: the circular detector lists an account once, and exactly when
    it is a member of a ring of positive risk score.  Its suspicion
    score is the greatest risk score of the rings it is a member of, its
    ring id is that of the first of these rings, and its patterns say
    whether one of them has three members ("cycle_length_3") and
    whether one of them scores above 85 ("high_velocity"). *)
Theorem circular_flags_members_of_positive_rings {py : PyLib} {nx : GraphLib}
  (txns : list transaction) (res : result) :
  Circular.run txns = Ok res ->
  NoDup (map account_id (suspicious_accounts res)) /\
  (forall a, In a (map account_id (suspicious_accounts res)) <->
     exists r, In r (fraud_rings res) /\ In a (member_accounts r) /\
               0 < risk_score r) /\
  forall s, In s (suspicious_accounts res) ->
    (exists first,
       first_ring_of (account_id s) (fraud_rings res) = Some first /\
       sa_ring_id s = ring_id first) /\
    (exists best,
       In best (fraud_rings res) /\
       In (account_id s) (member_accounts best) /\
       suspicion_score s == risk_score best /\
       forall r, In r (fraud_rings res) ->
         In (account_id s) (member_accounts r) ->
         risk_score r <= risk_score best) /\
    (In "cycle_length_3"%string (detected_patterns s) <->
     exists r, In r (fraud_rings res) /\
               In (account_id s) (member_accounts r) /\
               List.length (member_accounts r) = 3%nat) /\
    (In "high_velocity"%string (detected_patterns s) <->
     exists r, In r (fraud_rings res) /\
               In (account_id s) (member_accounts r) /\
               85 < risk_score r) /\
    forall p, In p (detected_patterns s) ->
      p = "cycle_length_3"%string \/ p = "high_velocity"%string.
Proof.
  intros E. pose proof (circular_ring_scores txns res E) as R.
  destruct (circular_accounts_spec txns res E) as (D & M & F).
  split; [exact D|]. split.
  - intros a. rewrite M, existsb_exists. split.
    + intros (e & Ie & P). apply entries_of_In in Ie as (r & Ir & Ia & ->).
      exists r. unfold positive in P. apply Qltb_lt in P. auto.
    + intros (r & Ir & Ia & P). exists (entry_of r). split.
      * apply entries_of_In. eauto.
      * unfold positive. now apply Qltb_lt.
  - intros s I. specialize (F s I). split; [|split; [|split; [|split]]].
    + destruct F as (e0 & rest & Ee & _ & Rg & _).
      apply entries_of_first in Ee as (first & Ff & ->).
      exists first. split; [exact Ff|exact Rg].
    + destruct (flagged_as_best _ _ _ F) as (best & Ib & Ia & Sc & G).
      exists best. split; [exact Ib|]. split; [exact Ia|].
      split; [|exact G]. rewrite Sc. now destruct (R best Ib) as [_ ->].
    + destruct F as (e0 & rest & _ & _ & _ & ->). rewrite patterns_of_In.
      split.
      * intros (e & Ie & [[L _]|[_ X]]); [|discriminate].
        apply entries_of_In in Ie as (r & Ir & Ia & ->). eauto.
      * intros (r & Ir & Ia & L). exists (entry_of r). split.
        -- apply entries_of_In. eauto.
        -- left. split; [exact L|reflexivity].
    + destruct F as (e0 & rest & _ & _ & _ & ->). rewrite patterns_of_In.
      split.
      * intros (e & Ie & [[_ X]|[V _]]); [discriminate|].
        apply entries_of_In in Ie as (r & Ir & Ia & ->). eauto.
      * intros (r & Ir & Ia & V). exists (entry_of r). split.
        -- apply entries_of_In. eauto.
        -- right. split; [exact V|reflexivity].
    + destruct F as (e0 & rest & _ & _ & _ & ->). intros p Ip.
      apply patterns_of_In in Ip as (e & _ & [[_ ->]|[_ ->]]); auto.
Qed.

Lemma circular_flags_members_of_positive_rings_witness :
  exists res,
    @Circular.run Ref.py Ref.nx Batch.cycle = Ok res /\
    map account_id (suspicious_accounts res) = ["A"; "B"; "C"]%string /\
    NoDup (map account_id (suspicious_accounts res)).
Proof.
  eexists. split; [vm_compute; reflexivity|]. split; [reflexivity|].
  exact (proj1 (@circular_flags_members_of_positive_rings Ref.py Ref.nx
                  Batch.cycle _ ltac:(vm_compute; reflexivity))).
Defined.

(** ** [Circular.run] returns *)

Lemma steps_app (l1 l2 : list account) (m : account) (p : account * account) :
  In p (steps (l1 ++ m :: l2)) <->
  In p (steps (l1 ++ [m])) \/ In p (steps (m :: l2)).
Proof.
  induction l1 as [|z t IH].
  - simpl. tauto.
  - destruct t as [|y t'].
    + change (steps ([z] ++ m :: l2)) with ((z, m) :: steps (m :: l2)).
      simpl. tauto.
    + change (steps ((z :: y :: t') ++ m :: l2))
        with ((z, y) :: steps ((y :: t') ++ m :: l2)).
      change (steps ((z :: y :: t') ++ [m]))
        with ((z, y) :: steps ((y :: t') ++ [m])).
      simpl In. rewrite IH. tauto.
Qed.

Lemma cycle_pairs_steps (x : account) (t : list account) :
  cycle_pairs (x :: t) = steps (x :: t ++ [x]).
Proof.
  unfold cycle_pairs. generalize x at 2 4. revert x.
  induction t as [|y t IH]; intros x z; [reflexivity|].
  change (combine (x :: y :: t) ((y :: t) ++ [z]))
    with ((x, y) :: combine (y :: t) (t ++ [z])).
  now rewrite IH.
Qed.

Lemma cycle_pairs_rotate (a b : list account) (p : account * account) :
  In p (cycle_pairs (b ++ a)) <-> In p (cycle_pairs (a ++ b)).
Proof.
  destruct a as [|x a']; [now rewrite app_nil_r|].
  destruct b as [|y b']; [now rewrite app_nil_r|].
  change ((y :: b') ++ x :: a') with (y :: b' ++ x :: a').
  change ((x :: a') ++ y :: b') with (x :: a' ++ y :: b').
  rewrite !cycle_pairs_steps, <- !app_assoc.
  change (y :: b' ++ (x :: a') ++ [y]) with ((y :: b') ++ x :: a' ++ [y]).
  change (x :: a' ++ (y :: b') ++ [x]) with ((x :: a') ++ y :: b' ++ [x]).
  rewrite (steps_app (y :: b') (a' ++ [y]) x).
  rewrite (steps_app (x :: a') (b' ++ [x]) y).
  cbn [app]. tauto.
Qed.

Lemma cycle_edges_pairs (c : list account) (edges : list (account * account)) :
  Circular.cycle_edges c = Ok edges -> edges = cycle_pairs c.
Proof. destruct c; [discriminate|]. now intros [= <-]. Qed.

Lemma normalize_cycle_follows {A : Type} (g : DiGraph A) (r c : list account) :
  normalize_cycle r = Some c -> follows_edges g r -> follows_edges g c.
Proof.
  intros E F u v I.
  destruct (normalize_cycle_inv _ _ E) as (a & b & m & -> & -> & _).
  apply F. change (m :: b ++ a) with ((m :: b) ++ a) in I.
  now apply cycle_pairs_rotate in I.
Qed.

Lemma alist_get_filter {K V : Type}
  (eq_dec : forall a b : K, {a = b} + {a <> b}) (f : K -> bool) (k : K)
  (l : list (K * V)) :
  alist_get eq_dec k (filter (fun e => f (fst e)) l)
  = if f k then alist_get eq_dec k l else None.
Proof.
  induction l as [|[k' v'] t IH]; simpl; [now destruct (f k)|].
  destruct (f k') eqn:Fk; simpl.
  - destruct (eq_dec k' k) as [->|N]; [now rewrite Fk|exact IH].
  - rewrite IH. destruct (eq_dec k' k) as [->|N]; [now rewrite Fk|reflexivity].
Qed.

Lemma has_edge_subgraph {A : Type} (g : DiGraph A) (ns : list account)
  (u v : account) :
  has_edge (subgraph g ns) u v = true -> has_edge g u v = true.
Proof.
  unfold has_edge, get_edge. simpl.
  rewrite (alist_get_filter pair_eq_dec
             (fun k => mem (fst k) ns && mem (snd k) ns)).
  now destruct (_ && _).
Qed.

Lemma has_edge_remove {A : Type} (g : DiGraph A) (ns : list account)
  (u v : account) :
  has_edge (remove_nodes_from ns g) u v = true -> has_edge g u v = true.
Proof.
  unfold has_edge, get_edge. simpl.
  rewrite (alist_get_filter pair_eq_dec
             (fun k => negb (mem (fst k) ns) && negb (mem (snd k) ns))).
  now destruct (_ && _).
Qed.

Lemma has_edge_prune (g : DiGraph Circular.edge_data) (u v : account) :
  has_edge (Circular.prune g) u v = true -> has_edge g u v = true.
Proof.
  unfold Circular.prune. cbv zeta. intros H.
  now apply has_edge_remove, has_edge_remove in H.
Qed.

Lemma detected_cycles_follow_edges {nx : GraphLib} (st : Circular.state)
  (cycles : list (list account)) :
  cycles_follow_edges nx ->
  Circular.detect_cycles st = Ok cycles ->
  forall c, In c cycles -> follows_edges (Circular.graph st) c.
Proof.
  intros Contract E c Ic.
  destruct (detect_cycles_from_raw st cycles E c Ic) as (r & Hr & _ & Er).
  apply raw_cycles_In in Hr as [scc Hr]. apply Contract in Hr.
  apply (normalize_cycle_follows _ r c Er).
  intros u v I. now apply has_edge_prune, (has_edge_subgraph _ scc), Hr.
Qed.

Lemma detect_cycles_returns {nx : GraphLib} (st : Circular.state) :
  exists cycles, Circular.detect_cycles st = Ok cycles.
Proof.
  set (G := Circular.prune (Circular.graph st)).
  destruct (in_bounds_norms (raw_cycles G)) as [norms EN].
  unfold Circular.detect_cycles. fold G.
  rewrite detect_cycles_nested. fold (raw_cycles G).
  destruct (detect_cycles_loop (raw_cycles G) norms [] [] EN)
    as (seen' & R & _); [tauto|].
  rewrite R. simpl. eauto.
Qed.

Lemma for_each_returns {A S : Type} (body : S -> A -> outcome S)
  (l : list A) :
  (forall st x, In x l -> exists st', body st x = Ok st') ->
  forall st, exists st', for_each body l st = Ok st'.
Proof.
  induction l as [|x t IH]; intros H st; simpl; [eauto|].
  destruct (H st x) as [s1 ->]; [now left|]. simpl.
  apply IH. intros s y I. apply H. now right.
Qed.

Lemma edge_at_returns (g : DiGraph Circular.edge_data) (u v : account) :
  has_edge g u v = true -> exists d, Circular.edge_at g u v = Ok d.
Proof.
  unfold has_edge, Circular.edge_at.
  destruct (get_edge g u v); [eauto|discriminate].
Qed.

Lemma compute_returns {py : PyLib} (g : DiGraph Circular.edge_data)
  (em : Circular.edge_meta_t) (c : list account)
  (occ : Circular.occurrences_t) :
  c <> [] -> follows_edges g c ->
  exists s, Circular.compute g em c occ = Ok s.
Proof.
  intros NE F. unfold Circular.compute.
  destruct c as [|x t]; [congruence|].
  change (Circular.cycle_edges (x :: t)) with (Ok (cycle_pairs (x :: t))).
  cbn [bind].
  assert (H : forall e, In e (cycle_pairs (x :: t)) ->
                exists d, Circular.edge_at g (fst e) (snd e) = Ok d).
  { intros [u v] I. apply edge_at_returns. now apply F. }
  unfold Circular.amount_similarity_score.
  destruct (for_each_returns
              (fun amounts e =>
                 data <- Circular.edge_at g (fst e) (snd e) ;;
                 Ok (amounts ++
                       [Circular.total_amount data
                        / inject_Z (Circular.weight data)]))
              (cycle_pairs (x :: t))) with (st := @nil Q) as [amounts ->].
  { intros s e I. destruct (H e I) as [d ->]. simpl. eauto. }
  cbn [bind].
  assert (exists a,
    match amounts with
    | [] => Ok 0
    | _ :: _ =>
        if Qeq_bool (Circular.sumQ amounts
                     / inject_Z (Z.of_nat (List.length amounts))) 0
        then Ok 0
        else if (List.length amounts =? 1)%nat then Ok 1
             else Ok (clamp01 (1 - stdev amounts
                                   / (Circular.sumQ amounts
                                      / inject_Z (Z.of_nat (List.length amounts)))))
    end = Ok a) as [a ->].
  { destruct amounts; [eauto|]. destruct (Qeq_bool _ 0); [eauto|].
    destruct (_ =? 1)%nat; eauto. }
  cbn [bind]. unfold Circular.frequency_score.
  destruct (normalize_cycle_some (x :: t) NE) as [n ->].
  cbn [bind]. unfold Circular.volume_score.
  destruct (for_each_returns
              (fun s e =>
                 data <- Circular.edge_at g (fst e) (snd e) ;;
                 Ok (s + Circular.total_amount data))
              (cycle_pairs (x :: t))) with (st := 0) as [cv ->].
  { intros s e I. destruct (H e I) as [d ->]. simpl. eauto. }
  cbn [bind]. destruct (Qeq_bool _ 0); cbn [bind]; eauto.
Qed.

Lemma alist_get_of_key {K V : Type}
  (eq_dec : forall a b : K, {a = b} + {a <> b}) (k : K) (l : list (K * V)) :
  In k (map fst l) -> exists v, alist_get eq_dec k l = Some v.
Proof.
  induction l as [|[k' v'] t IH]; simpl; [tauto|].
  intros H. destruct (eq_dec k' k) as [E|N]; [eauto|].
  destruct H as [H|H]; [contradiction|auto].
Qed.

Lemma successors_has_edge {A : Type} (g : DiGraph A) (u v : account) :
  In v (Ref.successors g u) -> has_edge g u v = true.
Proof.
  unfold Ref.successors, out_edges. intros I.
  apply filter_In in I as [I _]. apply in_map_iff in I as ([[a b] d] & E & I).
  apply filter_In in I as [I M]. simpl in *. subst b.
  apply mem_In in M. destruct M as [<-|[]].
  unfold has_edge, get_edge.
  destruct (alist_get_of_key pair_eq_dec (u, v) (edges g)) as [d' ->];
    [|reflexivity].
  apply in_map_iff. exists (u, v, d). auto.
Qed.

Lemma ref_cycles_from_follow {A : Type} (g : DiGraph A)
  (allowed : list account) (s : account) :
  forall fuel p u t c,
    rev (u :: p) = s :: t ->
    (forall e, In e (steps (rev (u :: p))) ->
       has_edge g (fst e) (snd e) = true) ->
    In c (Ref.cycles_from g allowed s fuel (u :: p) u) ->
    follows_edges g c.
Proof.
  induction fuel as [|f IH]; intros p u t c R F I; simpl in I; [destruct I|].
  apply in_flat_map in I as (v & Hv & I).
  apply successors_has_edge in Hv.
  assert (Fv : forall x, (forall e, In e (steps (rev (u :: p) ++ [x])) ->
                 has_edge g u x = true ->
                 has_edge g (fst e) (snd e) = true)).
  { intros x e Ie Hx. change (rev (u :: p)) with (rev p ++ [u]) in Ie.
    rewrite <- app_assoc in Ie. change ([u] ++ [x]) with (u :: [x]) in Ie.
    apply steps_app in Ie as [Ie|Ie].
    - apply F. exact Ie.
    - simpl in Ie. destruct Ie as [<-|[]]. exact Hx. }
  destruct (mem v [s]) eqn:M.
  - apply mem_In in M. destruct M as [<-|[]]. destruct I as [<-|[]].
    intros a b Iab. change (In (a, b) (cycle_pairs (rev (u :: p)))) in Iab.
    rewrite R, cycle_pairs_steps in Iab.
    change (s :: t ++ [s]) with ((s :: t) ++ [s]) in Iab. rewrite <- R in Iab.
    now apply (Fv s (a, b)).
  - destruct (mem v allowed && negb (mem v (u :: p))); [|destruct I].
    apply (IH (u :: p) v (t ++ [v]) c); [| |exact I].
    + change (rev (v :: u :: p)) with (rev (u :: p) ++ [v]). now rewrite R.
    + intros e Ie. change (rev (v :: u :: p)) with (rev (u :: p) ++ [v]) in Ie.
      now apply (Fv v e).
Qed.

Lemma ref_cycles_over_follow {A : Type} (g : DiGraph A) (k : nat) :
  forall todo c, In c (Ref.cycles_over g k todo) -> follows_edges g c.
Proof.
  induction todo as [|s rest IH]; intros c I; simpl in I; [destruct I|].
  apply in_app_or in I as [I|I]; [|now apply IH].
  apply (ref_cycles_from_follow g rest s k [] s [] c); [reflexivity| |exact I].
  intros e [].
Qed.

Lemma ref_cycles_follow_edges : cycles_follow_edges Ref.nx.
Proof.
  intros G k c I. simpl in I. unfold Ref.simple_cycles in I.
  now apply ref_cycles_over_follow in I.
Qed.

Lemma score_cycle_returns {py : PyLib} (st : Circular.state)
  (occ : Circular.occurrences_t)
  (acc : nat * list fraud_ring * Circular.account_data_t) (c : list account) :
  c <> [] -> follows_edges (Circular.graph st) c ->
  exists acc', Circular.score_cycle st occ acc c = Ok acc'.
Proof.
  intros NE F. destruct acc as [[idx rings] ad]. unfold Circular.score_cycle.
  destruct (compute_returns (Circular.graph st) (Circular.edge_meta st) c occ
              NE F) as [sc ->].
  cbn [bind]. unfold Circular.get_cycle_completion_time.
  destruct c as [|x t]; [congruence|]. cbn [Circular.cycle_edges bind].
  destruct (Circular.edge_timestamps _ _); cbn [bind]; eauto.
Qed.

Lemma circular_run_returns_under {py : PyLib} {nx : GraphLib}
  (txns : list transaction) :
  cycles_follow_edges nx -> exists res, Circular.run txns = Ok res.
Proof.
  intros Contract. unfold Circular.run.
  set (st := Circular.build_graph txns Circular.init).
  destruct (detect_cycles_returns st) as [cycles Ec]. rewrite Ec. cbn [bind].
  destruct (detect_cycles_shape st cycles Ec) as [_ Sh].
  assert (NE : forall c, In c cycles -> c <> []).
  { intros c I ->. destruct (Sh [] I) as [_ [L _]]. simpl in L. lia. }
  destruct (for_each_returns Circular.record_occurrence cycles)
    with (st := @nil (list account * list datetime)) as [occ ->].
  { intros o c I. unfold Circular.record_occurrence.
    destruct (normalize_cycle_some c (NE c I)) as [n ->]. eauto. }
  cbn [bind].
  destruct (for_each_returns (Circular.score_cycle st occ) cycles)
    with (st := (1%nat, @nil fraud_ring, @nil (account * list Circular.entry)))
    as [[[idx rings] ad] Es].
  { intros acc c I. apply score_cycle_returns; [now apply NE|].
    now apply (detected_cycles_follow_edges st cycles Contract Ec). }
  rewrite Es. cbn [bind].
  apply score_loop_spec in Es as (new & _ & _ & _ & _ & _ & K).
  destruct K as [_ K]; [split; constructor|]. rewrite Forall_forall in K.
  destruct (for_each_returns Circular.flag_account ad)
    with (st := @nil suspicious_account) as [susp ->].
  { intros out [a es] I. unfold Circular.flag_account.
    specialize (K _ I). simpl in K. destruct es as [|e0 rest]; [congruence|].
    match goal with |- exists _, (if ?b then _ else _) = _ => destruct b end;
      eauto. }
  cbn [bind]. eauto.
Qed.


(** X18: given that a cycle yielded by [networkx.simple_cycles] runs
    along edges of the graph it was given, the lookups of
    [CircularFundRoutingDetector.run] never fail: on no batch does it
    raise [KeyError] (every [graph[u][v]] of the scorer finds its edge,
    since pruning and subgraphs only remove edges and the canonical
    rotation keeps the edges of a cycle) or [IndexError] (no detected
    cycle is empty). *)
Theorem circular_lookups_never_fail {py : PyLib} {nx : GraphLib}
  (txns : list transaction) :
  cycles_follow_edges nx ->
  Circular.run txns <> Raise KeyError /\
  Circular.run txns <> Raise IndexError.
Proof.
  intros Contract.
  destruct (circular_run_returns_under txns Contract) as [res ->].
  split; discriminate.
Qed.

Lemma circular_lookups_never_fail_witness :
  cycles_follow_edges Ref.nx /\
  @Circular.run Ref.py Ref.nx (Batch.bad_amount :: Batch.cycle)
  <> Raise KeyError /\
  @Circular.run Ref.py Ref.nx (Batch.bad_amount :: Batch.cycle)
  <> Raise IndexError.
Proof.
  split; [exact ref_cycles_follow_edges|].
  exact (@circular_lookups_never_fail Ref.py Ref.nx
           (Batch.bad_amount :: Batch.cycle) ref_cycles_follow_edges).
Defined.


(** ** Every burst is flagged *)

Lemma has_entry_append_keep (m : Smurfing.fan_t) (key k p : account)
  (x : Smurfing.entry) (t : datetime) :
  has_entry m k p t -> has_entry (alist_append account_eq_dec key x m) k p t.
Proof.
  intros (l & e & G & I & Pe & Te). unfold has_entry, alist_append.
  destruct (account_eq_dec k key) as [->|N].
  - rewrite alist_get_upsert_same, G. exists (l ++ [x]), e.
    split; [reflexivity|]. split; [apply in_or_app; now left|auto].
  - rewrite alist_get_upsert_other by exact N. exists l, e. auto.
Qed.

Lemma has_entry_append_new (m : Smurfing.fan_t) (key : account)
  (x : Smurfing.entry) :
  has_entry (alist_append account_eq_dec key x m) key
    (Smurfing.party x) (Smurfing.ts x).
Proof.
  unfold has_entry, alist_append. rewrite alist_get_upsert_same.
  destruct (alist_get account_eq_dec key m) as [l|].
  - exists (l ++ [x]), x. split; [reflexivity|].
    split; [apply in_or_app; right; now left|auto].
  - exists [x], x. split; [reflexivity|]. split; [now left|auto].
Qed.

Lemma group_step_keeps {py : PyLib} (st st' : Smurfing.fan_t * Smurfing.fan_t)
  (txn : transaction) (k p : account) (t : datetime) :
  Smurfing.group_step st txn = Ok st' ->
  (has_entry (fst st) k p t -> has_entry (fst st') k p t) /\
  (has_entry (snd st) k p t -> has_entry (snd st') k p t).
Proof.
  unfold Smurfing.group_step. intros E. apply bind_Ok in E as (q & _ & E).
  destruct (parse_ts (timestamp txn)); [|injection E as <-; tauto].
  destruct (truthy _ && truthy _); injection E as <-; [|tauto].
  simpl. split; apply has_entry_append_keep.
Qed.

Lemma group_step_adds {py : PyLib} (st st' : Smurfing.fan_t * Smurfing.fan_t)
  (txn : transaction) (s r : account) (t : datetime) :
  Smurfing.group_step st txn = Ok st' ->
  sender_id txn = Some s -> receiver_id txn = Some r ->
  s <> ""%string -> r <> ""%string -> parse_ts (timestamp txn) = Some t ->
  has_entry (fst st') r s t /\ has_entry (snd st') s r t.
Proof.
  unfold Smurfing.group_step. intros E Es Er Ns Nr Et.
  apply bind_Ok in E as (q & _ & E). rewrite Et, Es, Er in E.
  cbn [truthy id_of] in E.
  apply String.eqb_neq in Ns, Nr. rewrite Ns, Nr in E. cbn [negb andb] in E.
  injection E as <-. cbn [fst snd]. split.
  - apply (has_entry_append_new (fst st) r
             {| Smurfing.party := s; Smurfing.ts := t; Smurfing.amount := q |}).
  - apply (has_entry_append_new (snd st) s
             {| Smurfing.party := r; Smurfing.ts := t; Smurfing.amount := q |}).
Qed.

Lemma group_loop_keeps {py : PyLib} (txns : list transaction)
  (k p : account) (t : datetime) :
  forall st st',
    for_each Smurfing.group_step txns st = Ok st' ->
    (has_entry (fst st) k p t -> has_entry (fst st') k p t) /\
    (has_entry (snd st) k p t -> has_entry (snd st') k p t).
Proof.
  induction txns as [|txn rest IH]; intros st st' E; cbn [for_each] in E.
  - injection E as <-. tauto.
  - apply bind_Ok in E as (s1 & E1 & E2).
    destruct (group_step_keeps _ _ _ k p t E1) as [A B].
    destruct (IH _ _ E2) as [A' B']. auto.
Qed.

Lemma group_holds_records {py : PyLib} (txns : list transaction)
  (s r : account) (t : datetime) :
  forall st st',
    for_each Smurfing.group_step txns st = Ok st' ->
    dated_record txns s r t ->
    has_entry (fst st') r s t /\ has_entry (snd st') s r t.
Proof.
  induction txns as [|txn rest IH]; intros st st' E (x & I & D);
    [destruct I|].
  cbn [for_each] in E. apply bind_Ok in E as (s1 & E1 & E2).
  destruct I as [<-|I].
  - destruct D as (Es & Er & Ns & Nr & Et).
    destruct (group_step_adds _ _ _ s r t E1 Es Er Ns Nr Et) as [A B].
    split.
    + now apply (group_loop_keeps rest r s t _ _ E2).
    + now apply (group_loop_keeps rest s r t _ _ E2).
  - apply (IH _ _ E2). exists x. auto.
Qed.

Lemma last_position {A : Type} (q : A -> bool) (l : list A) :
  (exists x, In x l /\ q x = true) ->
  exists i e,
    nth_error l i = Some e /\ q e = true /\
    forall j e', (i < j)%nat -> nth_error l j = Some e' -> q e' = false.
Proof.
  induction l as [|y t IH]; intros (x & I & Q); [destruct I|].
  destruct (existsb q t) eqn:X.
  - apply existsb_exists in X. destruct (IH X) as (i & e & N & Qe & L).
    exists (S i), e. split; [exact N|]. split; [exact Qe|].
    intros [|j] e' Lt; [lia|]. apply L. lia.
  - destruct I as [<-|I].
    + exists 0%nat, y. split; [reflexivity|]. split; [exact Q|].
      intros [|j] e' Lt N; [lia|]. simpl in N. apply nth_error_In in N.
      destruct (q e') eqn:Qe; [|reflexivity].
      rewrite <- X. symmetry. apply existsb_exists. eauto.
    + exfalso. assert (existsb q t = true) as X'
        by (apply existsb_exists; eauto). congruence.
Qed.

Lemma detect_burst (threshold : nat) (l : list Smurfing.entry)
  (parties : list account) (t : datetime) :
  (0 < threshold)%nat -> NoDup parties ->
  (threshold <= List.length parties)%nat ->
  (forall p, In p parties ->
     exists e, In e l /\ Smurfing.party e = p /\ in_span t (Smurfing.ts e)) ->
  exists ps at_,
    Smurfing.detect threshold l = Some (ps, at_) /\
    (at_ <= t + Smurfing.TIME_WINDOW_HOURS * 3600)%Z.
Proof.
  intros Pos D Len H. set (s := Smurfing.sort_ts l).
  assert (Hs : forall p, In p parties ->
            exists e, In e s /\ Smurfing.party e = p /\ in_spanb t e = true).
  { intros p Ip. destruct (H p Ip) as (e & Ie & Pe & [L U]). exists e.
    split; [now apply (Permutation_in e (sort_ts_perm l))|].
    split; [exact Pe|]. unfold in_spanb. apply andb_true_iff.
    split; now apply Z.leb_le. }
  destruct (last_position (in_spanb t) s) as (i & ei & Ni & Qi & Last).
  { destruct parties as [|p0 rest]; [simpl in Len; lia|].
    destruct (Hs p0) as (e & Ie & _ & Qe); [now left|]. eauto. }
  assert (Li : (i < List.length s)%nat).
  { apply nth_error_Some. congruence. }
  assert (Ui : (Smurfing.ts_at s i <= t + Smurfing.TIME_WINDOW_HOURS * 3600)%Z).
  { rewrite (ts_at_nth _ _ _ Ni). unfold in_spanb in Qi.
    apply andb_true_iff in Qi as [_ Qi]. now apply Z.leb_le in Qi. }
  assert (Wi : (threshold <= List.length (parties_within s i))%nat).
  { eapply Nat.le_trans; [exact Len|].
    apply NoDup_incl_length; [exact D|]. intros p Ip.
    destruct (Hs p Ip) as (e & Ie & Pe & Qe). unfold parties_within.
    apply (proj2 (distinct_In _ _)). rewrite <- Pe. apply in_map.
    unfold within_window. apply filter_In. split.
    - apply In_nth_error in Ie as [j Nj].
      assert (Lj : (j <= i)%nat).
      { destruct (Nat.le_gt_cases j i) as [L|G]; [exact L|].
        rewrite (Last j e G Nj) in Qe. discriminate. }
      apply nth_error_In with j. rewrite nth_error_firstn.
      assert ((j <? S i)%nat = true) as -> by (apply Nat.ltb_lt; lia).
      exact Nj.
    - apply Z.leb_le. unfold in_spanb in Qe.
      apply andb_true_iff in Qe as [Qe _]. apply Z.leb_le in Qe. lia. }
  rewrite detect_first_reaching. fold s. unfold first_reaching.
  destruct (first_from _ (List.length s) 0) as [k|] eqn:F.
  - apply first_from_Some in F as (Bk & Pk & Before).
    exists (parties_within s k), (Smurfing.ts_at s k).
    split; [reflexivity|].
    assert (Lk : (k <= i)%nat).
    { destruct (Nat.le_gt_cases k i) as [L|G]; [exact L|].
      apply Nat.leb_le in Wi. rewrite Before in Wi by lia. discriminate. }
    destruct (nth_error s k) as [ek|] eqn:Nk.
    + rewrite (ts_at_nth _ _ _ Nk). rewrite (ts_at_nth _ _ _ Ni) in Ui.
      pose proof (sort_ts_sorted l k i ek ei Lk Nk Ni). lia.
    + apply nth_error_None in Nk. lia.
  - exfalso. rewrite first_from_None in F. apply Nat.leb_le in Wi.
    rewrite F in Wi by lia. discriminate.
Qed.

Lemma smurfing_group_of_run {py : PyLib} (txns : list transaction)
  (res : result) :
  Smurfing.run txns = Ok res -> exists fi fo, Smurfing.group txns = Ok (fi, fo).
Proof.
  unfold Smurfing.run. intros E. apply bind_Ok in E as ([fi fo] & G & _). eauto.
Qed.

Lemma burst_entries (m : Smurfing.fan_t) (acc : account)
  (parties : list account) (t : datetime) :
  parties <> [] ->
  (forall p, In p parties ->
     exists t', has_entry m acc p t' /\ in_span t t') ->
  exists l,
    In (acc, l) m /\
    forall p, In p parties ->
      exists e, In e l /\ Smurfing.party e = p /\ in_span t (Smurfing.ts e).
Proof.
  intros NE H. destruct parties as [|p0 rest]; [congruence|].
  destruct (H p0) as (t0 & (l & e0 & G & _) & _); [now left|].
  exists l. split; [now apply (alist_get_In account_eq_dec)|].
  intros p Ip. destruct (H p Ip) as (t' & (l' & e & G' & Ie & Pe & Te) & S).
  rewrite G in G'. injection G' as <-. exists e. rewrite Te. auto.
Qed.

(** X20: whenever the batch holds records from at least ten distinct
    senders to one account whose timestamps all lie within one span of
    72 hours, the smurfing detector returns exactly one ring SMURF_IN
    for the account and one record pointing to it, and the ring is dated
    no later than the end of the span; the same with SMURF_OUT for
    records from one account to at least ten distinct receivers. *)
Theorem smurfing_flags_every_burst {py : PyLib} (txns : list transaction)
  (res : result) (acc : account) (parties : list account) (t : datetime) :
  Smurfing.run txns = Ok res ->
  NoDup parties ->
  ((Smurfing.FAN_IN_THRESHOLD <= List.length parties)%nat ->
   (forall p, In p parties ->
      exists t', dated_record txns p acc t' /\ in_span t t') ->
   exists senders at_,
     rings_with_id ("SMURF_IN_" ++ acc) res = [fan_in_ring acc senders at_] /\
     records_with_ring ("SMURF_IN_" ++ acc) res = [fan_in_record acc] /\
     (at_ <= t + Smurfing.TIME_WINDOW_HOURS * 3600)%Z) /\
  ((Smurfing.FAN_OUT_THRESHOLD <= List.length parties)%nat ->
   (forall p, In p parties ->
      exists t', dated_record txns acc p t' /\ in_span t t') ->
   exists receivers at_,
     rings_with_id ("SMURF_OUT_" ++ acc) res
     = [fan_out_ring acc receivers at_] /\
     records_with_ring ("SMURF_OUT_" ++ acc) res = [fan_out_record acc] /\
     (at_ <= t + Smurfing.TIME_WINDOW_HOURS * 3600)%Z).
Proof.
  intros R D. destruct (smurfing_group_of_run txns res R) as (fi & fo & G).
  split; intros Len H.
  - destruct (burst_entries fi acc parties t) as (l & I & E).
    { intros ->. unfold Smurfing.FAN_IN_THRESHOLD in Len. simpl in Len. lia. }
    { intros p Ip. destruct (H p Ip) as (t' & Rec & S). exists t'.
      split; [|exact S].
      now destruct (group_holds_records txns p acc t' _ _ G Rec) as [A _]. }
    destruct (detect_burst Smurfing.FAN_IN_THRESHOLD l parties t)
      as (ps & at_ & Det & U); auto.
    { unfold Smurfing.FAN_IN_THRESHOLD. lia. }
    destruct (fan_in_of_account txns fi fo res acc l G R I) as [Rg Rc].
    exists ps, at_. rewrite Rg, Rc.
    unfold fan_in_rings_of, fan_in_records_of. cbn [fst snd]. rewrite Det.
    auto.
  - destruct (burst_entries fo acc parties t) as (l & I & E).
    { intros ->. unfold Smurfing.FAN_OUT_THRESHOLD in Len. simpl in Len. lia. }
    { intros p Ip. destruct (H p Ip) as (t' & Rec & S). exists t'.
      split; [|exact S].
      now destruct (group_holds_records txns acc p t' _ _ G Rec) as [_ B]. }
    destruct (detect_burst Smurfing.FAN_OUT_THRESHOLD l parties t)
      as (ps & at_ & Det & U); auto.
    { unfold Smurfing.FAN_OUT_THRESHOLD. lia. }
    destruct (fan_out_of_account txns fi fo res acc l G R I) as [Rg Rc].
    exists ps, at_. rewrite Rg, Rc.
    unfold fan_out_rings_of, fan_out_records_of. cbn [fst snd]. rewrite Det.
    auto.
Qed.

Lemma smurfing_flags_every_burst_witness :
  exists res senders at_,
    @Smurfing.run Ref.py (Batch.fan_in 12 "Aggregator") = Ok res /\
    rings_with_id "SMURF_IN_Aggregator" res
    = [fan_in_ring "Aggregator" senders at_] /\
    records_with_ring "SMURF_IN_Aggregator" res = [fan_in_record "Aggregator"].
Proof.
  assert (R : exists res,
            @Smurfing.run Ref.py (Batch.fan_in 12 "Aggregator") = Ok res)
    by (eexists; vm_compute; reflexivity).
  destruct R as [res R].
  pose (parties := map (fun i => ("User_" ++ Circular.str_of_nat i)%string)
                       (seq 0 10)).
  assert (D : NoDup parties).
  { vm_compute. repeat constructor; simpl; intuition discriminate. }
  destruct (proj1 (@smurfing_flags_every_burst Ref.py
                     (Batch.fan_in 12 "Aggregator") res "Aggregator" parties
                     1672567200%Z R D))
    as (senders & at_ & A & B & _).
  - vm_compute. lia.
  - intros p Ip. exists 1672567200%Z. split.
    + exists (Batch.txn p "Aggregator" 10 "2023-01-01 10:00:00").
      vm_compute in Ip.
      repeat (destruct Ip as [<-|Ip];
              [split; [vm_compute; repeat (first [left; reflexivity|right])|];
               split; [reflexivity|]; split; [reflexivity|];
               split; [discriminate|]; split; [discriminate|];
               vm_compute; reflexivity|]).
      destruct Ip.
    + unfold in_span. vm_compute. split; discriminate.
  - exists res, senders, at_. auto.
Defined.

Lemma has_edge_records {py : PyLib} (txns : list transaction) (u v : account) :
  has_edge (Circular.graph (Circular.build_graph txns Circular.init)) u v = true ->
  u <> v /\
  exists txn,
    In txn txns /\ sender_id txn = Some u /\ receiver_id txn = Some v.
Proof.
  intros H. pose proof (build_graph_from_init txns u v) as M.
  unfold edge_matches in M.
  destruct (records_between u v txns) as [|txn rest] eqn:R.
  - destruct M as [M _]. unfold has_edge in H. rewrite M in H. discriminate.
  - assert (I : In txn (records_between u v txns)) by (rewrite R; now left).
    unfold records_between in I. apply filter_In in I as [I V].
    apply andb_true_iff in V as [V Ev]. apply andb_true_iff in V as [V Eu].
    unfold valid_txn in V. apply andb_true_iff in V as [V D].
    apply andb_true_iff in V as [Ts Tr].
    apply String.eqb_eq in Eu, Ev. apply negb_true_iff, String.eqb_neq in D.
    split; [congruence|]. exists txn. split; [exact I|].
    rewrite (truthy_Some _ Ts) at 1. rewrite (truthy_Some _ Tr) at 1.
    now rewrite Eu, Ev.
Qed.

(** X21: given that a cycle yielded by [networkx.simple_cycles] runs
    along edges of the graph it was given, every ring of the circular
    detector is backed by the batch: for each member and the next one,
    and for the last member and the first, the batch holds a record
    from the one to the other, and the two are different accounts. *)
Theorem circular_rings_follow_records {py : PyLib} {nx : GraphLib}
  (txns : list transaction) (res : result) :
  cycles_follow_edges nx ->
  Circular.run txns = Ok res ->
  forall r, In r (fraud_rings res) ->
    forall u v, In (u, v) (cycle_pairs (member_accounts r)) ->
      u <> v /\
      exists txn,
        In txn txns /\ sender_id txn = Some u /\ receiver_id txn = Some v.
Proof.
  intros Contract E r Ir u v I.
  destruct (circular_rings_spec txns res E) as (cycles & occ & Ec & _ & M & _).
  apply has_edge_records.
  apply (detected_cycles_follow_edges _ cycles Contract Ec (member_accounts r));
    [|exact I].
  rewrite <- M. now apply in_map.
Qed.

Lemma circular_rings_follow_records_witness :
  exists res,
    @Circular.run Ref.py Ref.nx (Batch.cycle ++ Batch.chain) = Ok res /\
    map member_accounts (fraud_rings res) = [["A"; "B"; "C"]%string] /\
    forall r, In r (fraud_rings res) ->
      forall u v, In (u, v) (cycle_pairs (member_accounts r)) ->
        u <> v /\
        exists txn,
          In txn (Batch.cycle ++ Batch.chain) /\
          sender_id txn = Some u /\ receiver_id txn = Some v.
Proof.
  eexists. split; [vm_compute; reflexivity|]. split; [reflexivity|].
  apply (@circular_rings_follow_records Ref.py Ref.nx
           (Batch.cycle ++ Batch.chain) _ ref_cycles_follow_edges).
  vm_compute. reflexivity.
Defined.

(** ** The chains of the shell detector *)

Lemma find_chain_path {nx : GraphLib} (graph comp_sub : DiGraph unit)
  (component starts chain : list account) :
  Shell.find_chain graph comp_sub component starts = Some chain ->
  exists start, In chain (all_simple_paths comp_sub start component).
Proof.
  induction starts as [|s t IH]; simpl; [discriminate|].
  destruct (find _ _) as [p|] eqn:F; [|exact IH].
  intros [= <-]. apply find_some in F as [I _]. eauto.
Qed.

Lemma component_step_follows {nx : GraphLib} (graph : DiGraph unit)
  (shells comp : list account)
  (st : list suspicious_account * list fraud_ring * list account) :
  paths_follow_edges nx ->
  Forall (fun r => path_follows_edges graph (member_accounts r))
         (snd (fst st)) ->
  Forall (fun r => path_follows_edges graph (member_accounts r))
         (snd (fst (Shell.component_step graph (subgraph graph shells) st comp))).
Proof.
  intros Contract. destruct st as [[s r] d]. cbn [fst snd]. intros H.
  unfold Shell.component_step.
  destruct (2 <=? List.length comp)%nat; [|exact H].
  destruct (Shell.find_chain _ _ _ _) as [chain|] eqn:F; [|exact H].
  cbn [fst snd]. apply Forall_app. split; [exact H|]. apply Forall_one.
  cbn [member_accounts]. apply find_chain_path in F as [start I].
  apply Contract in I. intros u v Iuv.
  apply (has_edge_subgraph graph shells), (has_edge_subgraph _ comp).
  now apply I.
Qed.

Lemma shell_rings_follow {nx : GraphLib} (txns : list transaction) :
  paths_follow_edges nx ->
  Forall (fun r => path_follows_edges (fst (Shell.build txns))
                     (member_accounts r))
         (fraud_rings (Shell.run txns)).
Proof.
  intros Contract. unfold Shell.run.
  destruct (Shell.build txns) as [graph counts]. cbn [fst].
  destruct (Shell.shells_of counts) as [|s0 rest]; [constructor|].
  assert (K : Forall (fun r => path_follows_edges graph (member_accounts r))
                (snd (fst (fold_left
                   (Shell.component_step graph (subgraph graph (s0 :: rest)))
                   (weakly_connected_components (subgraph graph (s0 :: rest)))
                   ([], [], []))))).
  { apply (fold_left_inv _
             (fun st => Forall (fun r => path_follows_edges graph
                                           (member_accounts r))
                               (snd (fst st)))); [|constructor].
    intros st comp _ H. now apply component_step_follows. }
  destruct (fold_left _ _ _) as [[s r] d]. exact K.
Qed.

Lemma shell_edge_record (txns : list transaction) (u v : account) :
  has_edge (fst (Shell.build txns)) u v = true ->
  exists txn,
    In txn txns /\ sender_id txn = Some u /\ receiver_id txn = Some v.
Proof.
  unfold has_edge, get_edge. intros H.
  destruct (alist_get pair_eq_dec (u, v) (edges (fst (Shell.build txns))))
    as [d|] eqn:G; [|discriminate].
  apply (alist_get_In pair_eq_dec) in G. apply (in_map fst) in G.
  apply shell_graph_keys in G as (txn & I & Ts & Tr & E).
  injection E as -> ->. exists txn. split; [exact I|].
  split; now apply truthy_Some.
Qed.

Lemma ref_paths_from_follow {A : Type} (g : DiGraph A)
  (targets : list account) :
  forall fuel p u c,
    path_follows_edges g (rev (u :: p)) ->
    In c (Ref.paths_from g targets fuel (u :: p) u) ->
    path_follows_edges g c.
Proof.
  induction fuel as [|f IH]; intros p u c F I; cbn [Ref.paths_from] in I.
  - rewrite app_nil_r in I. destruct (mem u targets); [|destruct I].
    now destruct I as [<-|[]].
  - apply in_app_or in I as [I|I].
    + destruct (mem u targets); [|destruct I]. now destruct I as [<-|[]].
    + apply in_flat_map in I as (v & Hv & I).
      destruct (mem v (u :: p)); [destruct I|].
      apply (IH (u :: p) v c); [|exact I].
      apply successors_has_edge in Hv. intros a b Iab.
      change (rev (v :: u :: p)) with ((rev p ++ [u]) ++ [v]) in Iab.
      rewrite <- app_assoc in Iab. change ([u] ++ [v]) with (u :: [v]) in Iab.
      apply steps_app in Iab as [Iab|Iab].
      * now apply F.
      * simpl in Iab. destruct Iab as [E|[]]. now injection E as <- <-.
Qed.

Lemma ref_paths_follow_edges : paths_follow_edges Ref.nx.
Proof.
  intros G s ts p I. simpl in I. unfold Ref.all_simple_paths in I.
  destruct (mem s (nodes G)); [|destruct I].
  apply (ref_paths_from_follow G ts (number_of_nodes G) [] s p); [|exact I].
  intros u v [].
Qed.

(** X22: given that a path yielded by [networkx.all_simple_paths] runs
    along edges of the graph it was given, every ring of the shell
    detector is a chain of the batch: for each member and the next one,
    the batch holds a record from the one to the other. *)
Theorem shell_rings_follow_records {nx : GraphLib} (txns : list transaction) :
  paths_follow_edges nx ->
  forall r, In r (fraud_rings (Shell.run txns)) ->
    forall u v, In (u, v) (steps (member_accounts r)) ->
      exists txn,
        In txn txns /\ sender_id txn = Some u /\ receiver_id txn = Some v.
Proof.
  intros Contract r Ir u v I. apply shell_edge_record.
  pose proof (shell_rings_follow txns Contract) as F.
  rewrite Forall_forall in F. now apply (F r Ir).
Qed.

Lemma shell_rings_follow_records_witness :
  map member_accounts (fraud_rings (@Shell.run Ref.nx Batch.chain))
  = [["Shell1"; "Shell2"]%string] /\
  forall r, In r (fraud_rings (@Shell.run Ref.nx Batch.chain)) ->
    forall u v, In (u, v) (steps (member_accounts r)) ->
      exists txn,
        In txn Batch.chain /\ sender_id txn = Some u /\
        receiver_id txn = Some v.
Proof.
  split; [vm_compute; reflexivity|].
  exact (@shell_rings_follow_records Ref.nx Batch.chain
           ref_paths_follow_edges).
Defined.

(** ** The frequency part of the score within a run *)

Lemma ring_count_in_run {nx : GraphLib} (st : Circular.state)
  (cycles : list (list account)) (c : list account) :
  Circular.detect_cycles st = Ok cycles -> In c cycles ->
  ring_count cycles c = 1%nat.
Proof.
  intros E I. destruct (detect_cycles_shape st cycles E) as [D Own].
  destruct (Own c I) as [N _]. unfold ring_count.
  rewrite (filter_ext_in (same_ring c)
             (fun x => if cycle_eq_dec c x then true else false)).
  - now apply count_once.
  - intros x Hx. unfold same_ring. rewrite N.
    now destruct (Own x Hx) as [-> _].
Qed.

(** C1: whatever the batch, [run] scores every ring it reports with the
    occurrence map of the list that [detect_cycles] returns, and that
    list holds every ring once: the number of cycles found with the
    canonical form of a reported cycle is 1, one occurrence is recorded
    for it, and its frequency sub-score is [min(1 / 3, 1) = 1 / 3].  No
    reported ring has two or more occurrences, so none scores higher
    than another by frequency and none reaches 1. *)
Theorem frequency_score_once_per_run {py : PyLib} {nx : GraphLib}
  (txns : list transaction) (res : result) :
  Circular.run txns = Ok res ->
  exists cycles occ,
    Circular.detect_cycles (Circular.build_graph txns Circular.init)
    = Ok cycles /\
    for_each Circular.record_occurrence cycles [] = Ok occ /\
    map member_accounts (fraud_rings res) = cycles /\
    forall r, In r (fraud_rings res) ->
      ring_count cycles (member_accounts r) = 1%nat /\
      occ_len occ (member_accounts r) = 1%nat /\
      (exists fs,
         Circular.frequency_score (member_accounts r) occ = Ok fs /\
         fs == Qmin (inject_Z (Z.of_nat (ring_count cycles (member_accounts r)))
                     / 3) 1 /\
         fs == 1 # 3) /\
      Circular.compute
        (Circular.graph (Circular.build_graph txns Circular.init))
        (Circular.edge_meta (Circular.build_graph txns Circular.init))
        (member_accounts r) occ
      = Ok (risk_score r).
Proof.
  intros E.
  destruct (circular_rings_spec txns res E) as (cycles & occ & Ec & Eo & M & _ & S).
  exists cycles, occ. split; [exact Ec|]. split; [exact Eo|].
  split; [exact M|]. intros r Ir.
  assert (Ic : In (member_accounts r) cycles).
  { rewrite <- M. now apply in_map. }
  pose proof (ring_count_in_run _ cycles _ Ec Ic) as C.
  destruct (detect_cycles_shape _ cycles Ec) as [D Own].
  destruct (Own _ Ic) as [N _].
  split; [exact C|]. split; [|split].
  - rewrite (record_occurrence_count cycles [] occ Eo).
    unfold occ_len at 1. cbn [alist_get List.length Nat.add].
    rewrite <- C. unfold ring_count. f_equal. apply filter_ext.
    intros x. symmetry. now apply same_ring_has_norm.
  - destruct (frequency_in_run _ cycles occ _ Ec Eo Ic) as (fs & F & V).
    exists fs. split; [exact F|]. split; [|exact V].
    rewrite C, V. reflexivity.
  - rewrite Forall_forall in S. now destruct (S r Ir) as (_ & Cm & _).
Qed.

Lemma frequency_score_once_per_run_witness :
  exists res1 res3,
    @Circular.run Ref.py Ref.nx Batch.cycle = Ok res1 /\
    @Circular.run Ref.py Ref.nx (Batch.cycle ++ Batch.cycle ++ Batch.cycle)
    = Ok res3 /\
    map member_accounts (fraud_rings res3) = [["A"; "B"; "C"]%string] /\
    map risk_score (fraud_rings res3) = map risk_score (fraud_rings res1) /\
    forall r, In r (fraud_rings res3) ->
      ring_count (map member_accounts (fraud_rings res3)) (member_accounts r)
      = 1%nat.
Proof.
  eexists. eexists. split; [vm_compute; reflexivity|].
  split; [vm_compute; reflexivity|].
  split; [vm_compute; reflexivity|]. split; [vm_compute; reflexivity|].
  destruct (@frequency_score_once_per_run Ref.py Ref.nx
              (Batch.cycle ++ Batch.cycle ++ Batch.cycle) _
              ltac:(vm_compute; reflexivity))
    as (cycles & occ & _ & _ & M & F).
  intros r Ir. rewrite M. now destruct (F r Ir) as [C _].
Defined.

(** ** The smurfing detector on records with fields of any type *)

Lemma wire_group_step_ok_iff {py : PyLib} (st : Wire.fan_t * Wire.fan_t)
  (w : Wire.record) :
  (exists st', Wire.group_step st w = Ok st') <-> readable w.
Proof.
  unfold Wire.group_step, readable.
  destruct (Wire.timestamp w) as [o|[|]]; cbn [Wire.parse_ts bind].
  - destruct (Wire.float_of (Wire.amount w)) as [x|e]; cbn [bind].
    + split; [intros _; split; [discriminate|eauto]|intros _].
      destruct (parse_ts o); [|eauto].
      destruct (truthy _ && truthy _); eauto.
    + split; [intros [? ?]; discriminate|intros [_ [? ?]]; discriminate].
  - split; [intros [? ?]; discriminate|intros [N _]; now destruct N].
  - destruct (Wire.float_of (Wire.amount w)) as [x|e]; cbn [bind].
    + split; [intros _; split; [discriminate|eauto]|eauto].
    + split; [intros [? ?]; discriminate|intros [_ [? ?]]; discriminate].
Qed.

Lemma wire_group_step_raises {py : PyLib} (st : Wire.fan_t * Wire.fan_t)
  (w : Wire.record) :
  (Wire.timestamp w = Wire.TsOther true ->
   Wire.group_step st w = Raise AttributeError) /\
  (forall e, Wire.timestamp w <> Wire.TsOther true ->
     Wire.float_of (Wire.amount w) = Raise e ->
     Wire.group_step st w = Raise e).
Proof.
  unfold Wire.group_step. split.
  - intros ->. reflexivity.
  - intros e N F. rewrite F.
    destruct (Wire.timestamp w) as [o|[|]]; cbn [Wire.parse_ts bind];
      [reflexivity|now destruct N|reflexivity].
Qed.

Lemma wire_run_of_group {py : PyLib} (ws : list Wire.record) :
  ((exists res, Wire.run ws = Ok res) <-> exists g, Wire.group ws = Ok g) /\
  forall e, Wire.group ws = Raise e -> Wire.run ws = Raise e.
Proof.
  unfold Wire.run. split; [split|].
  - intros [res E]. apply bind_Ok in E as (g & G & _). eauto.
  - intros [g ->]. cbn [bind]. eauto.
  - intros e ->. reflexivity.
Qed.

Lemma plain_groups_append (k : account) (e : Wire.entry) (m : Wire.fan_t) :
  Wire.plain_groups (alist_append account_eq_dec k e m)
  = alist_append account_eq_dec k (Wire.plain_entry e) (Wire.plain_groups m).
Proof.
  unfold alist_append, Wire.plain_groups.
  induction m as [|[k' v] t IH]; simpl; [reflexivity|].
  destruct (account_eq_dec k' k); simpl.
  - now rewrite map_app.
  - now rewrite IH.
Qed.

Lemma wire_group_step_plain {py : PyLib} (st : Wire.fan_t * Wire.fan_t)
  (txn : transaction) :
  match Wire.group_step st (as_record txn) with
  | Ok st' =>
      Smurfing.group_step
        (Wire.plain_groups (fst st), Wire.plain_groups (snd st)) txn
      = Ok (Wire.plain_groups (fst st'), Wire.plain_groups (snd st'))
  | Raise e =>
      Smurfing.group_step
        (Wire.plain_groups (fst st), Wire.plain_groups (snd st)) txn
      = Raise e
  end.
Proof.
  unfold Wire.group_step, Smurfing.group_step, Smurfing.txn_amount, as_record.
  cbn [Wire.timestamp Wire.amount Wire.sender_id Wire.receiver_id
       Wire.parse_ts Wire.float_of bind].
  destruct (py_float (amount txn)) as [q|e]; cbn [bind]; [|reflexivity].
  destruct (parse_ts (timestamp txn)) as [t|]; [|reflexivity].
  destruct (truthy _ && truthy _); [|reflexivity].
  cbn [fst snd]. now rewrite !plain_groups_append.
Qed.

Lemma wire_group_plain {py : PyLib} (txns : list transaction) :
  forall st,
    match for_each Wire.group_step (map as_record txns) st with
    | Ok st' =>
        for_each Smurfing.group_step txns
          (Wire.plain_groups (fst st), Wire.plain_groups (snd st))
        = Ok (Wire.plain_groups (fst st'), Wire.plain_groups (snd st'))
    | Raise e =>
        for_each Smurfing.group_step txns
          (Wire.plain_groups (fst st), Wire.plain_groups (snd st))
        = Raise e
    end.
Proof.
  induction txns as [|txn rest IH]; intros st; cbn [map for_each];
    [reflexivity|].
  pose proof (wire_group_step_plain st txn) as S.
  destruct (Wire.group_step st (as_record txn)) as [s1|e]; rewrite S;
    cbn [bind]; [apply IH|reflexivity].
Qed.

(** X9: on records whose fields may have any type, the smurfing detector
    returns a result exactly when, for every record of the batch, the
    timestamp is not a true value without [strip] (such as the float
    NaN of an empty cell) and [float] accepts the amount, whether or not
    the record would be skipped for a missing id or timestamp.
    Otherwise it raises at the first record that fails:
    [AttributeError] for its timestamp, else what [float] raises on its
    amount.  On records whose timestamp is a string or [None] it is the
    detector on such records. *)
Theorem smurfing_returns_iff_fields_readable {py : PyLib}
  (ws : list Wire.record) :
  ((exists res, Wire.run ws = Ok res) <-> Forall readable ws) /\
  (forall pre w post,
     ws = pre ++ w :: post -> Forall readable pre ->
     (Wire.timestamp w = Wire.TsOther true ->
      Wire.run ws = Raise AttributeError) /\
     (forall e, Wire.timestamp w <> Wire.TsOther true ->
        Wire.float_of (Wire.amount w) = Raise e ->
        Wire.run ws = Raise e)) /\
  (forall txns, ws = map as_record txns -> Wire.run ws = Smurfing.run txns).
Proof.
  destruct (wire_run_of_group ws) as [RG RR]. split; [|split].
  - rewrite RG. unfold Wire.group.
    apply (for_each_ok_iff Wire.group_step readable ws wire_group_step_ok_iff).
  - intros pre w post -> Fp.
    apply (for_each_ok_iff Wire.group_step readable pre wire_group_step_ok_iff
             ([], [])) in Fp as [s1 E1].
    assert (G : forall e, Wire.group_step s1 w = Raise e ->
                Wire.run (pre ++ w :: post) = Raise e).
    { intros e Ew. apply RR. unfold Wire.group.
      rewrite for_each_app, E1. cbn [bind for_each]. now rewrite Ew. }
    destruct (wire_group_step_raises s1 w) as [A B]. split.
    + intros T. apply G. now apply A.
    + intros e N F. apply G. now apply B.
  - intros txns ->. unfold Wire.run, Wire.group, Smurfing.run.
    pose proof (wire_group_plain txns ([], [])) as S.
    cbn [fst snd Wire.plain_groups map] in S.
    destruct (for_each Wire.group_step (map as_record txns) ([], []))
      as [g|e].
    + change (Smurfing.group txns
              = Ok (Wire.plain_groups (fst g), Wire.plain_groups (snd g)))
        in S.
      rewrite S. reflexivity.
    + change (Smurfing.group txns = Raise e) in S. rewrite S. reflexivity.
Qed.

Lemma smurfing_returns_iff_fields_readable_witness :
  @Wire.run Ref.py [untimed_row] = Raise AttributeError /\
  @Wire.run Ref.py (as_record Batch.bad_amount :: [untimed_row])
  = Raise ValueError /\
  exists res,
    @Wire.run Ref.py (map as_record (Batch.fan_in 12 "Aggregator")) = Ok res.
Proof.
  split; [|split].
  - exact (proj1 (proj1 (proj2 (@smurfing_returns_iff_fields_readable Ref.py
                                  [untimed_row]))
                    [] untimed_row [] eq_refl (Forall_nil _))
             eq_refl).
  - apply (proj2 (proj1 (proj2 (@smurfing_returns_iff_fields_readable Ref.py
                                  (as_record Batch.bad_amount :: [untimed_row])))
                    [] (as_record Batch.bad_amount) [untimed_row] eq_refl
                    (Forall_nil _))).
    + discriminate.
    + vm_compute. reflexivity.
  - apply (proj1 (@smurfing_returns_iff_fields_readable Ref.py
                    (map as_record (Batch.fan_in 12 "Aggregator")))).
    apply Forall_forall. intros w I.
    apply in_map_iff in I as (t & <- & It).
    unfold Batch.fan_in in It. apply in_map_iff in It as (i & <- & _).
    split; [discriminate|]. eexists. reflexivity.
Defined.
